(** * SwissDraw: eligibility, opponent finder, pairing generator, leaderboard

    A shallow embedding of the TypeScript library of the SwissDraw
    tournament manager ([lib/matches.ts], [lib/opponents.ts],
    [lib/students.ts], [lib/matchRecommendations.ts], [lib/leaderboard.ts])
    together with the properties its specification states about it.

    Conventions of the embedding:
    - a JavaScript [number] that holds a score, a counter or a timestamp is
      an integer [Z]; the two quotients the library computes (the win rate
      and the average score difference) are exact rationals [Q], where the
      code rounds them to doubles; the point [recordMatch] and the delete
      functions add to or take from a score is added the way doubles add,
      rounded to 53 significant bits ([js_add], [js_sub]);
    - the Svelte store [matchHistory] and the roster served by
      [getStudents()] are read-only during one computation, so every
      function that reads them takes their content as explicit arguments
      ([matches], [roster]);
    - [Array.prototype.sort] is a stable sort driven by the sign of the
      comparator; it is modelled by a stable insertion sort;
    - [Set<string>] is a [gset string]. *)

From Stdlib Require Import ZArith QArith Lqa List Permutation Sorted OrderedTypeEx.
From stdpp Require Import base decidable numbers list sorting gmap strings pretty.

Close Scope Q_scope.
Local Open Scope Z_scope.
#[local] Set Warnings "-clear-no-such-hyp".

(** ** JavaScript array primitives *)

Section ArraySort.
Context {A : Type}.

(** [before x y] stands for "the comparator called on [(x, y)] returned a
    value [<= 0]", in which case [x] stays in front of [y]. *)
Variable before : A → A → bool.

Fixpoint sort_insert (x : A) (l : list A) : list A :=
  match l with
  | [] => [x]
  | y :: l' => if before x y then x :: y :: l' else y :: sort_insert x l'
  end.

(** Stable: an element is inserted in front of the elements that followed
    it in the input and that it does not strictly exceed. *)
Definition array_sort_by (l : list A) : list A :=
  foldr sort_insert [] l.

End ArraySort.

(** [arr.sort((a, b) => ...)] with an integer-valued comparator. *)
Definition array_sort {A} (cmp : A → A → Z) : list A → list A :=
  array_sort_by (λ x y, bool_decide (cmp x y ≤ 0)).

(** [arr.sort((a, b) => ...)] with a comparator that may return a fraction. *)
Definition array_sortQ {A} (cmp : A → A → Q) : list A → list A :=
  array_sort_by (λ x y, Qle_bool (cmp x y) 0%Q).

(** [arr.find(p)]. *)
Definition array_find {A} (p : A → bool) (l : list A) : option A :=
  List.find p l.

(** [arr.slice(0, limit)]: a negative [limit] counts from the end. *)
Definition array_slice0 {A} (limit : Z) (l : list A) : list A :=
  if bool_decide (limit < 0)
  then take (Z.to_nat (Z.of_nat (length l) + limit)) l
  else take (Z.to_nat limit) l.

(** [arr.reduce(f)] without an initial value; [None] stands for the
    [TypeError] raised on an empty array. *)
Definition array_reduce {A} (f : A → A → A) (l : list A) : option A :=
  match l with
  | [] => None
  | x :: l' => Some (foldl f x l')
  end.

(** [[arr[i], arr[j]] = [arr[j], arr[i]]]: the right-hand side is read
    first, then [arr[i]] and [arr[j]] are written in that order. Both
    indices are in range at every call site; outside the range the model
    leaves the array as it is. *)
Definition array_swap {A} (arr : list A) (i j : nat) : list A :=
  match arr !! j, arr !! i with
  | Some aj, Some ai => <[j:=ai]> (<[i:=aj]> arr)
  | _, _ => arr
  end.

(** ** JavaScript numbers

    A score is an integer-valued [number], an IEEE 754 double. The sum or
    the difference of two such numbers is the exact result rounded to 53
    significant bits, a tie going to the even significand: up to [2^53] in
    magnitude every integer is its own rounding, beyond it only the
    multiples of a power of two are left. *)

(** [Number.MAX_SAFE_INTEGER], that is [2^53 - 1]. *)
Definition MAX_SAFE_INTEGER : Z := 9007199254740991.

Definition roundDouble (n : Z) : Z :=
  let a := Z.abs n in
  if bool_decide (a ≤ MAX_SAFE_INTEGER) then n
  else
    let ulp := 2 ^ (Z.log2 a - 52) in
    let q := a / ulp in
    let r := a mod ulp in
    let q' :=
      if bool_decide (2 * r < ulp) then q
      else if bool_decide (ulp < 2 * r) then q + 1
      else if Z.even q then q else q + 1 in
    Z.sgn n * (q' * ulp).

(** [x + y] and [x - y] on integer-valued numbers. *)
Definition js_add (x y : Z) : Z := roundDouble (x + y).
Definition js_sub (x y : Z) : Z := roundDouble (x - y).
Arguments roundDouble : simpl never.
Arguments js_add : simpl never.
Arguments js_sub : simpl never.

(** Outcome of an [async] function: its promise is fulfilled with a value
    or rejected with an error. *)
Inductive Outcome (A : Type) : Type :=
  | Fulfilled (value : A)
  | Rejected (errorKind : string).
Arguments Fulfilled {A} value.
Arguments Rejected {A} errorKind.

(** ** [students.ts] *)

Module Students.

(** [interface Student]. *)
Record Student := mkStudent {
  id : string;
  name : string;
  score : Z
}.

#[global] Instance Student_eq_dec : EqDecision Student.
Proof. solve_decision. Defined.

(** [getStudentsSortedByScore], on what [getStudents()] resolves to. *)
Definition getStudentsSortedByScore (roster : list Student) (ascending : bool)
    : list Student :=
  array_sort (λ a b, if ascending then score a - score b else score b - score a)
             roster.

(** [students.find(s => s.id === id) || null]. *)
Definition getStudentById (roster : list Student) (studentId : string)
    : option Student :=
  array_find (λ s, bool_decide (id s = studentId)) roster.

(** *** [routes/api/students/+server.ts]

    Each handler takes the stored array and the fields of the request
    body, and returns its response with the array it leaves in the store.
    [trim] stands for [String.prototype.trim]. *)
Module Api.

Inductive Response (A : Type) : Type :=
  | Json (body : A)
  | Failure (status : Z) (error : string).
Arguments Json {A} body.
Arguments Failure {A} status error.

(** [newId] is [Date.now().toString()]. *)
Definition POST (trim : string → string) (newId : string)
    (students : list Student) (reqName : string) (reqScore : Z)
    : Response Student * list Student :=
  let newStudent := {| id := newId; name := trim reqName; score := reqScore |} in
  (Json newStudent, students ++ [newStudent]).

Definition PUT (trim : string → string) (students : list Student)
    (reqId reqName : string) (reqScore : Z)
    : Response Student * list Student :=
  match list_find (λ s, id s = reqId) students with
  | None => (Failure 404 "Student not found", students)
  | Some (studentIndex, old) =>
      let updated := {| id := id old; name := trim reqName; score := reqScore |} in
      (Json updated, <[studentIndex:=updated]> students)
  end.

Definition DELETE (students : list Student) (reqId : string)
    : Response bool * list Student :=
  let filteredStudents := filter (λ s, id s ≠ reqId) students in
  if bool_decide (length filteredStudents = length students)
  then (Failure 404 "Student not found", students)
  else (Json true, filteredStudents).

End Api.

(** [updateStudent]: the PUT request reaches the server and its answer
    comes back; the result is [null] unless the response is ok. The second
    component is the array the server holds afterwards. *)
Definition updateStudent (trim : string → string) (students : list Student)
    (studentId studentName : string) (newScore : Z)
    : option Student * list Student :=
  match Api.PUT trim students studentId studentName newScore with
  | (Api.Json updated, students') => (Some updated, students')
  | (Api.Failure _ _, students') => (None, students')
  end.

(** [deleteStudent], likewise. *)
Definition deleteStudent (students : list Student) (studentId : string)
    : bool * list Student :=
  match Api.DELETE students studentId with
  | (Api.Json _, students') => (true, students')
  | (Api.Failure _ _, students') => (false, students')
  end.

End Students.

(** ** [matches.ts] *)

Module Matches.

(** [interface Match]; [date] is the instant in milliseconds. *)
Record Match := mkMatch {
  id : string;
  playerA : string;
  playerB : string;
  winner : string;
  loser : string;
  date : Z
}.

#[global] Instance Match_eq_dec : EqDecision Match.
Proof. solve_decision. Defined.

(** The predicate of the filter shared by [canPlay] and
    [getMatchesBetweenStudents]. *)
Definition isBetween (studentA studentB : string) (m : Match) : Prop :=
  (playerA m = studentA ∧ playerB m = studentB) ∨
  (playerA m = studentB ∧ playerB m = studentA).

#[global] Instance isBetween_dec a b m : Decision (isBetween a b m).
Proof. unfold isBetween. apply _. Defined.

(** [l.filter(match => match.winner === student).length]. *)
Definition winsOf (student : string) (l : list Match) : nat :=
  length (filter (λ m, winner m = student) l).

(** [matches] is the content of the [matchHistory] store. *)
Definition canPlay (matches : list Match) (studentA studentB : string) : bool :=
  let matchesBetweenPlayers := filter (isBetween studentA studentB) matches in
  if bool_decide (length matchesBetweenPlayers < 3)%nat then true
  else
    if bool_decide (length matchesBetweenPlayers = 3%nat) then
      let studentAWins := winsOf studentA matchesBetweenPlayers in
      let studentBWins := winsOf studentB matchesBetweenPlayers in
      if bool_decide (studentAWins = 2%nat ∨ studentBWins = 2%nat) then true
      else false
    else false.

Definition getMatchHistory (matches : list Match) (studentId : string)
    : list Match :=
  filter (λ m, playerA m = studentId ∨ playerB m = studentId) matches.

Definition getMatchesBetweenStudents (matches : list Match)
    (studentA studentB : string) : list Match :=
  filter (isBetween studentA studentB) matches.

(** The values of the map of the derived store [matchStats]. *)
Record PlayerStats := mkPlayerStats {
  wins : Z;
  losses : Z;
  total : Z
}.

Definition noStats : PlayerStats := {| wins := 0; losses := 0; total := 0 |}.

(** [if (!stats.has(k)) stats.set(k, { wins: 0, losses: 0, total: 0 })]. *)
Definition ensureStats (k : string) (stats : gmap string PlayerStats)
    : gmap string PlayerStats :=
  if bool_decide (is_Some (stats !! k)) then stats else <[k:=noStats]> stats.

Definition addWin (p : PlayerStats) : PlayerStats :=
  {| wins := wins p + 1; losses := losses p; total := total p |}.
Definition addLoss (p : PlayerStats) : PlayerStats :=
  {| wins := wins p; losses := losses p + 1; total := total p |}.
Definition addTotal (p : PlayerStats) : PlayerStats :=
  {| wins := wins p; losses := losses p; total := total p + 1 |}.

(** The callback of [$matchHistory.forEach]. [playerAStats] and
    [playerBStats] are the objects held by the map, one and the same object
    when the two players are the same; each [++] is an update of the map at
    the player's key. *)
Definition tallyMatch (stats : gmap string PlayerStats) (m : Match)
    : gmap string PlayerStats :=
  let stats := ensureStats (playerA m) stats in
  let stats := ensureStats (playerB m) stats in
  let stats :=
    if bool_decide (winner m = playerA m)
    then alter addLoss (playerB m) (alter addWin (playerA m) stats)
    else alter addLoss (playerA m) (alter addWin (playerB m) stats) in
  alter addTotal (playerB m) (alter addTotal (playerA m) stats).

Definition matchStats (matches : list Match) : gmap string PlayerStats :=
  foldl tallyMatch ∅ matches.

(** [stats.get(studentId) || { wins: 0, losses: 0, total: 0 }]. *)
Definition getStudentMatchStats (matches : list Match) (studentId : string)
    : PlayerStats :=
  default noStats (matchStats matches !! studentId).

(** What the functions below read and write: the content of the
    [matchHistory] store and the array the students API holds. *)
Record Tournament := mkTournament {
  matchHistory : list Match;
  studentsData : list Students.Student
}.

Definition findStudent (students : list Students.Student) (studentId : string)
    : option Students.Student :=
  array_find (λ s, bool_decide (Students.id s = studentId)) students.

(** [recordMatch]. [now] is the clock reading behind [Date.now()] and
    [new Date()]. The requests to the students API are answered (see
    [Students.updateStudent]); the copy of the history the store's
    subscriber posts to the matches API is not part of the model. *)
Definition recordMatch (trim : string → string) (now : Z) (t : Tournament)
    (winnerId loserId : string) : bool * Tournament :=
  if negb (canPlay (matchHistory t) winnerId loserId) then (false, t)
  else
    let newMatch :=
      {| id := pretty now; playerA := winnerId; playerB := loserId;
         winner := winnerId; loser := loserId; date := now |} in
    let matches := matchHistory t ++ [newMatch] in
    let students := studentsData t in
    match findStudent students winnerId, findStudent students loserId with
    | Some winner, Some loser =>
        let data1 :=
          (Students.updateStudent trim (studentsData t) winnerId
             (Students.name winner) (js_add (Students.score winner) 1)).2 in
        let data2 :=
          (Students.updateStudent trim data1 loserId
             (Students.name loser) (js_sub (Students.score loser) 1)).2 in
        (true, {| matchHistory := matches; studentsData := data2 |})
    | _, _ => (true, {| matchHistory := matches; studentsData := studentsData t |})
    end.

(** [deleteMatch]. *)
Definition deleteMatch (trim : string → string) (t : Tournament)
    (matchId : string) : bool * Tournament :=
  match array_find (λ m, bool_decide (id m = matchId)) (matchHistory t) with
  | None => (false, t)
  | Some matchToDelete =>
      let matches := filter (λ m, id m ≠ matchId) (matchHistory t) in
      let students := studentsData t in
      match findStudent students (winner matchToDelete),
            findStudent students (loser matchToDelete) with
      | Some winner', Some loser' =>
          let data1 :=
            (Students.updateStudent trim (studentsData t) (winner matchToDelete)
               (Students.name winner') (js_sub (Students.score winner') 1)).2 in
          let data2 :=
            (Students.updateStudent trim data1 (loser matchToDelete)
               (Students.name loser') (js_add (Students.score loser') 1)).2 in
          (true, {| matchHistory := matches; studentsData := data2 |})
      | _, _ =>
          (true, {| matchHistory := matches; studentsData := studentsData t |})
      end
  end.

(** One iteration of the [for] loop of [deleteMatchesByStudent]:
    [students] is the array fetched before the loop, [data] the array the
    server holds. *)
Definition revertOther (trim : string → string) (studentId : string)
    (students : list Students.Student) (data : list Students.Student)
    (m : Match) : list Students.Student :=
  let otherPlayerId :=
    if bool_decide (playerA m = studentId) then playerB m else playerA m in
  match findStudent students otherPlayerId with
  | Some otherPlayer =>
      if bool_decide (winner m = otherPlayerId)
      then (Students.updateStudent trim data otherPlayerId
              (Students.name otherPlayer)
              (js_sub (Students.score otherPlayer) 1)).2
      else (Students.updateStudent trim data otherPlayerId
              (Students.name otherPlayer)
              (js_add (Students.score otherPlayer) 1)).2
  | None => data
  end.

(** [deleteMatchesByStudent]. [responseOk] is [response.ok] of the DELETE
    request to the matches API; when it is false the function throws into
    its own [catch] and returns false. *)
Definition deleteMatchesByStudent (trim : string → string) (responseOk : bool)
    (t : Tournament) (studentId : string) : bool * Tournament :=
  let matchesToDelete :=
    filter (λ m, playerA m = studentId ∨ playerB m = studentId)
           (matchHistory t) in
  if bool_decide (length matchesToDelete = 0%nat) then (true, t)
  else if negb responseOk then (false, t)
  else
    let matches :=
      filter (λ m, playerA m ≠ studentId ∧ playerB m ≠ studentId)
             (matchHistory t) in
    let students := studentsData t in
    (true,
     {| matchHistory := matches;
        studentsData :=
          foldl (revertOther trim studentId students) (studentsData t)
                matchesToDelete |}).

(** *** [routes/api/matches/+server.ts] *)
Module Api.

(** A field of the request body is absent or a string; the handler tests
    it for truthiness, and the empty string is falsy. *)
Definition truthy (field : option string) : bool :=
  match field with
  | Some s => negb (bool_decide (s = ""))
  | None => false
  end.

(** [newId] is [Date.now().toString()], [now] is [new Date()]. *)
Definition POST (newId : string) (now : Z) (matches : list Match)
    (reqPlayerA reqPlayerB reqWinner reqLoser : string)
    : Students.Api.Response Match * list Match :=
  let newMatch :=
    {| id := newId; playerA := reqPlayerA; playerB := reqPlayerB;
       winner := reqWinner; loser := reqLoser; date := now |} in
  (Students.Api.Json newMatch, matches ++ [newMatch]).

Definition DELETE (matches : list Match) (reqId reqStudentId : option string)
    : Students.Api.Response bool * list Match :=
  if truthy reqStudentId then
    (Students.Api.Json true,
     filter (λ m, Some (playerA m) ≠ reqStudentId ∧
                  Some (playerB m) ≠ reqStudentId) matches)
  else if truthy reqId then
    let filteredMatches := filter (λ m, Some (id m) ≠ reqId) matches in
    if bool_decide (length filteredMatches = length matches)
    then (Students.Api.Failure 404 "Match not found", matches)
    else (Students.Api.Json true, filteredMatches)
  else
    (Students.Api.Failure 400 "Either id or studentId must be provided",
     matches).

End Api.

End Matches.

(** ** [opponents.ts] *)

Module Opponents.
Import Students.

(** [interface MatchResult] has the fields of [Match]; [getHeadToHead]
    copies them one by one. *)
Definition getHeadToHead (matches : list Matches.Match)
    (studentA studentB : string) : list Matches.Match :=
  (λ m, Matches.mkMatch (Matches.id m) (Matches.playerA m) (Matches.playerB m)
          (Matches.winner m) (Matches.loser m) (Matches.date m))
  <$> Matches.getMatchesBetweenStudents matches studentA studentB.

Definition canHaveBestOfThreeRematch (matches : list Matches.Match)
    (studentA studentB : string) : bool :=
  let headToHead := getHeadToHead matches studentA studentB in
  if bool_decide (length headToHead ≠ 3%nat) then false
  else
    let studentAWins := Matches.winsOf studentA headToHead in
    let studentBWins := Matches.winsOf studentB headToHead in
    bool_decide (studentAWins = 2%nat ∨ studentBWins = 2%nat).

Definition isScoreWithinMargin (scoreA scoreB margin : Z) : bool :=
  bool_decide (Z.abs (scoreA - scoreB) ≤ margin).

(** The callback of the filter of [getEligibleOpponents]. *)
Definition isEligibleOpponent (matches : list Matches.Match)
    (studentId : string) (targetStudent : Student) (margin : Z)
    (opponent : Student) : bool :=
  if bool_decide (id opponent = studentId) then false
  else if negb (isScoreWithinMargin (score targetStudent) (score opponent) margin)
  then false
  else if negb (Matches.canPlay matches studentId (id opponent)) then
    if bool_decide
         (length (getHeadToHead matches studentId (id opponent)) = 3%nat)
    then canHaveBestOfThreeRematch matches studentId (id opponent)
    else false
  else true.

(** [roster] is what [getStudents()] resolves to, [matches] the content of
    the [matchHistory] store. *)
Definition getEligibleOpponents (roster : list Student)
    (matches : list Matches.Match) (studentId : string) (margin : Z)
    : list Student :=
  match array_find (λ s, bool_decide (id s = studentId)) roster with
  | None => []
  | Some targetStudent =>
      filter (λ opponent,
                isEligibleOpponent matches studentId targetStudent margin opponent)
             roster
  end.

(** The promise returned by the [async] function [getEligibleOpponents]:
    [getStudents] catches every failure of its own and the body has no
    [throw], so the promise is always fulfilled. *)
Definition getEligibleOpponents_async (roster : list Student)
    (matches : list Matches.Match) (studentId : string) (margin : Z)
    : Outcome (list Student) :=
  Fulfilled (getEligibleOpponents roster matches studentId margin).

(** The element type of [getEligibleOpponentsWithDetails]. *)
Record OpponentDetails := mkDetails {
  student : Student;
  matchCount : Z;
  lastPlayed : option Z;
  scoreDifference : Z
}.

Definition detailsOf (matches : list Matches.Match) (studentId : string)
    (targetStudent opponent : Student) : OpponentDetails :=
  let headToHead := getHeadToHead matches studentId (id opponent) in
  let lastMatch :=
    if bool_decide (0 < length headToHead)%nat
    then head (array_sort (λ a b, Matches.date b - Matches.date a) headToHead)
    else None in
  {| student := opponent;
     matchCount := Z.of_nat (length headToHead);
     lastPlayed := Matches.date <$> lastMatch;
     scoreDifference := Z.abs (score targetStudent - score opponent) |}.

(** The comparator of the sort of [getEligibleOpponentsWithDetails]. *)
Definition compareDetails (a b : OpponentDetails) : Z :=
  if bool_decide (scoreDifference a ≠ scoreDifference b)
  then scoreDifference a - scoreDifference b
  else matchCount a - matchCount b.

Definition getEligibleOpponentsWithDetails (roster : list Student)
    (matches : list Matches.Match) (studentId : string) (margin : Z)
    : list OpponentDetails :=
  match array_find (λ s, bool_decide (id s = studentId)) roster with
  | None => []
  | Some targetStudent =>
      let eligibleOpponents :=
        getEligibleOpponents roster matches studentId margin in
      array_sort compareDetails
        (detailsOf matches studentId targetStudent <$> eligibleOpponents)
  end.

Definition getBestOpponentRecommendation (roster : list Student)
    (matches : list Matches.Match) (studentId : string) (margin : Z)
    : option Student :=
  let eligibleOpponents :=
    getEligibleOpponentsWithDetails roster matches studentId margin in
  if bool_decide (0 < length eligibleOpponents)%nat
  then student <$> head eligibleOpponents
  else None.

Definition getOpponentRecommendations (roster : list Student)
    (matches : list Matches.Match) (studentId : string) (margin limit : Z)
    : list Student :=
  let eligibleOpponents :=
    getEligibleOpponentsWithDetails roster matches studentId margin in
  student <$> array_slice0 limit eligibleOpponents.

Definition getBestOpponentRecommendation_async (roster : list Student)
    (matches : list Matches.Match) (studentId : string) (margin : Z)
    : Outcome (option Student) :=
  Fulfilled (getBestOpponentRecommendation roster matches studentId margin).

Definition hasEligibleOpponents (roster : list Student)
    (matches : list Matches.Match) (studentId : string) (margin : Z) : bool :=
  bool_decide
    (0 < length (getEligibleOpponents roster matches studentId margin))%nat.

(** The object returned by [getOpponentAvailabilityStats]. *)
Record AvailabilityStats := mkAvailability {
  totalStudents : Z;
  eligibleOpponents : Z;
  withinMargin : Z;
  excludedByMatchLimit : Z;
  excludedByScore : Z
}.

(** The three counters of [getOpponentAvailabilityStats]. *)
Record AvailabilityCounters := mkAvailabilityCounters {
  cntWithinMargin : Z;
  cntExcludedByMatchLimit : Z;
  cntExcludedByScore : Z
}.

(** The callback of [students.forEach] in [getOpponentAvailabilityStats]. *)
Definition availabilityStep (matches : list Matches.Match) (studentId : string)
    (targetStudent : Student) (margin : Z) (c : AvailabilityCounters)
    (opponent : Student) : AvailabilityCounters :=
  if bool_decide (id opponent = studentId) then c
  else if negb (isScoreWithinMargin (score targetStudent) (score opponent) margin)
  then {| cntWithinMargin := cntWithinMargin c;
          cntExcludedByMatchLimit := cntExcludedByMatchLimit c;
          cntExcludedByScore := cntExcludedByScore c + 1 |}
  else
    let c' := {| cntWithinMargin := cntWithinMargin c + 1;
                 cntExcludedByMatchLimit := cntExcludedByMatchLimit c;
                 cntExcludedByScore := cntExcludedByScore c |} in
    if negb (Matches.canPlay matches studentId (id opponent)) then
      let headToHead := getHeadToHead matches studentId (id opponent) in
      if bool_decide (3 ≤ length headToHead)%nat
         && negb (canHaveBestOfThreeRematch matches studentId (id opponent))
      then {| cntWithinMargin := cntWithinMargin c';
              cntExcludedByMatchLimit := cntExcludedByMatchLimit c' + 1;
              cntExcludedByScore := cntExcludedByScore c' |}
      else c'
    else c'.

Definition getOpponentAvailabilityStats (roster : list Student)
    (matches : list Matches.Match) (studentId : string) (margin : Z)
    : AvailabilityStats :=
  match array_find (λ s, bool_decide (id s = studentId)) roster with
  | None =>
      {| totalStudents := 0; eligibleOpponents := 0; withinMargin := 0;
         excludedByMatchLimit := 0; excludedByScore := 0 |}
  | Some targetStudent =>
      let c := foldl (availabilityStep matches studentId targetStudent margin)
                     (mkAvailabilityCounters 0 0 0) roster in
      let eligible := getEligibleOpponents roster matches studentId margin in
      {| totalStudents := Z.of_nat (length roster) - 1;
         eligibleOpponents := Z.of_nat (length eligible);
         withinMargin := cntWithinMargin c;
         excludedByMatchLimit := cntExcludedByMatchLimit c;
         excludedByScore := cntExcludedByScore c |}
  end.

End Opponents.

(** ** [matchRecommendations.ts] *)

Module MatchRecommendations.
Import Students.

(** [interface MatchRecommendation]. *)
Record MatchRecommendation := mkRecommendation {
  playerA : Student;
  playerB : Student;
  scoreDifference : Z
}.

(** The loop of [shuffleArray], from index [i] down to [1]. [random i]
    stands for the outcome of [Math.random()] at index [i];
    [Math.floor(Math.random() * (i + 1))] is one of [0 .. i], which the
    model obtains by reducing the draw modulo [i + 1]. *)
Fixpoint shuffleLoop {A} (random : nat → nat) (i : nat) (shuffled : list A)
    : list A :=
  match i with
  | O => shuffled
  | S i' =>
      let j := (random i `mod` (i + 1))%nat in
      shuffleLoop random i' (array_swap shuffled i j)
  end.

Definition shuffleArray {A} (random : nat → nat) (array : list A) : list A :=
  shuffleLoop random (length array - 1)%nat array.

(** The two variables the pairing loops update. *)
Record RoundState := mkRound {
  recommendations : list MatchRecommendation;
  usedStudents : gset string
}.

Definition emptyRound : RoundState :=
  {| recommendations := []; usedStudents := ∅ |}.

(** [recommendations.push(...)] followed by the two [usedStudents.add]. *)
Definition recordPairing (st : RoundState) (student bestOpponent : Student)
    : RoundState :=
  {| recommendations :=
       recommendations st ++
       [ {| playerA := student;
            playerB := bestOpponent;
            scoreDifference := Z.abs (score student - score bestOpponent) |} ];
     usedStudents := usedStudents st ∪ {[ id student ]} ∪ {[ id bestOpponent ]} |}.

(** The comparator of the sort inside [getMatchRecommendations]. *)
Definition compareByScoreDiff (student a b : Student) : Z :=
  let scoreDiffA := Z.abs (score student - score a) in
  let scoreDiffB := Z.abs (score student - score b) in
  if bool_decide (scoreDiffA ≠ scoreDiffB) then scoreDiffA - scoreDiffB
  else 0.

(** One iteration of the [for] loop of [getMatchRecommendations]. *)
Definition recommendStep (roster : list Student) (matches : list Matches.Match)
    (margin : Z) (st : RoundState) (student : Student) : RoundState :=
  if bool_decide (id student ∈ usedStudents st) then st
  else
    let eligibleOpponents :=
      Opponents.getEligibleOpponents roster matches (id student) margin in
    let availableOpponents :=
      filter (λ opponent, id opponent ∉ usedStudents st) eligibleOpponents in
    if bool_decide (0 < length availableOpponents)%nat then
      let sortedOpponents :=
        array_sort (compareByScoreDiff student) availableOpponents in
      match sortedOpponents !! 0%nat with
      | Some bestOpponent =>
          if Matches.canPlay matches (id student) (id bestOpponent)
          then recordPairing st student bestOpponent
          else st
      | None => st
      end
    else st.

(** [students] is the argument of the call, [roster] what [getStudents()]
    resolves to inside [getEligibleOpponents]. *)
Definition getMatchRecommendations (random : nat → nat)
    (roster : list Student) (matches : list Matches.Match)
    (students : list Student) (margin : Z) : list MatchRecommendation :=
  if bool_decide (length students < 2)%nat then []
  else
    let shuffledStudents := shuffleArray random students in
    recommendations
      (foldl (recommendStep roster matches margin) emptyRound shuffledStudents).

(** The callback of the [reduce] inside [getOptimizedMatchRecommendations]. *)
Definition closerOpponent (student best current : Student) : Student :=
  let bestDiff := Z.abs (score student - score best) in
  let currentDiff := Z.abs (score student - score current) in
  if bool_decide (currentDiff < bestDiff) then current else best.

(** One iteration of the [for] loop of [getOptimizedMatchRecommendations]. *)
Definition optimizedStep (roster : list Student) (matches : list Matches.Match)
    (margin : Z) (st : RoundState) (student : Student) : RoundState :=
  if bool_decide (id student ∈ usedStudents st) then st
  else
    let eligibleOpponents :=
      Opponents.getEligibleOpponents roster matches (id student) margin in
    let availableOpponents :=
      filter (λ opponent, id opponent ∉ usedStudents st) eligibleOpponents in
    if bool_decide (0 < length availableOpponents)%nat then
      match array_reduce (closerOpponent student) availableOpponents with
      | Some bestOpponent =>
          if Matches.canPlay matches (id student) (id bestOpponent)
          then recordPairing st student bestOpponent
          else st
      | None => st
      end
    else st.

Definition getOptimizedMatchRecommendations
    (roster : list Student) (matches : list Matches.Match)
    (students : list Student) (margin : Z) : list MatchRecommendation :=
  if bool_decide (length students < 2)%nat then []
  else
    let sortedStudents := array_sort (λ a b, score b - score a) students in
    recommendations
      (foldl (optimizedStep roster matches margin) emptyRound sortedStudents).

(** The [for] loop of [hasPossibleMatchRecommendations] returns at the
    first student with an eligible opponent. *)
Fixpoint anyHasOpponents (roster : list Student) (matches : list Matches.Match)
    (margin : Z) (students : list Student) : bool :=
  match students with
  | [] => false
  | student :: rest =>
      let eligibleOpponents :=
        Opponents.getEligibleOpponents roster matches (id student) margin in
      if bool_decide (0 < length eligibleOpponents)%nat then true
      else anyHasOpponents roster matches margin rest
  end.

Definition hasPossibleMatchRecommendations
    (roster : list Student) (matches : list Matches.Match)
    (students : list Student) (margin : Z) : bool :=
  if bool_decide (length students < 2)%nat then false
  else anyHasOpponents roster matches margin students.

(** The object returned by [getMatchRecommendationStats]. *)
Record RecommendationStats := mkStats {
  totalStudents : Z;
  studentsWithOpponents : Z;
  possibleMatches : Z;
  averageScoreDifference : Q
}.

(** The four counters of [getMatchRecommendationStats]. *)
Record StatsCounters := mkCounters {
  cntStudentsWithOpponents : Z;
  totalPossibleMatches : Z;
  totalScoreDifference : Z;
  matchCount : Z
}.

(** The callback of [eligibleOpponents.forEach], on the two counters it
    updates. *)
Definition addOpponent (student : Student) (acc : Z * Z) (opponent : Student)
    : Z * Z :=
  (fst acc + Z.abs (score student - score opponent), snd acc + 1).

(** One iteration of the [for] loop of [getMatchRecommendationStats]. *)
Definition statsStep (roster : list Student) (matches : list Matches.Match)
    (margin : Z) (c : StatsCounters) (student : Student) : StatsCounters :=
  let eligibleOpponents :=
    Opponents.getEligibleOpponents roster matches (id student) margin in
  if bool_decide (0 < length eligibleOpponents)%nat then
    let inner :=
      foldl (addOpponent student) (totalScoreDifference c, matchCount c)
            eligibleOpponents in
    {| cntStudentsWithOpponents := cntStudentsWithOpponents c + 1;
       totalPossibleMatches :=
         totalPossibleMatches c + Z.of_nat (length eligibleOpponents);
       totalScoreDifference := fst inner;
       matchCount := snd inner |}
  else c.

Definition getMatchRecommendationStats
    (roster : list Student) (matches : list Matches.Match)
    (students : list Student) (margin : Z) : RecommendationStats :=
  if bool_decide (length students < 2)%nat then
    {| totalStudents := Z.of_nat (length students);
       studentsWithOpponents := 0;
       possibleMatches := 0;
       averageScoreDifference := 0%Q |}
  else
    let c := foldl (statsStep roster matches margin)
                   (mkCounters 0 0 0 0) students in
    {| totalStudents := Z.of_nat (length students);
       studentsWithOpponents := cntStudentsWithOpponents c;
       possibleMatches := totalPossibleMatches c;
       averageScoreDifference :=
         if bool_decide (0 < matchCount c)
         then (inject_Z (totalScoreDifference c) / inject_Z (matchCount c))%Q
         else 0%Q |}.

(** *** [getMatchRecommendationsWithDetails] *)
Module WithDetails.

(** A recommendation spread into an object with two more fields. *)
Record RecommendationDetails := mkDetails {
  recommendation : MatchRecommendation;
  matchCount : Z;
  lastPlayed : option Z
}.

(** The callback of [recommendations.map]. *)
Definition describe (matches : list Matches.Match)
    (r : MatchRecommendation) : RecommendationDetails :=
  let headToHead :=
    Opponents.getHeadToHead matches (id (playerA r)) (id (playerB r)) in
  let lastMatch :=
    if bool_decide (0 < length headToHead)%nat
    then head (array_sort (λ a b, Matches.date b - Matches.date a) headToHead)
    else None in
  {| recommendation := r;
     matchCount := Z.of_nat (length headToHead);
     lastPlayed := Matches.date <$> lastMatch |}.

Definition getMatchRecommendationsWithDetails (random : nat → nat)
    (roster : list Student) (matches : list Matches.Match)
    (students : list Student) (margin : Z) : list RecommendationDetails :=
  describe matches
    <$> getMatchRecommendations random roster matches students margin.

End WithDetails.

End MatchRecommendations.

(** ** [leaderboard.ts] *)

Module Leaderboard.
Import Students.

(** [interface StudentStats]. *)
Record StudentStats := mkStudentStats {
  wins : Z;
  losses : Z;
  totalMatches : Z;
  winRate : Q
}.

(** [interface LeaderboardEntry] is [{ student, ...stats }]: the student
    followed by the four fields of its [StudentStats]. *)
Record LeaderboardEntry := mkEntry {
  student : Student;
  stats : StudentStats
}.

(** The callback of [matches.forEach] in [calculateStudentStats], on the
    pair [(wins, losses)]. *)
Definition countMatch (studentId : string) (acc : Z * Z) (m : Matches.Match)
    : Z * Z :=
  if bool_decide (Matches.playerA m = studentId ∨ Matches.playerB m = studentId)
  then
    if bool_decide (Matches.winner m = studentId)
    then (fst acc + 1, snd acc)
    else (fst acc, snd acc + 1)
  else acc.

Definition calculateStudentStats (studentId : string)
    (matches : list Matches.Match) : StudentStats :=
  let counters := foldl (countMatch studentId) (0, 0) matches in
  let wins := fst counters in
  let losses := snd counters in
  let totalMatches := wins + losses in
  let winRate :=
    if bool_decide (0 < totalMatches)
    then ((inject_Z wins / inject_Z totalMatches) * 100)%Q
    else 0%Q in
  {| wins := wins; losses := losses;
     totalMatches := totalMatches; winRate := winRate |}.

(** The comparator of the sort of [getLeaderboard]. [localeCompare a b]
    stands for [a.localeCompare(b)], which the host's collation decides. *)
Definition compareEntries (localeCompare : string → string → Z)
    (a b : LeaderboardEntry) : Q :=
  if bool_decide (score (student b) ≠ score (student a))
  then inject_Z (score (student b) - score (student a))
  else if negb (Qeq_bool (winRate (stats b)) (winRate (stats a)))
  then (winRate (stats b) - winRate (stats a))%Q
  else if bool_decide (totalMatches (stats b) ≠ totalMatches (stats a))
  then inject_Z (totalMatches (stats b) - totalMatches (stats a))
  else inject_Z (localeCompare (name (student a)) (name (student b))).

Definition getLeaderboard (localeCompare : string → string → Z)
    (students : list Student) (matches : list Matches.Match)
    : list LeaderboardEntry :=
  array_sortQ (compareEntries localeCompare)
    ((λ student,
        {| student := student;
           stats := calculateStudentStats (id student) matches |})
     <$> students).

Definition getTopStudents (localeCompare : string → string → Z)
    (students : list Student) (matches : list Matches.Match) (limit : Z)
    : list LeaderboardEntry :=
  array_slice0 limit (getLeaderboard localeCompare students matches).

(** [leaderboard.findIndex(...)], then [index >= 0 ? index + 1 : -1]. *)
Definition getStudentRank (localeCompare : string → string → Z)
    (studentId : string) (students : list Student)
    (matches : list Matches.Match) : Z :=
  let leaderboard := getLeaderboard localeCompare students matches in
  match list_find (λ entry, id (student entry) = studentId) leaderboard with
  | Some (index, _) => Z.of_nat index + 1
  | None => -1
  end.

End Leaderboard.

(** ** The specification's vocabulary

    Definitions that follow the words of the specification, to be compared
    with the functions above. *)

Module Spec.
Import Students.

(** The ids a round mentions, pairing after pairing. *)
Definition pairedIds (round : list MatchRecommendations.MatchRecommendation)
    : list string :=
  r ← round;
  [ id (MatchRecommendations.playerA r); id (MatchRecommendations.playerB r) ].

(** "the number of prior head-to-head MatchRecords between the two". *)
Definition headToHeadCount (matches : list Matches.Match) (a b : string) : Z :=
  Z.of_nat (length (Matches.getMatchesBetweenStudents matches a b)).

(** "ascending name (lexicographic)": the order of [String.leb]. *)
Definition nameLe (a b : string) : Prop := String.leb a b = true.

(** The ordering of section 4.2: "(1) ascending score difference,
    (2) ascending count of prior head-to-head MatchRecords between the two,
    (3) ascending name (lexicographic) as final tie-break". *)
Definition opponentOrder (matches : list Matches.Match) (competitor : Student)
    (x y : Student) : Prop :=
  let diff s := Z.abs (score competitor - score s) in
  let count s := headToHeadCount matches (id competitor) (id s) in
  diff x < diff y ∨
  (diff x = diff y ∧
   (count x < count y ∨ (count x = count y ∧ nameLe (name x) (name y)))).

(** The two keys [getEligibleOpponentsWithDetails] does sort by. *)
Definition detailsOrder (x y : Opponents.OpponentDetails) : Prop :=
  Opponents.scoreDifference x < Opponents.scoreDifference y ∨
  (Opponents.scoreDifference x = Opponents.scoreDifference y ∧
   Opponents.matchCount x ≤ Opponents.matchCount y).

(** "all (competitor, eligible opponent) pairs", one per side. *)
Definition directedPairs (pool : list Student) (matches : list Matches.Match)
    (margin : Z) : list (Student * Student) :=
  s ← pool;
  (λ o, (s, o)) <$> Opponents.getEligibleOpponents pool matches (id s) margin.

(** "the sum of eligible-opponent-set sizes" over all competitors. *)
Definition eligibleSetSizes (pool : list Student) (matches : list Matches.Match)
    (margin : Z) : Z :=
  foldr Z.add 0
    ((λ s, Z.of_nat
             (length (Opponents.getEligibleOpponents pool matches (id s) margin)))
     <$> pool).

(** "the mean score difference across all (competitor, eligible opponent)
    pairs", 0 when there are none. *)
Definition meanScoreDifference (pairs : list (Student * Student)) : Q :=
  match pairs with
  | [] => 0%Q
  | _ =>
      (inject_Z (foldr Z.add 0%Z ((λ p, Z.abs (score p.1 - score p.2)%Z) <$> pairs))
       / inject_Z (Z.of_nat (length pairs)))%Q
  end.

(** "winRate = wins / totalMatches * 100 (0 if totalMatches == 0)". *)
Definition winRateOf (wins totalMatches : Z) : Q :=
  if bool_decide (totalMatches = 0) then 0%Q
  else ((inject_Z wins / inject_Z totalMatches) * 100)%Q.

(** The ordering of section 4.4: "(1) descending competitor.score,
    (2) descending winRate, (3) descending totalMatches, (4) ascending
    name", the names compared by the comparison the code uses. *)
Definition rankOrder (localeCompare : string → string → Z)
    (a b : Leaderboard.LeaderboardEntry) : Prop :=
  let sa := Leaderboard.stats a in
  let sb := Leaderboard.stats b in
  score (Leaderboard.student b) < score (Leaderboard.student a) ∨
  (score (Leaderboard.student b) = score (Leaderboard.student a) ∧
   ((Leaderboard.winRate sb < Leaderboard.winRate sa)%Q ∨
    ((Leaderboard.winRate sb == Leaderboard.winRate sa)%Q ∧
     (Leaderboard.totalMatches sb < Leaderboard.totalMatches sa ∨
      (Leaderboard.totalMatches sb = Leaderboard.totalMatches sa ∧
       localeCompare (name (Leaderboard.student a))
                     (name (Leaderboard.student b)) ≤ 0))))).

(** "scoreDifference = |playerA.score - playerB.score| and must be <= the
    configured margin", and [canPlay] holds of the two students. *)
Definition validPairing (matches : list Matches.Match) (margin : Z)
    (r : MatchRecommendations.MatchRecommendation) : Prop :=
  MatchRecommendations.scoreDifference r =
    Z.abs (Students.score (MatchRecommendations.playerA r) -
           Students.score (MatchRecommendations.playerB r)) ∧
  MatchRecommendations.scoreDifference r ≤ margin ∧
  Matches.canPlay matches
    (Students.id (MatchRecommendations.playerA r))
    (Students.id (MatchRecommendations.playerB r)) = true.

(** "fail fast with a distinct error kind". *)
Definition failsFast {A} (o : Outcome A) : Prop :=
  ∃ errorKind, o = Rejected errorKind.

End Spec.

(** ** The pairing loops, step by step *)

(** What one iteration of either pairing loop may do: leave the state as
    it is, or record the visited student, still free, with an eligible
    opponent, still free, whom [canPlay] accepts. *)
Inductive stepOutcome (roster : list Students.Student)
    (matches : list Matches.Match) (margin : Z)
    (st : MatchRecommendations.RoundState) (student : Students.Student)
    : MatchRecommendations.RoundState → Prop :=
  | step_skip : stepOutcome roster matches margin st student st
  | step_pair (bestOpponent : Students.Student) :
      Students.id student ∉ MatchRecommendations.usedStudents st →
      bestOpponent ∈
        Opponents.getEligibleOpponents roster matches (Students.id student)
          margin →
      Students.id bestOpponent ∉ MatchRecommendations.usedStudents st →
      Matches.canPlay matches (Students.id student) (Students.id bestOpponent)
        = true →
      stepOutcome roster matches margin st student
        (MatchRecommendations.recordPairing st student bestOpponent).

(** The invariant of the pairing loops: the ids paired so far are pairwise
    different, they are all marked as used, and every pairing recorded so
    far satisfies [P]. *)
Definition roundInv (P : MatchRecommendations.MatchRecommendation → Prop)
    (st : MatchRecommendations.RoundState) : Prop :=
  NoDup (Spec.pairedIds (MatchRecommendations.recommendations st)) ∧
  (∀ x, x ∈ Spec.pairedIds (MatchRecommendations.recommendations st) →
        x ∈ MatchRecommendations.usedStudents st) ∧
  Forall P (MatchRecommendations.recommendations st).

(** One iteration of either pairing loop, in full: the visited student is
    already paired; or is free and so are none of its eligible opponents;
    or is free and gets paired with a free eligible opponent whose score is
    at least as close as that of any other free eligible opponent. *)
Inductive stepResult (roster : list Students.Student)
    (matches : list Matches.Match) (margin : Z)
    (st : MatchRecommendations.RoundState) (student : Students.Student)
    : MatchRecommendations.RoundState → Prop :=
  | result_used :
      Students.id student ∈ MatchRecommendations.usedStudents st →
      stepResult roster matches margin st student st
  | result_alone :
      Students.id student ∉ MatchRecommendations.usedStudents st →
      (∀ o, o ∈ Opponents.getEligibleOpponents roster matches
                  (Students.id student) margin →
            Students.id o ∈ MatchRecommendations.usedStudents st) →
      stepResult roster matches margin st student st
  | result_pair (bestOpponent : Students.Student) :
      Students.id student ∉ MatchRecommendations.usedStudents st →
      bestOpponent ∈
        Opponents.getEligibleOpponents roster matches (Students.id student)
          margin →
      Students.id bestOpponent ∉ MatchRecommendations.usedStudents st →
      (∀ o, o ∈ Opponents.getEligibleOpponents roster matches
                  (Students.id student) margin →
            Students.id o ∉ MatchRecommendations.usedStudents st →
            Z.abs (Students.score student - Students.score bestOpponent) ≤
            Z.abs (Students.score student - Students.score o)) →
      stepResult roster matches margin st student
        (MatchRecommendations.recordPairing st student bestOpponent).

(** The invariant behind the further properties of the pairing loops, for
    the students [visited] so far: the used ids are the paired ids; a
    visited student left free has no free eligible opponent; every pairing
    joins a visited student with one of its eligible opponents, the closest
    in score among those that were free when it was recorded. *)
Definition roundProgress (roster : list Students.Student)
    (matches : list Matches.Match) (margin : Z)
    (visited : list Students.Student)
    (st : MatchRecommendations.RoundState) : Prop :=
  (∀ x, x ∈ MatchRecommendations.usedStudents st ↔
        x ∈ Spec.pairedIds (MatchRecommendations.recommendations st)) ∧
  (∀ s o, s ∈ visited →
     Students.id s ∉ MatchRecommendations.usedStudents st →
     o ∈ Opponents.getEligibleOpponents roster matches (Students.id s) margin →
     Students.id o ∈ MatchRecommendations.usedStudents st) ∧
  (∀ pre r post,
     MatchRecommendations.recommendations st = pre ++ r :: post →
     MatchRecommendations.playerA r ∈ visited ∧
     MatchRecommendations.playerB r ∈
       Opponents.getEligibleOpponents roster matches
         (Students.id (MatchRecommendations.playerA r)) margin ∧
     MatchRecommendations.scoreDifference r =
       Z.abs (Students.score (MatchRecommendations.playerA r) -
              Students.score (MatchRecommendations.playerB r)) ∧
     ∀ o, o ∈ Opponents.getEligibleOpponents roster matches
                (Students.id (MatchRecommendations.playerA r)) margin →
          Students.id o ∉ Spec.pairedIds pre →
          MatchRecommendations.scoreDifference r ≤
          Z.abs (Students.score (MatchRecommendations.playerA r) -
                 Students.score o)).

(** ** Vocabulary for the properties of the remaining functions *)

Module Notions.
Import Students.

(** The sum of the scores of a roster. *)
Definition totalScore (students : list Student) : Z :=
  foldr Z.add 0 (score <$> students).

(** The ids of a roster with their scores, in order. *)
Definition idScores (students : list Student) : list (string * Z) :=
  (λ s, (id s, score s)) <$> students.

(** A record as [recordMatch] writes it: the winner is listed first and
    the loser second. *)
Definition winnerFirst (m : Matches.Match) : Prop :=
  Matches.playerA m = Matches.winner m ∧ Matches.playerB m = Matches.loser m.

(** A record between two different students, won by one of them. *)
Definition soundRecord (m : Matches.Match) : Prop :=
  Matches.playerA m ≠ Matches.playerB m ∧
  (Matches.winner m = Matches.playerA m ∨ Matches.winner m = Matches.playerB m).

(** No two students have more than [n] records between them. *)
Definition cappedAt (n : nat) (matches : list Matches.Match) : Prop :=
  ∀ a b, (length (Matches.getMatchesBetweenStudents matches a b) ≤ n)%nat.

(** A sequence of calls to [recordMatch], each with its clock reading, its
    winner and its loser. *)
Definition recordAll (trim : string → string) (t : Matches.Tournament)
    (calls : list (Z * string * string)) : Matches.Tournament :=
  foldl (λ t call, (Matches.recordMatch trim call.1.1 t call.1.2 call.2).2)
        t calls.

(** Every score is an integer of magnitude at most [bound]; with
    [bound = MAX_SAFE_INTEGER] the scores are safe integers
    ([Number.isSafeInteger]). *)
Definition scoresWithin (bound : Z) (students : list Student) : Prop :=
  Forall (λ s, Z.abs (score s) ≤ bound) students.

(** The students of [students] whom the round leaves without a pairing. *)
Definition unpaired (round : list MatchRecommendations.MatchRecommendation)
    (s : Student) : Prop :=
  id s ∉ Spec.pairedIds round.

End Notions.

(** ** Sample data *)

Module Sample.
Import Students.

Definition alice : Student := mkStudent "1" "Alice" 0.
Definition bob : Student := mkStudent "2" "Bob" 1.
Definition carol : Student := mkStudent "3" "Carol" 5.

(** The pool of the scenario of section 8. *)
Definition pool : list Student := [alice; bob; carol].

(** [w] beats [l]; the record is written the way [recordMatch] writes it. *)
Definition won (w l : string) (t : Z) : Matches.Match :=
  Matches.mkMatch "m" w l w l t.

(** Alice beat Bob twice and lost once. *)
Definition twoOne : list Matches.Match :=
  [won "1" "2" 10; won "2" "1" 20; won "1" "2" 30].

(** Alice beat Bob three times. *)
Definition threeNil : list Matches.Match :=
  [won "1" "2" 10; won "1" "2" 20; won "1" "2" 30].

(** Three candidates at the same score and with no history; the names are
    not in alphabetical order. *)
Definition tom : Student := mkStudent "t" "Tom" 0.
Definition zed : Student := mkStudent "z" "Zed" 0.
Definition amy : Student := mkStudent "a" "Amy" 0.
Definition tiedPool : list Student := [tom; zed; amy].

(** A pool that lists the id ["1"] twice, with two different scores. *)
Definition annFirst : Student := mkStudent "1" "Ann" 0.
Definition annSecond : Student := mkStudent "1" "Ann" 5.
Definition ben : Student := mkStudent "2" "Ben" 0.
Definition duplicated : list Student := [annFirst; annSecond; ben].

(** A record whose winner is neither of its two players. *)
Definition malformed : Matches.Match :=
  Matches.mkMatch "m" "1" "2" "3" "1" 10.

(** Names compared character by character: one possible collation to run
    [getLeaderboard] with. *)
Definition compareNames (a b : string) : Z :=
  match String_as_OT.cmp a b with
  | Lt => -1
  | Eq => 0
  | Gt => 1
  end.

End Sample.

(** * Properties *)

(** ** The stable sort *)

Section ArraySortFacts.
Context {A : Type} (before : A → A → bool).

Lemma sort_insert_perm (x : A) (l : list A) :
  sort_insert before x l ≡ₚ x :: l.
Proof.
  induction l as [|y l IH]; simpl; [done|].
  destruct (before x y); [done|].
  rewrite IH. apply Permutation_swap.
Qed.

Lemma array_sort_by_perm (l : list A) : array_sort_by before l ≡ₚ l.
Proof.
  induction l as [|x l IH]; simpl; [done|].
  unfold array_sort_by in IH. by rewrite sort_insert_perm, IH.
Qed.

Lemma array_sort_by_elem_of (x : A) (l : list A) :
  x ∈ array_sort_by before l ↔ x ∈ l.
Proof. by rewrite array_sort_by_perm. Qed.

Lemma array_sort_by_length (l : list A) :
  length (array_sort_by before l) = length l.
Proof. by rewrite array_sort_by_perm. Qed.

(** The comparator is consistent: of two elements one may stay in front of
    the other, and staying in front is transitive. *)
Hypothesis before_total : ∀ x y, before x y = false → before y x = true.
Hypothesis before_trans :
  ∀ x y z, before x y = true → before y z = true → before x z = true.

Lemma sort_insert_sorted (x : A) (l : list A) :
  StronglySorted (λ a b, before a b = true) l →
  StronglySorted (λ a b, before a b = true) (sort_insert before x l).
Proof.
  induction l as [|y l IH]; simpl; intros Hs.
  - repeat constructor.
  - apply StronglySorted_inv in Hs as [Hl Hy].
    destruct (before x y) eqn:Hxy.
    + constructor; [by constructor|].
      constructor; [done|].
      eapply Forall_impl; [exact Hy|]. intros z Hz. by eapply before_trans.
    + constructor; [by apply IH|].
      rewrite sort_insert_perm. constructor; [by apply before_total|done].
Qed.

Lemma array_sort_by_sorted (l : list A) :
  StronglySorted (λ a b, before a b = true) (array_sort_by before l).
Proof.
  induction l as [|x l IH]; simpl; [constructor|].
  by apply sort_insert_sorted.
Qed.

End ArraySortFacts.

(** Elements the comparator does not separate keep their input order:
    restricted to any class [P] of mutually tied elements, the output is
    the input. *)
Lemma array_sort_by_stable {A} (before : A → A → bool)
    (P : A → Prop) `{!∀ x, Decision (P x)} (l : list A) :
  (∀ x y, P x → P y → before x y = true) →
  filter P (array_sort_by before l) = filter P l.
Proof.
  intros Htie. induction l as [|x l IH]; simpl; [done|].
  rewrite filter_cons, <- IH. unfold array_sort_by at 1. simpl.
  fold (array_sort_by before l).
  generalize (array_sort_by before l). clear IH. intros s.
  induction s as [|y s IHs]; simpl.
  - by rewrite filter_cons, filter_nil.
  - destruct (before x y) eqn:Hxy.
    + by rewrite filter_cons.
    + rewrite !filter_cons, IHs.
      destruct (decide (P x)) as [Hx|Hx]; [|done].
      destruct (decide (P y)) as [Hy|Hy]; [|done].
      rewrite Htie in Hxy by done. discriminate.
Qed.

Lemma StronglySorted_weaken {A} (R S : A → A → Prop) (l : list A) :
  (∀ x y, x ∈ l → y ∈ l → R x y → S x y) →
  StronglySorted R l → StronglySorted S l.
Proof.
  induction l as [|x l IH]; intros HRS Hs; [constructor|].
  apply StronglySorted_inv in Hs as [Hl Hx]. constructor.
  - apply IH; [|exact Hl]. intros a b Ha Hb. apply HRS; by right.
  - rewrite Forall_forall in Hx |- *. intros y Hy.
    apply HRS; [by left|by right|by apply Hx].
Qed.

(** ** The eligibility rule ([canPlay]) *)

Lemma isBetween_sym (a b : string) (m : Matches.Match) :
  Matches.isBetween a b m ↔ Matches.isBetween b a m.
Proof. unfold Matches.isBetween. tauto. Qed.

Lemma getMatchesBetweenStudents_sym (matches : list Matches.Match) (a b : string) :
  Matches.getMatchesBetweenStudents matches a b =
  Matches.getMatchesBetweenStudents matches b a.
Proof. apply list_filter_iff, isBetween_sym. Qed.

(** Two distinct students cannot both have won the same record. *)
Lemma winsOf_distinct (a b : string) (l : list Matches.Match) :
  a ≠ b → (Matches.winsOf a l + Matches.winsOf b l ≤ length l)%nat.
Proof.
  intros Hab. unfold Matches.winsOf.
  induction l as [|m l IH]; simpl; [lia|].
  rewrite !filter_cons.
  destruct (decide (Matches.winner m = a)) as [Ha|Ha];
    destruct (decide (Matches.winner m = b)) as [Hb|Hb]; simpl; try lia.
  congruence.
Qed.

(** [canPlay] written as one case analysis on the number of records. *)
Lemma canPlay_cases (matches : list Matches.Match) (a b : string) :
  let between := Matches.getMatchesBetweenStudents matches a b in
  Matches.canPlay matches a b =
    if bool_decide (length between < 3)%nat then true
    else if bool_decide (length between = 3%nat)
    then bool_decide (Matches.winsOf a between = 2%nat ∨
                      Matches.winsOf b between = 2%nat)
    else false.
Proof.
  unfold Matches.canPlay, Matches.getMatchesBetweenStudents. simpl.
  repeat case_bool_decide; done.
Qed.

(** C1. For two distinct students [a] and [b] and any history, with [n]
    the number of records between them: [canPlay] returns true when
    [n < 3]; when [n = 3] it returns true exactly when one of the two won
    exactly 2 of the 3 records (and then only one of them did); when
    [n > 3] it returns false. *)
Theorem canPlay_rule (matches : list Matches.Match) (a b : string) :
  a ≠ b →
  let between := Matches.getMatchesBetweenStudents matches a b in
  ((length between < 3)%nat → Matches.canPlay matches a b = true) ∧
  (length between = 3%nat →
     (Matches.canPlay matches a b = true ↔
        Matches.winsOf a between = 2%nat ∨ Matches.winsOf b between = 2%nat) ∧
     ¬ (Matches.winsOf a between = 2%nat ∧ Matches.winsOf b between = 2%nat)) ∧
  ((3 < length between)%nat → Matches.canPlay matches a b = false).
Proof.
  intros Hab between. rewrite canPlay_cases. fold between.
  split; [|split].
  - intros Hn. by rewrite bool_decide_eq_true_2.
  - intros Hn.
    rewrite bool_decide_eq_false_2 by lia.
    rewrite (bool_decide_eq_true_2 _ Hn), bool_decide_eq_true.
    split; [done|].
    pose proof (winsOf_distinct a b between Hab). lia.
  - intros Hn. by rewrite !bool_decide_eq_false_2 by lia.
Qed.

Lemma canPlay_rule_witness :
  Matches.canPlay Sample.twoOne "1" "2" = true ∧
  Matches.canPlay Sample.threeNil "1" "2" = false.
Proof.
  assert (Hne : "1" ≠ "2") by discriminate.
  destruct (canPlay_rule Sample.twoOne "1" "2" Hne) as (_ & H21 & _).
  destruct (canPlay_rule Sample.threeNil "1" "2" Hne) as (_ & H30 & _).
  split.
  - apply H21; [reflexivity|]. left. reflexivity.
  - destruct (H30 eq_refl) as [Hiff _].
    destruct (Matches.canPlay Sample.threeNil "1" "2"); [|reflexivity].
    destruct (proj1 Hiff eq_refl) as [H|H]; vm_compute in H; discriminate.
Defined.

Lemma canPlay_swap (matches : list Matches.Match) (a b : string) :
  Matches.canPlay matches a b = Matches.canPlay matches b a.
Proof.
  rewrite !canPlay_cases. simpl.
  rewrite (getMatchesBetweenStudents_sym matches b a).
  repeat case_bool_decide; tauto.
Qed.

(** C6. [canPlay] is symmetric in its two student arguments: for every
    history and every two ids, [canPlay(a, b)] equals [canPlay(b, a)]. *)
Theorem canPlay_symmetric (matches : list Matches.Match) (a b : string) :
  Matches.canPlay matches a b = Matches.canPlay matches b a.
Proof. apply canPlay_swap. Qed.

(** ** The opponent finder *)

Lemma getHeadToHead_eq (matches : list Matches.Match) (a b : string) :
  Opponents.getHeadToHead matches a b =
  Matches.getMatchesBetweenStudents matches a b.
Proof.
  unfold Opponents.getHeadToHead.
  rewrite <- (list_fmap_id (Matches.getMatchesBetweenStudents matches a b)) at 2.
  apply list_fmap_ext. intros _ [] _. reflexivity.
Qed.

(** The "special case" of [getEligibleOpponents] never admits anybody:
    with three records, the rematch test is the test [canPlay] just made. *)
Lemma canHaveBestOfThreeRematch_canPlay (matches : list Matches.Match)
    (a b : string) :
  length (Opponents.getHeadToHead matches a b) = 3%nat →
  Opponents.canHaveBestOfThreeRematch matches a b = Matches.canPlay matches a b.
Proof.
  unfold Opponents.canHaveBestOfThreeRematch. simpl.
  rewrite canPlay_cases. simpl. rewrite getHeadToHead_eq. intros Hn.
  rewrite Hn. simpl. repeat case_bool_decide; done || lia.
Qed.

(** The callback of the filter, as a conjunction of its three tests. *)
Lemma isEligibleOpponent_true (matches : list Matches.Match) (studentId : string)
    (targetStudent : Students.Student) (margin : Z) (opponent : Students.Student) :
  Opponents.isEligibleOpponent matches studentId targetStudent margin opponent
    = true ↔
  Students.id opponent ≠ studentId ∧
  Z.abs (Students.score targetStudent - Students.score opponent) ≤ margin ∧
  Matches.canPlay matches studentId (Students.id opponent) = true.
Proof.
  unfold Opponents.isEligibleOpponent, Opponents.isScoreWithinMargin.
  case_bool_decide as Hid; [naive_solver|].
  case_bool_decide as Hm; simpl; [|naive_solver].
  destruct (Matches.canPlay matches studentId (Students.id opponent)) eqn:Hcp;
    simpl; [naive_solver|].
  case_bool_decide as Hn; [|naive_solver].
  rewrite canHaveBestOfThreeRematch_canPlay, Hcp by done. naive_solver.
Qed.

(** The self test comes first: its answer is the same for every history,
    target and margin. *)
Lemma isEligibleOpponent_self (matches : list Matches.Match)
    (targetStudent : Students.Student) (margin : Z) (opponent : Students.Student) :
  Opponents.isEligibleOpponent matches (Students.id opponent) targetStudent
    margin opponent = false.
Proof. unfold Opponents.isEligibleOpponent. by rewrite bool_decide_eq_true_2. Qed.

Lemma elem_of_getEligibleOpponents (roster : list Students.Student)
    (matches : list Matches.Match) (studentId : string) (margin : Z)
    (opponent : Students.Student) :
  opponent ∈ Opponents.getEligibleOpponents roster matches studentId margin ↔
  ∃ targetStudent,
    array_find (λ s, bool_decide (Students.id s = studentId)) roster
      = Some targetStudent ∧
    opponent ∈ roster ∧
    Students.id opponent ≠ studentId ∧
    Z.abs (Students.score targetStudent - Students.score opponent) ≤ margin ∧
    Matches.canPlay matches studentId (Students.id opponent) = true.
Proof.
  unfold Opponents.getEligibleOpponents.
  destruct (array_find _ roster) as [t|].
  - rewrite list_elem_of_filter, Is_true_true, isEligibleOpponent_true.
    naive_solver.
  - split; [by intros ?%elem_of_nil|naive_solver].
Qed.

Lemma array_find_id_None (roster : list Students.Student) (studentId : string) :
  studentId ∉ Students.id <$> roster →
  array_find (λ s, bool_decide (Students.id s = studentId)) roster = None.
Proof.
  intros Hnot. unfold array_find.
  destruct (find _ roster) as [s|] eqn:Hf; [|done].
  apply find_some in Hf as [Hin Hid]. apply bool_decide_eq_true in Hid.
  exfalso. apply Hnot. subst. apply list_elem_of_fmap_2.
  by apply list_elem_of_In.
Qed.

(** With unique ids, looking a member of the roster up by id finds it. *)
Lemma array_find_id_member (roster : list Students.Student) (s : Students.Student) :
  NoDup (Students.id <$> roster) → s ∈ roster →
  array_find (λ x, bool_decide (Students.id x = Students.id s)) roster = Some s.
Proof.
  unfold array_find. induction roster as [|x roster IH]; simpl.
  - by intros _ ?%elem_of_nil.
  - rewrite NoDup_cons. intros [Hx Hnd] Hin.
    case_bool_decide as Hid.
    + apply elem_of_cons in Hin as [->|Hin]; [done|].
      exfalso. apply Hx. rewrite Hid. by apply list_elem_of_fmap_2.
    + apply elem_of_cons in Hin as [->|Hin]; [done|]. by apply IH.
Qed.

Lemma getEligibleOpponents_negative_margin (roster : list Students.Student)
    (matches : list Matches.Match) (studentId : string) (margin : Z) :
  margin < 0 →
  Opponents.getEligibleOpponents roster matches studentId margin = [].
Proof.
  intros Hneg. apply elem_of_nil_inv. intros o.
  rewrite elem_of_getEligibleOpponents. intros (t & _ & _ & _ & Habs & _). lia.
Qed.

Lemma getBestOpponentRecommendation_head (roster : list Students.Student)
    (matches : list Matches.Match) (studentId : string) (margin : Z) :
  Opponents.getBestOpponentRecommendation roster matches studentId margin =
  Opponents.student <$>
    head (Opponents.getEligibleOpponentsWithDetails roster matches studentId margin).
Proof.
  unfold Opponents.getBestOpponentRecommendation. simpl.
  by destruct (Opponents.getEligibleOpponentsWithDetails _ _ _ _).
Qed.

(** C4. The claim fails on an empty history: [canPlay] has no self check. *)
Lemma canPlay_self_counterexample : ¬ (Matches.canPlay [] "1" "1" = false).
Proof. vm_compute. discriminate. Qed.

(** C4, as amended. [canPlay] treats [a] against [a] like any other pair:
    it counts the records whose two players are both [a] and applies the
    same rule. Self-pairing is excluded by the opponent finder instead:
    the first test of its filter rejects the candidate whose id is the
    student's own, whatever the history, so a student is never among their
    own eligible opponents. *)
Theorem self_pairing_excluded_by_finder (matches : list Matches.Match) (a : string) :
  (let self :=
     filter (λ m, Matches.playerA m = a ∧ Matches.playerB m = a) matches in
   Matches.canPlay matches a a = true ↔
     (length self < 3)%nat ∨
     (length self = 3%nat ∧ Matches.winsOf a self = 2%nat)) ∧
  (∀ history targetStudent margin opponent,
     Students.id opponent = a →
     Opponents.isEligibleOpponent history a targetStudent margin opponent
       = false) ∧
  (∀ roster margin opponent,
     opponent ∈ Opponents.getEligibleOpponents roster matches a margin →
     Students.id opponent ≠ a).
Proof.
  split; [|split].
  - simpl. rewrite canPlay_cases. simpl.
    unfold Matches.getMatchesBetweenStudents.
    rewrite (list_filter_iff (Matches.isBetween a a)
               (λ m, Matches.playerA m = a ∧ Matches.playerB m = a))
      by (intros m; unfold Matches.isBetween; tauto).
    repeat case_bool_decide; split; intros; try done; lia.
  - intros history t margin o <-. apply isEligibleOpponent_self.
  - intros roster margin o Hin.
    apply elem_of_getEligibleOpponents in Hin. naive_solver.
Qed.

Lemma self_pairing_excluded_by_finder_witness :
  Matches.canPlay [] "1" "1" = true ∧
  Opponents.isEligibleOpponent Sample.twoOne "1" Sample.alice 1 Sample.alice
    = false.
Proof.
  destruct (self_pairing_excluded_by_finder [] "1") as (Hself & _ & _).
  destruct (self_pairing_excluded_by_finder Sample.twoOne "1") as (_ & Hfirst & _).
  split.
  - apply Hself. left. simpl. lia.
  - apply Hfirst. reflexivity.
Defined.

(** C9. The claim fails: an unknown id, and a negative margin, both give a
    fulfilled promise holding an empty array. *)
Lemma eligibleOpponents_failure_counterexample :
  ¬ Spec.failsFast
      (Opponents.getEligibleOpponents_async Sample.pool [] "ghost" 1) ∧
  ¬ Spec.failsFast
      (Opponents.getEligibleOpponents_async Sample.pool [] "1" (-1)).
Proof. split; intros [e He]; vm_compute in He; discriminate. Qed.

(** C9, as amended. The single-student queries never fail: for an id that
    is not in the roster, and for a negative margin, [getEligibleOpponents]
    is fulfilled with the empty array and [getBestOpponentRecommendation]
    with [null]. *)
Theorem eligibleOpponents_never_fails (roster : list Students.Student)
    (matches : list Matches.Match) (studentId : string) (margin : Z) :
  ¬ Spec.failsFast
      (Opponents.getEligibleOpponents_async roster matches studentId margin) ∧
  ¬ Spec.failsFast
      (Opponents.getBestOpponentRecommendation_async roster matches studentId
         margin) ∧
  (studentId ∉ Students.id <$> roster ∨ margin < 0 →
   Opponents.getEligibleOpponents_async roster matches studentId margin
     = Fulfilled [] ∧
   Opponents.getBestOpponentRecommendation_async roster matches studentId margin
     = Fulfilled None).
Proof.
  split; [by intros [e He]|]. split; [by intros [e He]|].
  unfold Opponents.getEligibleOpponents_async,
    Opponents.getBestOpponentRecommendation_async.
  rewrite getBestOpponentRecommendation_head.
  unfold Opponents.getEligibleOpponentsWithDetails.
  intros [Hid|Hneg].
  - unfold Opponents.getEligibleOpponents.
    by rewrite array_find_id_None.
  - rewrite getEligibleOpponents_negative_margin by done.
    by destruct (array_find _ roster).
Qed.

Lemma eligibleOpponents_never_fails_witness :
  Opponents.getEligibleOpponents_async Sample.pool [] "1" (-1) = Fulfilled [] ∧
  Opponents.getBestOpponentRecommendation_async Sample.pool [] "ghost" 1
    = Fulfilled None.
Proof.
  destruct (eligibleOpponents_never_fails Sample.pool [] "1" (-1))
    as (_ & _ & Hneg).
  destruct (eligibleOpponents_never_fails Sample.pool [] "ghost" 1)
    as (_ & _ & Hghost).
  split.
  - apply Hneg. right. lia.
  - apply Hghost. left. vm_compute. intros H.
    repeat (apply elem_of_cons in H as [H|H]; [discriminate|]).
    by apply elem_of_nil in H.
Defined.

(** [array_sort] and [array_sortQ] put the elements in the order of a
    consistent comparator. *)
Lemma array_sort_sorted {A} (cmp : A → A → Z) (l : list A) :
  (∀ x y, 0 < cmp x y → cmp y x ≤ 0) →
  (∀ x y z, cmp x y ≤ 0 → cmp y z ≤ 0 → cmp x z ≤ 0) →
  StronglySorted (λ a b, cmp a b ≤ 0) (array_sort cmp l).
Proof.
  intros Htot Htrans.
  apply (StronglySorted_weaken (λ a b, bool_decide (cmp a b ≤ 0) = true)).
  { intros x y _ _. by rewrite bool_decide_eq_true. }
  apply array_sort_by_sorted.
  - intros x y. rewrite bool_decide_eq_false, bool_decide_eq_true.
    intros H. apply Htot. lia.
  - intros x y z. rewrite !bool_decide_eq_true. apply Htrans.
Qed.

Lemma array_sortQ_sorted {A} (cmp : A → A → Q) (l : list A) :
  (∀ x y, (0 < cmp x y)%Q → (cmp y x <= 0)%Q) →
  (∀ x y z, (cmp x y <= 0)%Q → (cmp y z <= 0)%Q → (cmp x z <= 0)%Q) →
  StronglySorted (λ a b, (cmp a b <= 0)%Q) (array_sortQ cmp l).
Proof.
  intros Htot Htrans.
  apply (StronglySorted_weaken (λ a b, Qle_bool (cmp a b) 0%Q = true)).
  { intros x y _ _. by rewrite Qle_bool_iff. }
  apply array_sort_by_sorted.
  - intros x y Hf. apply Qle_bool_iff, Htot.
    apply Qnot_le_lt. rewrite <- Qle_bool_iff. by rewrite Hf.
  - intros x y z. rewrite !Qle_bool_iff. apply Htrans.
Qed.

Lemma compareDetails_le (x y : Opponents.OpponentDetails) :
  Opponents.compareDetails x y ≤ 0 ↔ Spec.detailsOrder x y.
Proof.
  unfold Opponents.compareDetails, Spec.detailsOrder.
  case_bool_decide; lia.
Qed.

(** C5. The claim fails for the sequence [getEligibleOpponents] returns,
    which is the roster filtered and never sorted: for Carol (score 5) at
    margin 5 it lists Alice, 5 points away, in front of Bob, 4 points
    away. *)
Lemma eligibleOpponents_order_counterexample :
  Opponents.getEligibleOpponents Sample.pool [] "3" 5
    = [Sample.alice; Sample.bob] ∧
  ¬ Sorted (Spec.opponentOrder [] Sample.carol)
      (Opponents.getEligibleOpponents Sample.pool [] "3" 5).
Proof.
  split; [reflexivity|].
  change (Opponents.getEligibleOpponents Sample.pool [] "3" 5)
    with [Sample.alice; Sample.bob].
  intros Hs. apply Sorted_inv in Hs as [_ Hhd].
  apply HdRel_inv in Hhd. unfold Spec.opponentOrder in Hhd.
  vm_compute in Hhd.
  destruct Hhd as [H|[H _]]; discriminate.
Qed.

(** C5, as amended. The ranked sequence ([getEligibleOpponentsWithDetails],
    which [getBestOpponentRecommendation] and [getOpponentRecommendations]
    read) holds the eligible opponents sorted by ascending score
    difference, then ascending count of head-to-head records. The plain
    sequence ([getEligibleOpponents]) is in roster order. The best opponent
    is the first element of the ranked sequence, absent when the sequence
    is empty. *)
Theorem rankedOpponents_order (roster : list Students.Student)
    (matches : list Matches.Match) (studentId : string) (margin : Z) :
  let plain := Opponents.getEligibleOpponents roster matches studentId margin in
  let ranked :=
    Opponents.getEligibleOpponentsWithDetails roster matches studentId margin in
  StronglySorted Spec.detailsOrder ranked ∧
  Opponents.student <$> ranked ≡ₚ plain ∧
  (∀ d, d ∈ ranked →
     ∃ targetStudent,
       array_find (λ s, bool_decide (Students.id s = studentId)) roster
         = Some targetStudent ∧
       Opponents.scoreDifference d =
         Z.abs (Students.score targetStudent -
                Students.score (Opponents.student d)) ∧
       Opponents.matchCount d =
         Spec.headToHeadCount matches studentId
           (Students.id (Opponents.student d))) ∧
  plain `sublist_of` roster ∧
  Opponents.getBestOpponentRecommendation roster matches studentId margin =
    Opponents.student <$> head ranked.
Proof.
  intros plain ranked.
  assert (Hsorted : ∀ l, StronglySorted Spec.detailsOrder
                           (array_sort Opponents.compareDetails l)).
  { intros l.
    apply (StronglySorted_weaken (λ a b, Opponents.compareDetails a b ≤ 0)).
    { intros x y _ _. by rewrite compareDetails_le. }
    apply array_sort_sorted.
    - intros x y. unfold Opponents.compareDetails.
      repeat case_bool_decide; lia.
    - intros x y z. rewrite !compareDetails_le. unfold Spec.detailsOrder. lia. }
  subst ranked plain. unfold Opponents.getEligibleOpponentsWithDetails.
  split; [|split; [|split; [|split]]].
  - destruct (array_find _ roster); [apply Hsorted|constructor].
  - destruct (array_find _ roster) eqn:Hf.
    + unfold array_sort. rewrite array_sort_by_perm.
      generalize (Opponents.getEligibleOpponents roster matches studentId margin).
      intros l. induction l as [|o l IH]; [done|].
      rewrite !fmap_cons. by apply Permutation_skip.
    + unfold Opponents.getEligibleOpponents. by rewrite Hf.
  - intros d. destruct (array_find _ roster) as [t|] eqn:Hf;
      [|by intros ?%elem_of_nil].
    unfold array_sort. rewrite array_sort_by_elem_of, list_elem_of_fmap.
    intros (o & -> & _). exists t. split; [done|]. simpl.
    unfold Spec.headToHeadCount. by rewrite getHeadToHead_eq.
  - unfold Opponents.getEligibleOpponents.
    destruct (array_find _ roster); [apply sublist_filter|apply sublist_nil_l].
  - rewrite getBestOpponentRecommendation_head.
    by unfold Opponents.getEligibleOpponentsWithDetails.
Qed.

Lemma rankedOpponents_order_witness :
  ∃ targetStudent,
    array_find (λ s, bool_decide (Students.id s = "3")) Sample.pool
      = Some targetStudent ∧
    Opponents.scoreDifference
      (Opponents.detailsOf [] "3" Sample.carol Sample.bob) =
      Z.abs (Students.score targetStudent - Students.score Sample.bob) ∧
    Opponents.matchCount
      (Opponents.detailsOf [] "3" Sample.carol Sample.bob) =
      Spec.headToHeadCount [] "3" "2".
Proof.
  destruct (rankedOpponents_order Sample.pool [] "3" 5)
    as (_ & _ & Hfields & _).
  apply (Hfields (Opponents.detailsOf [] "3" Sample.carol Sample.bob)).
  vm_compute. by left.
Defined.

(** The comparator of [getEligibleOpponentsWithDetails] stops at the second
    key, where the READMEs of the library name alphabetical order as the
    last tie-break: for Tom, with Zed and Amy at his score and no history,
    the code ranks Zed, listed first in the roster, in front of Amy. *)
Example ranked_tie_break_missing :
  Opponents.student <$>
    Opponents.getEligibleOpponentsWithDetails Sample.tiedPool [] "t" 1
  = [Sample.zed; Sample.amy].
Proof. reflexivity. Qed.

(** ** The leaderboard *)

Lemma length_filter_split {A} (P : A → Prop) `{!∀ x, Decision (P x)} (l : list A) :
  (length (filter P l) + length (filter (λ x, ¬ P x) l) = length l)%nat.
Proof.
  induction l as [|x l IH]; [done|].
  rewrite !filter_cons. destruct (decide (P x)) as [Hx|Hx].
  - rewrite decide_False by tauto. simpl. lia.
  - rewrite decide_True by tauto. simpl. lia.
Qed.

(** The loop of [calculateStudentStats], from any value of the counters. *)
Lemma foldl_countMatch (studentId : string) (matches : list Matches.Match)
    (w l : Z) :
  let played := Matches.getMatchHistory matches studentId in
  foldl (Leaderboard.countMatch studentId) (w, l) matches =
  (w + Z.of_nat (length (filter (λ m, Matches.winner m = studentId) played)),
   l + Z.of_nat (length (filter (λ m, Matches.winner m ≠ studentId) played))).
Proof.
  simpl. revert w l. unfold Matches.getMatchHistory.
  induction matches as [|m matches IH]; intros w l; simpl.
  - f_equal; lia.
  - unfold Leaderboard.countMatch at 2. rewrite (filter_cons _ m).
    destruct (decide (Matches.playerA m = studentId ∨
                      Matches.playerB m = studentId)) as [Hin|Hin].
    + rewrite bool_decide_eq_true_2 by done. rewrite !(filter_cons _ m).
      destruct (decide (Matches.winner m = studentId)) as [Hw|Hw].
      * rewrite bool_decide_eq_true_2, decide_False by tauto.
        simpl fst; simpl snd. rewrite IH. simpl length. f_equal; lia.
      * rewrite bool_decide_eq_false_2, decide_True by tauto.
        simpl fst; simpl snd. rewrite IH. simpl length. f_equal; lia.
    + rewrite bool_decide_eq_false_2 by done. apply IH.
Qed.

(** The three counters of [calculateStudentStats], as counts of records. *)
Lemma calculateStudentStats_fields (studentId : string)
    (matches : list Matches.Match) :
  let s := Leaderboard.calculateStudentStats studentId matches in
  let played := Matches.getMatchHistory matches studentId in
  Leaderboard.wins s =
    Z.of_nat (length (filter (λ m, Matches.winner m = studentId) played)) ∧
  Leaderboard.losses s =
    Z.of_nat (length (filter (λ m, Matches.winner m ≠ studentId) played)) ∧
  Leaderboard.totalMatches s = Z.of_nat (length played).
Proof.
  intros s played. subst s. unfold Leaderboard.calculateStudentStats.
  rewrite foldl_countMatch. fold played. simpl.
  pose proof (length_filter_split (λ m, Matches.winner m = studentId) played).
  repeat split; lia.
Qed.

(** C10. For every student id and history, the statistics satisfy
    [wins + losses = totalMatches], which is the number of records that
    list the id as [playerA] or [playerB]; [wins] counts those of them the
    id won and [losses] all the others, so a record whose winner is
    neither of its players is among the losses of both players. *)
Theorem calculateStudentStats_counts (studentId : string)
    (matches : list Matches.Match) :
  let s := Leaderboard.calculateStudentStats studentId matches in
  let played := Matches.getMatchHistory matches studentId in
  Leaderboard.wins s + Leaderboard.losses s = Leaderboard.totalMatches s ∧
  Leaderboard.totalMatches s = Z.of_nat (length played) ∧
  Leaderboard.wins s =
    Z.of_nat (length (filter (λ m, Matches.winner m = studentId) played)) ∧
  Leaderboard.losses s =
    Z.of_nat (length (filter (λ m, Matches.winner m ≠ studentId) played)) ∧
  (∀ m, m ∈ matches →
     Matches.winner m ≠ Matches.playerA m →
     Matches.winner m ≠ Matches.playerB m →
     m ∈ filter (λ r, Matches.winner r ≠ Matches.playerA m)
           (Matches.getMatchHistory matches (Matches.playerA m)) ∧
     m ∈ filter (λ r, Matches.winner r ≠ Matches.playerB m)
           (Matches.getMatchHistory matches (Matches.playerB m))).
Proof.
  intros s played.
  destruct (calculateStudentStats_fields studentId matches) as (Hw & Hl & Ht).
  fold s played in Hw, Hl, Ht.
  pose proof (length_filter_split (λ m, Matches.winner m = studentId) played).
  repeat split; try lia.
  - apply list_elem_of_filter. split; [done|].
    apply list_elem_of_filter. split; [by left|done].
  - apply list_elem_of_filter. split; [done|].
    apply list_elem_of_filter. split; [by right|done].
Qed.

Lemma calculateStudentStats_counts_witness :
  Leaderboard.losses (Leaderboard.calculateStudentStats "1" [Sample.malformed])
    = 1 ∧
  Leaderboard.losses (Leaderboard.calculateStudentStats "2" [Sample.malformed])
    = 1 ∧
  Sample.malformed ∈
    filter (λ r, Matches.winner r ≠ "2")
      (Matches.getMatchHistory [Sample.malformed] "2").
Proof.
  destruct (calculateStudentStats_counts "1" [Sample.malformed])
    as (_ & _ & _ & Hl1 & Hboth).
  destruct (calculateStudentStats_counts "2" [Sample.malformed])
    as (_ & _ & _ & Hl2 & _).
  split; [rewrite Hl1; reflexivity|].
  split; [rewrite Hl2; reflexivity|].
  apply (Hboth Sample.malformed); [by left|discriminate|discriminate].
Defined.

Lemma calculateStudentStats_total_nonneg (studentId : string)
    (matches : list Matches.Match) :
  0 ≤ Leaderboard.totalMatches
        (Leaderboard.calculateStudentStats studentId matches).
Proof.
  destruct (calculateStudentStats_fields studentId matches) as (_ & _ & ->).
  lia.
Qed.

Lemma calculateStudentStats_winRate (studentId : string)
    (matches : list Matches.Match) :
  let s := Leaderboard.calculateStudentStats studentId matches in
  Leaderboard.winRate s =
  Spec.winRateOf (Leaderboard.wins s) (Leaderboard.totalMatches s).
Proof.
  intros s.
  pose proof (calculateStudentStats_total_nonneg studentId matches) as Hnn.
  fold s in Hnn. subst s. unfold Leaderboard.calculateStudentStats in *.
  simpl in *. unfold Spec.winRateOf.
  repeat case_bool_decide; done || lia.
Qed.

Lemma inject_Z_nonpos (z : Z) : (inject_Z z <= 0)%Q ↔ z ≤ 0.
Proof. by rewrite (Zle_Qle z 0). Qed.

Lemma compareEntries_le (localeCompare : string → string → Z)
    (a b : Leaderboard.LeaderboardEntry) :
  (Leaderboard.compareEntries localeCompare a b <= 0)%Q ↔
  Spec.rankOrder localeCompare a b.
Proof.
  unfold Leaderboard.compareEntries, Spec.rankOrder. simpl.
  case_bool_decide as Hs.
  { rewrite inject_Z_nonpos. lia. }
  destruct (Qeq_bool _ _) eqn:Hw; simpl.
  - apply Qeq_bool_iff in Hw.
    case_bool_decide as Ht; rewrite inject_Z_nonpos.
    + split; [intros; right; split; [done|right; split; [done|left; lia]]|].
      intros [?|[_ [?|[_ [?|[? _]]]]]]; try lia; lra.
    + split; [intros; right; split; [done|right; split; [done|right; split; [done|done]]]|].
      intros [?|[_ [?|[_ [?|[_ ?]]]]]]; try lia; lra.
  - apply Qeq_bool_neq in Hw.
    split; [intros; right; split; [done|left; lra]|].
    intros [?|[_ [?|[? _]]]]; lia || lra.
Qed.

Section LeaderboardOrder.

(** [String.prototype.localeCompare] is left to the host; the sort relies
    on it being a consistent comparison. *)
Variable localeCompare : string → string → Z.
Hypothesis localeCompare_total :
  ∀ a b, 0 < localeCompare a b → localeCompare b a ≤ 0.
Hypothesis localeCompare_trans :
  ∀ a b c, localeCompare a b ≤ 0 → localeCompare b c ≤ 0 → localeCompare a c ≤ 0.

Lemma rankOrder_total (a b : Leaderboard.LeaderboardEntry) :
  ¬ Spec.rankOrder localeCompare a b → Spec.rankOrder localeCompare b a.
Proof.
  unfold Spec.rankOrder. simpl. intros Hnot.
  set (la := localeCompare (Students.name (Leaderboard.student a))
                           (Students.name (Leaderboard.student b))) in *.
  pose proof (localeCompare_total (Students.name (Leaderboard.student a))
                                  (Students.name (Leaderboard.student b))) as Htot.
  fold la in Htot.
  destruct (Z.lt_trichotomy (Students.score (Leaderboard.student a))
                            (Students.score (Leaderboard.student b)))
    as [Hs|[Hs|Hs]]; [by left| |exfalso; apply Hnot; left; lia].
  right. split; [done|].
  destruct (Q_dec (Leaderboard.winRate (Leaderboard.stats a))
                  (Leaderboard.winRate (Leaderboard.stats b)))
    as [[Hw|Hw]|Hw]; [by left|exfalso; apply Hnot; right; split; [done|by left]|].
  right. split; [done|].
  destruct (Z.lt_trichotomy (Leaderboard.totalMatches (Leaderboard.stats a))
                            (Leaderboard.totalMatches (Leaderboard.stats b)))
    as [Ht|[Ht|Ht]]; [by left| |].
  - right. split; [done|].
    destruct (Z_le_gt_dec la 0) as [Hle|Hgt]; [|apply Htot; lia].
    exfalso. apply Hnot. right. split; [done|]. right. split; [lra|].
    right. split; [done|done].
  - exfalso. apply Hnot. right. split; [done|]. right. split; [lra|].
    left. lia.
Qed.

Lemma rankOrder_trans (a b c : Leaderboard.LeaderboardEntry) :
  Spec.rankOrder localeCompare a b → Spec.rankOrder localeCompare b c →
  Spec.rankOrder localeCompare a c.
Proof.
  unfold Spec.rankOrder. simpl.
  intros [?|[? [?|[? [?|[? Hab]]]]]] [?|[? [?|[? [?|[? Hbc]]]]]];
    first
      [ left; lia
      | right; split; [lia|];
        first
          [ left; lra
          | right; split; [lra|];
            first [ left; lia | right; split; [lia|] ] ] ].
  by eapply localeCompare_trans.
Qed.

(** C8. For every pool and history, each entry of the leaderboard carries
    the statistics of its student, with [winRate = wins / totalMatches *
    100] ([0] when [totalMatches] is [0]), and the entries (one per student
    of the pool) come sorted by descending score, then descending win rate,
    then descending number of matches, then ascending name, the names
    being compared by a consistent [localeCompare]. *)
Theorem getLeaderboard_sorted (students : list Students.Student)
    (matches : list Matches.Match) :
  let board := Leaderboard.getLeaderboard localeCompare students matches in
  StronglySorted (Spec.rankOrder localeCompare) board ∧
  Leaderboard.student <$> board ≡ₚ students ∧
  (∀ e, e ∈ board →
     Leaderboard.stats e =
       Leaderboard.calculateStudentStats
         (Students.id (Leaderboard.student e)) matches ∧
     Leaderboard.winRate (Leaderboard.stats e) =
       Spec.winRateOf (Leaderboard.wins (Leaderboard.stats e))
                      (Leaderboard.totalMatches (Leaderboard.stats e))).
Proof.
  intros board. subst board. unfold Leaderboard.getLeaderboard.
  split; [|split].
  - apply (StronglySorted_weaken
             (λ a b, (Leaderboard.compareEntries localeCompare a b <= 0)%Q)).
    { intros x y _ _. by rewrite compareEntries_le. }
    apply array_sortQ_sorted.
    + intros x y Hpos. apply compareEntries_le, rankOrder_total.
      rewrite <- compareEntries_le. lra.
    + intros x y z. rewrite !compareEntries_le. apply rankOrder_trans.
  - unfold array_sortQ. rewrite array_sort_by_perm.
    induction students as [|s l IH]; [done|].
    rewrite !fmap_cons. by apply Permutation_skip.
  - intros e. unfold array_sortQ.
    rewrite array_sort_by_elem_of, list_elem_of_fmap.
    intros (s & -> & _). simpl. split; [done|].
    apply calculateStudentStats_winRate.
Qed.

End LeaderboardOrder.

Lemma compareNames_total (a b : string) :
  0 < Sample.compareNames a b → Sample.compareNames b a ≤ 0.
Proof.
  unfold Sample.compareNames. rewrite (String_as_OT.cmp_antisym b a).
  destruct (String_as_OT.cmp a b); simpl; lia.
Qed.

Lemma compareNames_trans (a b c : string) :
  Sample.compareNames a b ≤ 0 → Sample.compareNames b c ≤ 0 →
  Sample.compareNames a c ≤ 0.
Proof.
  unfold Sample.compareNames.
  destruct (String_as_OT.cmp a b) eqn:Hab; [| |lia].
  - apply String_as_OT.cmp_eq in Hab as ->. done.
  - destruct (String_as_OT.cmp b c) eqn:Hbc; [| |lia].
    + apply String_as_OT.cmp_eq in Hbc as <-. by rewrite Hab.
    + intros _ _. apply String_as_OT.cmp_lt in Hab, Hbc.
      pose proof (String_as_OT.lt_trans _ _ _ Hab Hbc) as Hac.
      apply String_as_OT.cmp_lt in Hac. by rewrite Hac.
Qed.

Lemma getLeaderboard_sorted_witness :
  Leaderboard.student <$>
    Leaderboard.getLeaderboard Sample.compareNames Sample.pool Sample.twoOne
  ≡ₚ Sample.pool.
Proof.
  apply (getLeaderboard_sorted Sample.compareNames
           compareNames_total compareNames_trans Sample.pool Sample.twoOne).
Defined.

(** ** Pairing statistics ([getMatchRecommendationStats]) *)

(** The inner [forEach], from any value of its two counters. *)
Lemma foldl_addOpponent (student : Students.Student)
    (opponents : list Students.Student) (acc : Z * Z) :
  foldl (MatchRecommendations.addOpponent student) acc opponents =
  (acc.1 + foldr Z.add 0
             ((λ p : Students.Student * Students.Student,
                 Z.abs (Students.score p.1 - Students.score p.2))
              <$> ((λ o, (student, o)) <$> opponents)),
   acc.2 + Z.of_nat (length opponents)).
Proof.
  revert acc. induction opponents as [|o l IH]; intros [t c].
  - simpl. f_equal; lia.
  - rewrite !fmap_cons. cbn [foldl foldr length]. rewrite IH.
    unfold MatchRecommendations.addOpponent. cbn [fst snd].
    rewrite Nat2Z.inj_succ. f_equal; lia.
Qed.

Lemma foldr_add_app (l k : list Z) :
  foldr Z.add 0 (l ++ k) = foldr Z.add 0 l + foldr Z.add 0 k.
Proof. induction l as [|x l IH]; simpl; lia. Qed.

(** The outer loop, from any value of the four counters; [roster] stays
    fixed while the loop walks [students]. *)
Lemma foldl_statsStep (roster : list Students.Student)
    (matches : list Matches.Match) (margin : Z)
    (students : list Students.Student) (c : MatchRecommendations.StatsCounters) :
  let eligible s :=
    Opponents.getEligibleOpponents roster matches (Students.id s) margin in
  let pairs := students ≫= λ s, (λ o, (s, o)) <$> eligible s in
  let c' := foldl (MatchRecommendations.statsStep roster matches margin)
                  c students in
  MatchRecommendations.totalPossibleMatches c' =
    MatchRecommendations.totalPossibleMatches c +
    foldr Z.add 0 ((λ s, Z.of_nat (length (eligible s))) <$> students) ∧
  MatchRecommendations.totalScoreDifference c' =
    MatchRecommendations.totalScoreDifference c +
    foldr Z.add 0
      ((λ p : Students.Student * Students.Student,
          Z.abs (Students.score p.1 - Students.score p.2)) <$> pairs) ∧
  MatchRecommendations.matchCount c' =
    MatchRecommendations.matchCount c + Z.of_nat (length pairs).
Proof.
  simpl. revert c. induction students as [|s l IH]; intros c.
  - simpl. lia.
  - rewrite bind_cons, fmap_app, foldr_add_app, length_app, fmap_cons.
    cbn [foldl foldr].
    specialize (IH (MatchRecommendations.statsStep roster matches margin c s)).
    destruct IH as (IH1 & IH2 & IH3). rewrite IH1, IH2, IH3. clear.
    unfold MatchRecommendations.statsStep. simpl.
    destruct (Opponents.getEligibleOpponents roster matches (Students.id s) margin)
      as [|o os] eqn:He.
    + simpl. lia.
    + rewrite bool_decide_eq_true_2 by (simpl; lia).
      cbn [MatchRecommendations.totalPossibleMatches
           MatchRecommendations.totalScoreDifference
           MatchRecommendations.matchCount].
      rewrite foldl_addOpponent. cbn [fst snd]. rewrite length_fmap. lia.
Qed.

Lemma foldr_add_sizes {A B} (f : A → list B) (l : list A) :
  foldr Z.add 0 ((λ x, Z.of_nat (length (f x))) <$> l) =
  Z.of_nat (length (l ≫= f)).
Proof.
  induction l as [|x l IH]; [done|].
  rewrite bind_cons, length_app, fmap_cons. simpl. lia.
Qed.

(** With unique ids, the directed pairs are the ordered pairs of pool
    members with different ids, scores within the margin, and allowed to
    play. *)
Lemma elem_of_directedPairs (pool : list Students.Student)
    (matches : list Matches.Match) (margin : Z) (s o : Students.Student) :
  NoDup (Students.id <$> pool) →
  (s, o) ∈ Spec.directedPairs pool matches margin ↔
  s ∈ pool ∧ o ∈ pool ∧ Students.id o ≠ Students.id s ∧
  Z.abs (Students.score s - Students.score o) ≤ margin ∧
  Matches.canPlay matches (Students.id s) (Students.id o) = true.
Proof.
  intros Hnd. unfold Spec.directedPairs. rewrite list_elem_of_bind. split.
  - intros (s' & Hin & Hs'). apply list_elem_of_fmap in Hin as (o' & [= <- <-] & Ho).
    apply elem_of_getEligibleOpponents in Ho as (t & Hf & Ho).
    rewrite array_find_id_member in Hf by done. injection Hf as <-. done.
  - intros (Hs & Ho). exists s. split; [|done].
    apply list_elem_of_fmap. exists o. split; [done|].
    apply elem_of_getEligibleOpponents. exists s.
    by rewrite array_find_id_member.
Qed.

(** A pool of fewer than two students has no directed pair. *)
Lemma directedPairs_small (pool : list Students.Student)
    (matches : list Matches.Match) (margin : Z) :
  (length pool < 2)%nat → Spec.directedPairs pool matches margin = [].
Proof.
  intros Hlen. destruct pool as [|s [|s' pool]]; [done| |simpl in Hlen; lia].
  unfold Spec.directedPairs. rewrite bind_singleton.
  replace (Opponents.getEligibleOpponents [s] matches (Students.id s) margin)
    with (@nil Students.Student); [done|].
  symmetry. apply elem_of_nil_inv. intros o.
  rewrite elem_of_getEligibleOpponents.
  intros (t & _ & ->%list_elem_of_singleton & Hid & _). done.
Qed.

(** C7. On the empty pool every statistic is zero. On any pool,
    [possibleMatches] is the sum over the students of the sizes of their
    eligible-opponent sets, that is, the number of directed (student,
    eligible opponent) pairs, and [averageScoreDifference] is the mean
    score difference over those pairs, [0] when there are none. When ids
    are unique, the pair (o, s) is counted whenever (s, o) is: each
    unordered pair counts twice. *)
Theorem getMatchRecommendationStats_spec (pool : list Students.Student)
    (matches : list Matches.Match) (margin : Z) :
  let st :=
    MatchRecommendations.getMatchRecommendationStats pool matches pool margin in
  let pairs := Spec.directedPairs pool matches margin in
  (pool = [] →
   st = {| MatchRecommendations.totalStudents := 0;
           MatchRecommendations.studentsWithOpponents := 0;
           MatchRecommendations.possibleMatches := 0;
           MatchRecommendations.averageScoreDifference := 0%Q |}) ∧
  MatchRecommendations.totalStudents st = Z.of_nat (length pool) ∧
  MatchRecommendations.possibleMatches st =
    Spec.eligibleSetSizes pool matches margin ∧
  MatchRecommendations.possibleMatches st = Z.of_nat (length pairs) ∧
  MatchRecommendations.averageScoreDifference st =
    Spec.meanScoreDifference pairs ∧
  (NoDup (Students.id <$> pool) → ∀ s o, (s, o) ∈ pairs ↔ (o, s) ∈ pairs).
Proof.
  intros st pairs.
  assert (Hsizes : Spec.eligibleSetSizes pool matches margin
                   = Z.of_nat (length pairs)).
  { unfold Spec.eligibleSetSizes, pairs, Spec.directedPairs.
    rewrite <- (foldr_add_sizes
                  (λ s, (λ o, (s, o)) <$>
                     Opponents.getEligibleOpponents pool matches
                       (Students.id s) margin)).
    f_equal. apply list_fmap_ext. intros _ s _. by rewrite length_fmap. }
  rewrite Hsizes.
  split; [by intros ->|].
  assert (Hrest :
    MatchRecommendations.totalStudents st = Z.of_nat (length pool) ∧
    MatchRecommendations.possibleMatches st = Z.of_nat (length pairs) ∧
    MatchRecommendations.averageScoreDifference st =
      Spec.meanScoreDifference pairs).
  { subst st. unfold MatchRecommendations.getMatchRecommendationStats.
    case_bool_decide as Hlen.
    - unfold pairs. rewrite directedPairs_small by done. done.
    - destruct (foldl_statsStep pool matches margin pool
                  (MatchRecommendations.mkCounters 0 0 0 0))
        as (H1 & H2 & H3).
      simpl in H1, H2, H3. fold (Spec.directedPairs pool matches margin) in H2, H3.
      fold pairs in H2, H3.
      cbn [MatchRecommendations.totalStudents
           MatchRecommendations.possibleMatches
           MatchRecommendations.averageScoreDifference].
      rewrite H1, H2, H3. fold (Spec.eligibleSetSizes pool matches margin).
      rewrite Hsizes. split; [done|]. split; [lia|].
      unfold Spec.meanScoreDifference.
      destruct pairs as [|p ps]; [done|].
      rewrite bool_decide_eq_true_2 by (simpl; lia).
      by rewrite !Z.add_0_l. }
  destruct Hrest as (Ht & Hp & Ha).
  repeat split; try done.
  - unfold pairs. rewrite !elem_of_directedPairs by done.
    rewrite (canPlay_swap matches (Students.id o)).
    intros (? & ? & ? & Habs & ?).
    split_and!; done || congruence || lia.
  - unfold pairs. rewrite !elem_of_directedPairs by done.
    rewrite (canPlay_swap matches (Students.id s)).
    intros (? & ? & ? & Habs & ?).
    split_and!; done || congruence || lia.
Qed.

Lemma getMatchRecommendationStats_spec_witness :
  NoDup (Students.id <$> Sample.pool) ∧
  ((Sample.alice, Sample.bob) ∈ Spec.directedPairs Sample.pool [] 1 ↔
   (Sample.bob, Sample.alice) ∈ Spec.directedPairs Sample.pool [] 1) ∧
  MatchRecommendations.possibleMatches
    (MatchRecommendations.getMatchRecommendationStats
       Sample.pool [] Sample.pool 1) = 2.
Proof.
  assert (Hnd : NoDup (Students.id <$> Sample.pool)).
  { apply (bool_decide_unpack _). vm_compute. exact I. }
  destruct (getMatchRecommendationStats_spec Sample.pool [] 1)
    as (_ & _ & _ & Hcount & _ & Hsym).
  split; [exact Hnd|]. split; [apply (Hsym Hnd)|].
  rewrite Hcount. reflexivity.
Defined.

(** ** The pairing generator *)

Lemma array_swap_perm {A} (arr : list A) (i j : nat) :
  array_swap arr i j ≡ₚ arr.
Proof.
  unfold array_swap.
  destruct (arr !! j) as [aj|] eqn:Hj; [|done].
  destruct (arr !! i) as [ai|] eqn:Hi; [|done].
  by apply Permutation_insert_swap.
Qed.

Lemma shuffleLoop_perm {A} (random : nat → nat) (i : nat) (shuffled : list A) :
  MatchRecommendations.shuffleLoop random i shuffled ≡ₚ shuffled.
Proof.
  revert shuffled. induction i as [|i IH]; intros shuffled; [done|].
  cbn [MatchRecommendations.shuffleLoop]. by rewrite IH, array_swap_perm.
Qed.

(** Every shuffle is a permutation of the array. *)
Lemma shuffleArray_perm {A} (random : nat → nat) (array : list A) :
  MatchRecommendations.shuffleArray random array ≡ₚ array.
Proof. apply shuffleLoop_perm. Qed.

Lemma recommendStep_outcome (roster : list Students.Student)
    (matches : list Matches.Match) (margin : Z)
    (st : MatchRecommendations.RoundState) (student : Students.Student) :
  stepOutcome roster matches margin st student
    (MatchRecommendations.recommendStep roster matches margin st student).
Proof.
  unfold MatchRecommendations.recommendStep.
  case_bool_decide as Hused; [constructor|]. simpl.
  case_bool_decide as Hlen; [|constructor].
  destruct (array_sort _ _ !! 0%nat) as [best|] eqn:Hbest; [|constructor].
  destruct (Matches.canPlay _ _ _) eqn:Hcp; [|constructor].
  apply list_elem_of_lookup_2 in Hbest.
  unfold array_sort in Hbest.
  apply array_sort_by_elem_of, list_elem_of_filter in Hbest as [Hfree Hel].
  by constructor.
Qed.

Lemma foldl_closerOpponent_elem_of (student best : Students.Student)
    (l : list Students.Student) :
  foldl (MatchRecommendations.closerOpponent student) best l ∈ best :: l.
Proof.
  revert best. induction l as [|x l IH]; intros best; simpl; [by left|].
  specialize (IH (MatchRecommendations.closerOpponent student best x)).
  assert (Hc : MatchRecommendations.closerOpponent student best x = best ∨
               MatchRecommendations.closerOpponent student best x = x).
  { unfold MatchRecommendations.closerOpponent. simpl. case_bool_decide; auto. }
  destruct Hc as [Hc|Hc]; rewrite Hc in IH at 2; set_solver.
Qed.

Lemma optimizedStep_outcome (roster : list Students.Student)
    (matches : list Matches.Match) (margin : Z)
    (st : MatchRecommendations.RoundState) (student : Students.Student) :
  stepOutcome roster matches margin st student
    (MatchRecommendations.optimizedStep roster matches margin st student).
Proof.
  unfold MatchRecommendations.optimizedStep.
  case_bool_decide as Hused; [constructor|]. simpl.
  case_bool_decide as Hlen; [|constructor].
  destruct (array_reduce _ _) as [best|] eqn:Hbest; [|constructor].
  destruct (Matches.canPlay _ _ _) eqn:Hcp; [|constructor].
  assert (Hin : best ∈ filter
            (λ o, Students.id o ∉ MatchRecommendations.usedStudents st)
            (Opponents.getEligibleOpponents roster matches
               (Students.id student) margin)).
  { destruct (filter _ _) as [|x l]; [done|].
    injection Hbest as <-. apply foldl_closerOpponent_elem_of. }
  apply list_elem_of_filter in Hin as [Hfree Hel]. by constructor.
Qed.

Lemma pairedIds_snoc (round : list MatchRecommendations.MatchRecommendation)
    (r : MatchRecommendations.MatchRecommendation) :
  Spec.pairedIds (round ++ [r]) =
  Spec.pairedIds round ++
  [Students.id (MatchRecommendations.playerA r);
   Students.id (MatchRecommendations.playerB r)].
Proof.
  unfold Spec.pairedIds. by rewrite bind_app, bind_singleton.
Qed.

Lemma roundInv_empty (P : MatchRecommendations.MatchRecommendation → Prop) :
  roundInv P MatchRecommendations.emptyRound.
Proof. split; [constructor|]. split; [by intros x ?%elem_of_nil|constructor]. Qed.

Section PairingLoop.
Variables (roster : list Students.Student) (matches : list Matches.Match).
Variable margin : Z.
Variable P : MatchRecommendations.MatchRecommendation → Prop.
Variable step :
  MatchRecommendations.RoundState → Students.Student →
  MatchRecommendations.RoundState.
Hypothesis step_outcome :
  ∀ st student, stepOutcome roster matches margin st student (step st student).

Lemma step_preserves (st : MatchRecommendations.RoundState)
    (student : Students.Student) :
  (∀ best,
     best ∈ Opponents.getEligibleOpponents roster matches (Students.id student)
              margin →
     Matches.canPlay matches (Students.id student) (Students.id best) = true →
     P (MatchRecommendations.mkRecommendation student best
          (Z.abs (Students.score student - Students.score best)))) →
  roundInv P st → roundInv P (step st student).
Proof.
  intros HP (Hnd & Hused & Hall).
  destruct (step_outcome st student) as [|best Hs Hel Hb Hcp]; [done|].
  unfold roundInv, MatchRecommendations.recordPairing. simpl.
  rewrite pairedIds_snoc. simpl. split; [|split].
  - apply NoDup_app. split; [done|]. split.
    + intros x Hx%Hused [->|[->|[]%elem_of_nil]%elem_of_cons]%elem_of_cons; done.
    + apply NoDup_cons. split; [|apply NoDup_singleton].
      apply elem_of_getEligibleOpponents in Hel as (_ & _ & _ & Hne & _).
      set_solver.
  - intros x [Hx%Hused|Hx]%elem_of_app; set_solver.
  - apply Forall_app. split; [done|]. constructor; [|constructor].
    by apply HP.
Qed.

Lemma foldl_step_preserves (visited : list Students.Student)
    (st : MatchRecommendations.RoundState) :
  (∀ student best,
     student ∈ visited →
     best ∈ Opponents.getEligibleOpponents roster matches (Students.id student)
              margin →
     Matches.canPlay matches (Students.id student) (Students.id best) = true →
     P (MatchRecommendations.mkRecommendation student best
          (Z.abs (Students.score student - Students.score best)))) →
  roundInv P st → roundInv P (foldl step st visited).
Proof.
  revert st. induction visited as [|s l IH]; intros st HP Hinv; [done|].
  simpl. apply IH.
  - intros student best Hin. apply HP. by right.
  - apply step_preserves; [|done]. intros best. apply HP. by left.
Qed.

End PairingLoop.

(** C2. Whatever the pool, the roster, the history, the margin and the
    draws of the shuffle, the ids listed by the pairings of
    [getMatchRecommendations], and by those of
    [getOptimizedMatchRecommendations], are pairwise different: no id
    occurs in two pairings (nor twice in one). *)
Theorem rounds_pair_each_id_once (random : nat → nat)
    (roster : list Students.Student) (matches : list Matches.Match)
    (students : list Students.Student) (margin : Z) :
  NoDup (Spec.pairedIds
           (MatchRecommendations.getMatchRecommendations random roster matches
              students margin)) ∧
  NoDup (Spec.pairedIds
           (MatchRecommendations.getOptimizedMatchRecommendations roster matches
              students margin)).
Proof.
  unfold MatchRecommendations.getMatchRecommendations,
    MatchRecommendations.getOptimizedMatchRecommendations.
  case_bool_decide; [split; constructor|]. simpl. split.
  - apply (foldl_step_preserves roster matches margin (λ _, True) _
             (recommendStep_outcome roster matches margin));
      [done|apply roundInv_empty].
  - apply (foldl_step_preserves roster matches margin (λ _, True) _
             (optimizedStep_outcome roster matches margin));
      [done|apply roundInv_empty].
Qed.

(** A pairing of a pool member with one of its eligible opponents is
    valid, when ids are unique. *)
Lemma eligible_pairing_valid (pool : list Students.Student)
    (matches : list Matches.Match) (margin : Z) (student best : Students.Student) :
  NoDup (Students.id <$> pool) → student ∈ pool →
  best ∈ Opponents.getEligibleOpponents pool matches (Students.id student) margin →
  Matches.canPlay matches (Students.id student) (Students.id best) = true →
  Spec.validPairing matches margin
    (MatchRecommendations.mkRecommendation student best
       (Z.abs (Students.score student - Students.score best))).
Proof.
  intros Hnd Hin Hel Hcp. unfold Spec.validPairing. simpl.
  apply elem_of_getEligibleOpponents in Hel as (t & Hf & _ & _ & Hm & _).
  rewrite array_find_id_member in Hf by done. by injection Hf as <-.
Qed.

(** C3. For a pool of students with unique ids, every pairing of
    [getMatchRecommendations] has [scoreDifference = |playerA.score -
    playerB.score|], has [scoreDifference <= margin], and joins two
    students whom [canPlay] accepts on the history the round was computed
    from. *)
Theorem round_pairings_valid (random : nat → nat)
    (pool : list Students.Student) (matches : list Matches.Match) (margin : Z) :
  NoDup (Students.id <$> pool) →
  Forall (Spec.validPairing matches margin)
    (MatchRecommendations.getMatchRecommendations random pool matches pool
       margin).
Proof.
  intros Hnd. unfold MatchRecommendations.getMatchRecommendations.
  case_bool_decide; [constructor|]. simpl.
  apply (foldl_step_preserves pool matches margin (Spec.validPairing matches margin) _
           (recommendStep_outcome pool matches margin));
    [|apply roundInv_empty].
  intros student best Hin. rewrite shuffleArray_perm in Hin.
  by apply eligible_pairing_valid.
Qed.

Lemma round_pairings_valid_witness :
  Forall (Spec.validPairing [] 1)
    (MatchRecommendations.getMatchRecommendations (λ i, i) Sample.pool []
       Sample.pool 1).
Proof.
  apply round_pairings_valid.
  apply (bool_decide_unpack _). vm_compute. exact I.
Defined.

(** The same holds for the sorted variant. *)
Lemma optimized_pairings_valid (pool : list Students.Student)
    (matches : list Matches.Match) (margin : Z) :
  NoDup (Students.id <$> pool) →
  Forall (Spec.validPairing matches margin)
    (MatchRecommendations.getOptimizedMatchRecommendations pool matches pool
       margin).
Proof.
  intros Hnd. unfold MatchRecommendations.getOptimizedMatchRecommendations.
  case_bool_decide; [constructor|]. simpl.
  apply (foldl_step_preserves pool matches margin (Spec.validPairing matches margin) _
           (optimizedStep_outcome pool matches margin));
    [|apply roundInv_empty].
  intros student best Hin. unfold array_sort in Hin.
  rewrite array_sort_by_elem_of in Hin. by apply eligible_pairing_valid.
Qed.

(** Unique ids are needed for the margin: when an id is listed twice, the
    margin is tested on the score of its first entry and the pairing is
    built from the entry the loop visits. *)
Example duplicated_ids_escape_margin :
  MatchRecommendations.getOptimizedMatchRecommendations
    Sample.duplicated [] Sample.duplicated 1
  = [MatchRecommendations.mkRecommendation Sample.annSecond Sample.ben 5].
Proof. vm_compute. reflexivity. Qed.

(** ** The scenario of section 8

    Pool [{1, score 0}; {2, score 1}; {3, score 5}], empty history,
    margin 1, the shuffle leaving the pool as it is. *)

Example scenario_round :
  MatchRecommendations.getMatchRecommendations (λ i, i) Sample.pool []
    Sample.pool 1
  = [MatchRecommendations.mkRecommendation Sample.alice Sample.bob 1].
Proof. vm_compute. reflexivity. Qed.

Example scenario_possible :
  MatchRecommendations.hasPossibleMatchRecommendations Sample.pool []
    Sample.pool 1 = true.
Proof. vm_compute. reflexivity. Qed.

Example scenario_stats :
  let st := MatchRecommendations.getMatchRecommendationStats Sample.pool []
              Sample.pool 1 in
  MatchRecommendations.possibleMatches st = 2 ∧
  (MatchRecommendations.averageScoreDifference st == 1)%Q.
Proof. vm_compute. split; reflexivity. Qed.

Example scenario_eligible :
  Matches.canPlay [] "1" "2" = true ∧
  Sample.alice ∈ Opponents.getEligibleOpponents Sample.pool [] "2" 1.
Proof. split; [reflexivity|]. vm_compute. by left. Qed.

Example scenario_best_of_three :
  Matches.canPlay Sample.twoOne "1" "2" = true ∧
  Matches.canPlay Sample.threeNil "1" "2" = false.
Proof. split; vm_compute; reflexivity. Qed.

(** * Further properties of the library *)

(** ** The pairing loops in full *)

Lemma compareByScoreDiff_le (student a b : Students.Student) :
  MatchRecommendations.compareByScoreDiff student a b ≤ 0 ↔
  Z.abs (Students.score student - Students.score a) ≤
  Z.abs (Students.score student - Students.score b).
Proof.
  unfold MatchRecommendations.compareByScoreDiff. simpl.
  case_bool_decide; lia.
Qed.

(** The head of a sorted array is in front of every element. *)
Lemma array_sort_head_least {A} (cmp : A → A → Z) (l : list A) (x y : A) :
  (∀ a, cmp a a ≤ 0) →
  (∀ a b, 0 < cmp a b → cmp b a ≤ 0) →
  (∀ a b c, cmp a b ≤ 0 → cmp b c ≤ 0 → cmp a c ≤ 0) →
  array_sort cmp l !! 0%nat = Some x → y ∈ l → cmp x y ≤ 0.
Proof.
  intros Hrefl Htot Htrans Hx Hy.
  pose proof (array_sort_sorted cmp l Htot Htrans) as Hs.
  assert (Hy' : y ∈ array_sort cmp l) by by apply array_sort_by_elem_of.
  destruct (array_sort cmp l) as [|z s]; [done|].
  injection Hx as ->. apply StronglySorted_inv in Hs as [_ Hall].
  apply elem_of_cons in Hy' as [->|Hy']; [apply Hrefl|].
  rewrite Forall_forall in Hall. by apply Hall.
Qed.

Lemma eligible_canPlay (roster : list Students.Student)
    (matches : list Matches.Match) (studentId : string) (margin : Z)
    (o : Students.Student) :
  o ∈ Opponents.getEligibleOpponents roster matches studentId margin →
  Matches.canPlay matches studentId (Students.id o) = true.
Proof. rewrite elem_of_getEligibleOpponents. naive_solver. Qed.

Lemma recommendStep_result (roster : list Students.Student)
    (matches : list Matches.Match) (margin : Z)
    (st : MatchRecommendations.RoundState) (student : Students.Student) :
  stepResult roster matches margin st student
    (MatchRecommendations.recommendStep roster matches margin st student).
Proof.
  unfold MatchRecommendations.recommendStep.
  case_bool_decide as Hused; [by apply result_used|]. simpl.
  set (eligible := Opponents.getEligibleOpponents roster matches
                     (Students.id student) margin).
  set (available :=
         filter (λ o, Students.id o ∉ MatchRecommendations.usedStudents st)
                eligible).
  case_bool_decide as Hlen.
  - destruct (array_sort _ available !! 0%nat) as [best|] eqn:Hbest.
    + assert (Hin : best ∈ available).
      { apply list_elem_of_lookup_2 in Hbest. unfold array_sort in Hbest.
        by apply array_sort_by_elem_of in Hbest. }
      apply list_elem_of_filter in Hin as [Hfree Hel].
      rewrite (eligible_canPlay _ _ _ _ _ Hel).
      apply result_pair; try done.
      intros o Ho Hofree. apply compareByScoreDiff_le.
      apply (array_sort_head_least _ available); try done.
      * intros a. apply compareByScoreDiff_le. lia.
      * intros a b. unfold MatchRecommendations.compareByScoreDiff. simpl.
        repeat case_bool_decide; lia.
      * intros a b c. rewrite !compareByScoreDiff_le. lia.
      * by apply list_elem_of_filter.
    + apply lookup_ge_None in Hbest. unfold array_sort in Hbest.
      rewrite array_sort_by_length in Hbest. lia.
  - apply result_alone; [done|]. intros o Ho.
    destruct (decide (Students.id o ∈ MatchRecommendations.usedStudents st))
      as [|Hfree]; [done|].
    assert (Hin : o ∈ available) by by apply list_elem_of_filter.
    destruct available; [by apply elem_of_nil in Hin|simpl in Hlen; lia].
Qed.

(** [reduce] with [closerOpponent] returns an element of the array whose
    score is at least as close as that of any other. *)
Lemma foldl_closerOpponent_least (student best : Students.Student)
    (l : list Students.Student) (o : Students.Student) :
  o ∈ best :: l →
  Z.abs (Students.score student -
         Students.score
           (foldl (MatchRecommendations.closerOpponent student) best l)) ≤
  Z.abs (Students.score student - Students.score o).
Proof.
  revert best o. induction l as [|x l IH]; intros best o Ho; simpl.
  - apply list_elem_of_singleton in Ho as ->. lia.
  - assert (Hstep :
      Z.abs (Students.score student -
             Students.score (MatchRecommendations.closerOpponent student best x))
      ≤ Z.abs (Students.score student - Students.score best) ∧
      Z.abs (Students.score student -
             Students.score (MatchRecommendations.closerOpponent student best x))
      ≤ Z.abs (Students.score student - Students.score x)).
    { unfold MatchRecommendations.closerOpponent. simpl.
      case_bool_decide; lia. }
    destruct Hstep as [Hb Hx].
    apply elem_of_cons in Ho as [->|Ho].
    + etrans; [apply IH; by left|done].
    + apply elem_of_cons in Ho as [->|Ho].
      * etrans; [apply IH; by left|done].
      * apply IH. by right.
Qed.

Lemma optimizedStep_result (roster : list Students.Student)
    (matches : list Matches.Match) (margin : Z)
    (st : MatchRecommendations.RoundState) (student : Students.Student) :
  stepResult roster matches margin st student
    (MatchRecommendations.optimizedStep roster matches margin st student).
Proof.
  unfold MatchRecommendations.optimizedStep.
  case_bool_decide as Hused; [by apply result_used|]. simpl.
  set (eligible := Opponents.getEligibleOpponents roster matches
                     (Students.id student) margin).
  set (available :=
         filter (λ o, Students.id o ∉ MatchRecommendations.usedStudents st)
                eligible).
  assert (Havail : ∀ o, o ∈ available ↔
            (Students.id o ∉ MatchRecommendations.usedStudents st) ∧
            o ∈ eligible).
  { intros o. unfold available. by rewrite list_elem_of_filter. }
  clearbody available. case_bool_decide as Hlen.
  - destruct available as [|x l]; [simpl in Hlen; lia|]. simpl.
    pose proof (foldl_closerOpponent_elem_of student x l) as Hin.
    apply Havail in Hin as [Hfree Hel].
    rewrite (eligible_canPlay _ _ _ _ _ Hel).
    apply result_pair; try done.
    intros o Ho Hofree. apply foldl_closerOpponent_least. by apply Havail.
  - apply result_alone; [done|]. intros o Ho.
    destruct (decide (Students.id o ∈ MatchRecommendations.usedStudents st))
      as [|Hfree]; [done|].
    assert (Hin : o ∈ available) by by apply Havail.
    destruct available; [by apply elem_of_nil in Hin|simpl in Hlen; lia].
Qed.

Lemma roundProgress_empty (roster : list Students.Student)
    (matches : list Matches.Match) (margin : Z) :
  roundProgress roster matches margin [] MatchRecommendations.emptyRound.
Proof.
  split; [|split].
  - intros x. simpl. set_solver.
  - intros s o Hs. by apply elem_of_nil in Hs.
  - intros pre r post Heq. simpl in Heq. by destruct pre.
Qed.

Section PairingProgress.
Variables (roster : list Students.Student) (matches : list Matches.Match).
Variable margin : Z.
Variable step :
  MatchRecommendations.RoundState → Students.Student →
  MatchRecommendations.RoundState.
Hypothesis step_result :
  ∀ st student, stepResult roster matches margin st student (step st student).

Lemma step_progress (visited : list Students.Student)
    (st : MatchRecommendations.RoundState) (student : Students.Student) :
  roundProgress roster matches margin visited st →
  roundProgress roster matches margin (visited ++ [student]) (step st student).
Proof.
  intros (Hused & Hfree & Hrecs).
  destruct (step_result st student) as [Hin|Hout Hnone|best Hout Hel Hbest Hmin].
  - split; [done|]. split.
    + intros s o [Hs| ->%list_elem_of_singleton]%elem_of_app Hs' Ho;
        [by eapply Hfree|done].
    + intros pre r post Heq. destruct (Hrecs pre r post Heq) as (HA & Hrest).
      split; [|done]. apply elem_of_app. by left.
  - split; [done|]. split.
    + intros s o [Hs| ->%list_elem_of_singleton]%elem_of_app Hs' Ho;
        [by eapply Hfree|by apply Hnone].
    + intros pre r post Heq. destruct (Hrecs pre r post Heq) as (HA & Hrest).
      split; [|done]. apply elem_of_app. by left.
  - unfold MatchRecommendations.recordPairing.
    split; [|split];
      cbn [MatchRecommendations.recommendations
           MatchRecommendations.usedStudents].
    + intros x. rewrite pairedIds_snoc, elem_of_app.
      cbn [MatchRecommendations.playerA MatchRecommendations.playerB].
      specialize (Hused x). set_solver.
    + intros s o [Hs| ->%list_elem_of_singleton]%elem_of_app Hs' Ho.
      * assert (Students.id o ∈ MatchRecommendations.usedStudents st);
          [|set_solver].
        eapply Hfree; [done| |done]. set_solver.
      * set_solver.
    + intros pre r post Heq.
      destruct post as [|p post _] using rev_ind.
      * apply app_inj_tail in Heq as [Hpre_eq <-].
        cbn [MatchRecommendations.playerA MatchRecommendations.playerB
             MatchRecommendations.scoreDifference].
        split; [apply elem_of_app; right; by apply list_elem_of_singleton|].
        split; [done|]. split; [done|].
        intros o Ho Hpre. apply Hmin; [done|]. by rewrite Hused, Hpre_eq.
      * rewrite app_comm_cons, app_assoc in Heq.
        apply app_inj_tail in Heq as [Heq _].
        destruct (Hrecs pre r post Heq) as (HA & Hrest).
        split; [|done]. apply elem_of_app. by left.
Qed.

Lemma foldl_step_progress (visited rest : list Students.Student)
    (st : MatchRecommendations.RoundState) :
  roundProgress roster matches margin visited st →
  roundProgress roster matches margin (visited ++ rest) (foldl step st rest).
Proof.
  revert visited st. induction rest as [|s rest IH]; intros visited st Hinv.
  - by rewrite app_nil_r.
  - simpl. change (s :: rest) with ([s] ++ rest). rewrite (assoc_L (++)).
    apply IH. by apply step_progress.
Qed.

Lemma loop_progress (visited : list Students.Student) :
  roundProgress roster matches margin visited
    (foldl step MatchRecommendations.emptyRound visited).
Proof. apply (foldl_step_progress [] visited), roundProgress_empty. Qed.

End PairingProgress.

(** The state either loop ends in, for pools of two students or more. *)
Lemma recommendations_progress (random : nat → nat)
    (roster : list Students.Student) (matches : list Matches.Match)
    (students : list Students.Student) (margin : Z) :
  ¬ (length students < 2)%nat →
  ∃ st,
    MatchRecommendations.getMatchRecommendations random roster matches students
      margin = MatchRecommendations.recommendations st ∧
    roundProgress roster matches margin
      (MatchRecommendations.shuffleArray random students) st.
Proof.
  intros Hlen. unfold MatchRecommendations.getMatchRecommendations.
  rewrite bool_decide_eq_false_2 by done. simpl.
  eexists. split; [done|].
  apply loop_progress, recommendStep_result.
Qed.

Lemma optimized_progress (roster : list Students.Student)
    (matches : list Matches.Match) (students : list Students.Student)
    (margin : Z) :
  ¬ (length students < 2)%nat →
  ∃ st,
    MatchRecommendations.getOptimizedMatchRecommendations roster matches
      students margin = MatchRecommendations.recommendations st ∧
    roundProgress roster matches margin
      (array_sort (λ a b, Students.score b - Students.score a) students) st.
Proof.
  intros Hlen. unfold MatchRecommendations.getOptimizedMatchRecommendations.
  rewrite bool_decide_eq_false_2 by done. simpl.
  eexists. split; [done|].
  apply loop_progress, optimizedStep_result.
Qed.

Lemma eligible_of_small_pool (pool : list Students.Student)
    (matches : list Matches.Match) (margin : Z) (s o : Students.Student) :
  (length pool < 2)%nat → s ∈ pool →
  o ∉ Opponents.getEligibleOpponents pool matches (Students.id s) margin.
Proof.
  intros Hlen Hs Ho.
  destruct pool as [|s' [|s'' pool]]; [by apply elem_of_nil in Hs| |simpl in Hlen; lia].
  apply list_elem_of_singleton in Hs as ->.
  apply elem_of_getEligibleOpponents in Ho
    as (_ & _ & ->%list_elem_of_singleton & Hid & _).
  done.
Qed.

(** A round whose visit order is a rearrangement of the students leaves no
    student free beside a free eligible opponent. *)
Lemma progress_maximal (roster : list Students.Student)
    (matches : list Matches.Match) (margin : Z)
    (visited students : list Students.Student)
    (st : MatchRecommendations.RoundState) (s o : Students.Student) :
  visited ≡ₚ students →
  roundProgress roster matches margin visited st →
  s ∈ students →
  o ∈ Opponents.getEligibleOpponents roster matches (Students.id s) margin →
  Students.id s ∈ Spec.pairedIds (MatchRecommendations.recommendations st) ∨
  Students.id o ∈ Spec.pairedIds (MatchRecommendations.recommendations st).
Proof.
  intros Hperm (Hused & Hfree & _) Hs Ho. rewrite <- !Hused.
  destruct (decide (Students.id s ∈ MatchRecommendations.usedStudents st))
    as [|Hout]; [by left|].
  right. apply (Hfree s o); [by rewrite Hperm|done|done].
Qed.

(** X1. [shuffleArray] returns a rearrangement of its argument, whatever
    the draws: the same elements, each as many times. *)
Theorem shuffleArray_permutes {A} (random : nat → nat) (array : list A) :
  MatchRecommendations.shuffleArray random array ≡ₚ array.
Proof. apply shuffleArray_perm. Qed.

(** X2. Rounds are maximal: when a student of the pool has an eligible
    opponent, at least one of the two is paired, in the shuffled round and
    in the sorted one; no pairing can be added to a round. *)
Theorem rounds_are_maximal (random : nat → nat)
    (pool : list Students.Student) (matches : list Matches.Match)
    (margin : Z) (s o : Students.Student) :
  s ∈ pool →
  o ∈ Opponents.getEligibleOpponents pool matches (Students.id s) margin →
  (Students.id s ∈
     Spec.pairedIds
       (MatchRecommendations.getMatchRecommendations random pool matches pool
          margin) ∨
   Students.id o ∈
     Spec.pairedIds
       (MatchRecommendations.getMatchRecommendations random pool matches pool
          margin)) ∧
  (Students.id s ∈
     Spec.pairedIds
       (MatchRecommendations.getOptimizedMatchRecommendations pool matches pool
          margin) ∨
   Students.id o ∈
     Spec.pairedIds
       (MatchRecommendations.getOptimizedMatchRecommendations pool matches pool
          margin)).
Proof.
  intros Hs Ho.
  destruct (decide (length pool < 2)%nat) as [Hsmall|Hlen].
  { by destruct (eligible_of_small_pool pool matches margin s o). }
  split.
  - destruct (recommendations_progress random pool matches pool margin Hlen)
      as (st & -> & Hprog).
    eapply progress_maximal; [apply shuffleArray_perm|done..].
  - destruct (optimized_progress pool matches pool margin Hlen)
      as (st & -> & Hprog).
    eapply progress_maximal; [apply array_sort_by_perm|done..].
Qed.

Lemma rounds_are_maximal_witness :
  "1" ∈ Spec.pairedIds
          (MatchRecommendations.getMatchRecommendations (λ _, 0%nat)
             Sample.pool [] Sample.pool 1) ∨
  "2" ∈ Spec.pairedIds
          (MatchRecommendations.getMatchRecommendations (λ _, 0%nat)
             Sample.pool [] Sample.pool 1).
Proof.
  apply (rounds_are_maximal (λ _, 0%nat) Sample.pool [] 1
           Sample.alice Sample.bob).
  - by left.
  - vm_compute. by left.
Defined.

Lemma anyHasOpponents_true (roster : list Students.Student)
    (matches : list Matches.Match) (margin : Z)
    (students : list Students.Student) :
  MatchRecommendations.anyHasOpponents roster matches margin students = true ↔
  ∃ s o, s ∈ students ∧
    o ∈ Opponents.getEligibleOpponents roster matches (Students.id s) margin.
Proof.
  induction students as [|s l IH]; simpl.
  - split; [done|]. intros (s & o & Hs & _). by apply elem_of_nil in Hs.
  - destruct (Opponents.getEligibleOpponents roster matches (Students.id s) margin)
      as [|o os] eqn:Hel; simpl.
    + rewrite IH. split.
      * intros (s' & o & Hs' & Ho). exists s', o. split; [by right|done].
      * intros (s' & o & [->|Hs']%elem_of_cons & Ho).
        -- rewrite Hel in Ho. by apply elem_of_nil in Ho.
        -- by exists s', o.
    + split; [|done]. intros _. exists s, o. split; [by left|].
      rewrite Hel. by left.
Qed.

Lemma progress_nonempty (roster : list Students.Student)
    (matches : list Matches.Match) (margin : Z)
    (visited students : list Students.Student)
    (st : MatchRecommendations.RoundState) :
  visited ≡ₚ students →
  roundProgress roster matches margin visited st →
  MatchRecommendations.recommendations st ≠ [] ↔
  ∃ s o, s ∈ students ∧
    o ∈ Opponents.getEligibleOpponents roster matches (Students.id s) margin.
Proof.
  intros Hperm Hprog. split.
  - destruct (MatchRecommendations.recommendations st) as [|r rs] eqn:Hr; [done|].
    intros _. destruct Hprog as (_ & _ & Hrecs).
    destruct (Hrecs [] r rs Hr) as (HA & HB & _).
    exists (MatchRecommendations.playerA r), (MatchRecommendations.playerB r).
    split; [by rewrite <- Hperm|done].
  - intros (s & o & Hs & Ho) Hnil.
    destruct (progress_maximal _ _ _ _ _ _ s o Hperm Hprog Hs Ho) as [H|H];
      rewrite Hnil in H; by apply elem_of_nil in H.
Qed.

(** X3. [hasPossibleMatchRecommendations] answers true exactly when a
    round is not empty: the shuffled round, whatever the draws, and the
    sorted round. *)
Theorem possible_iff_round_nonempty (random : nat → nat)
    (roster : list Students.Student) (matches : list Matches.Match)
    (students : list Students.Student) (margin : Z) :
  (MatchRecommendations.hasPossibleMatchRecommendations roster matches students
     margin = true ↔
   MatchRecommendations.getMatchRecommendations random roster matches students
     margin ≠ []) ∧
  (MatchRecommendations.hasPossibleMatchRecommendations roster matches students
     margin = true ↔
   MatchRecommendations.getOptimizedMatchRecommendations roster matches students
     margin ≠ []).
Proof.
  destruct (decide (length students < 2)%nat) as [Hsmall|Hlen].
  { unfold MatchRecommendations.hasPossibleMatchRecommendations,
      MatchRecommendations.getMatchRecommendations,
      MatchRecommendations.getOptimizedMatchRecommendations.
    rewrite !bool_decide_eq_true_2 by done. by split. }
  unfold MatchRecommendations.hasPossibleMatchRecommendations.
  rewrite bool_decide_eq_false_2 by done. rewrite anyHasOpponents_true.
  split.
  - destruct (recommendations_progress random roster matches students margin Hlen)
      as (st & -> & Hprog).
    symmetry. eapply progress_nonempty; [apply shuffleArray_perm|done].
  - destruct (optimized_progress roster matches students margin Hlen)
      as (st & -> & Hprog).
    symmetry. eapply progress_nonempty; [apply array_sort_by_perm|done].
Qed.

Lemma pairedIds_length (round : list MatchRecommendations.MatchRecommendation) :
  length (Spec.pairedIds round) = (2 * length round)%nat.
Proof.
  unfold Spec.pairedIds. induction round as [|r l IH]; [done|].
  rewrite bind_cons, length_app, IH. simpl. lia.
Qed.

Lemma elem_of_pairedIds (round : list MatchRecommendations.MatchRecommendation)
    (x : string) :
  x ∈ Spec.pairedIds round ↔
  ∃ r, r ∈ round ∧
    (x = Students.id (MatchRecommendations.playerA r) ∨
     x = Students.id (MatchRecommendations.playerB r)).
Proof.
  unfold Spec.pairedIds. rewrite list_elem_of_bind. set_solver.
Qed.

Lemma progress_size (pool visited : list Students.Student)
    (matches : list Matches.Match) (margin : Z)
    (st : MatchRecommendations.RoundState) :
  visited ≡ₚ pool →
  NoDup (Spec.pairedIds (MatchRecommendations.recommendations st)) →
  roundProgress pool matches margin visited st →
  (2 * length (MatchRecommendations.recommendations st) ≤ length pool)%nat.
Proof.
  intros Hperm Hnd (_ & _ & Hrecs).
  rewrite <- pairedIds_length, <- (length_fmap Students.id pool).
  apply submseteq_length, NoDup_submseteq; [done|].
  intros x (r & Hr & Hx)%elem_of_pairedIds.
  apply list_elem_of_split in Hr as (pre & post & Hr).
  destruct (Hrecs pre r post Hr) as (HA & HB & _).
  apply elem_of_getEligibleOpponents in HB as (_ & _ & HB & _).
  rewrite Hperm in HA.
  destruct Hx as [-> | ->]; by apply list_elem_of_fmap_2.
Qed.

(** X4. A round over a pool never holds more pairings than half the
    number of students of the pool. *)
Theorem round_size_bound (random : nat → nat)
    (pool : list Students.Student) (matches : list Matches.Match) (margin : Z) :
  (2 * length (MatchRecommendations.getMatchRecommendations random pool matches
                 pool margin) ≤ length pool)%nat ∧
  (2 * length (MatchRecommendations.getOptimizedMatchRecommendations pool
                 matches pool margin) ≤ length pool)%nat.
Proof.
  destruct (decide (length pool < 2)%nat) as [Hsmall|Hlen].
  { unfold MatchRecommendations.getMatchRecommendations,
      MatchRecommendations.getOptimizedMatchRecommendations.
    rewrite !bool_decide_eq_true_2 by done. simpl. lia. }
  split.
  - destruct (recommendations_progress random pool matches pool margin Hlen)
      as (st & Heq & Hprog).
    rewrite Heq. eapply progress_size; [apply shuffleArray_perm| |done].
    rewrite <- Heq. unfold MatchRecommendations.getMatchRecommendations.
    rewrite bool_decide_eq_false_2 by done.
    apply (foldl_step_preserves pool matches margin (λ _, True) _
             (recommendStep_outcome pool matches margin));
      [done|apply roundInv_empty].
  - destruct (optimized_progress pool matches pool margin Hlen)
      as (st & Heq & Hprog).
    rewrite Heq. eapply progress_size; [apply array_sort_by_perm| |done].
    rewrite <- Heq. unfold MatchRecommendations.getOptimizedMatchRecommendations.
    rewrite bool_decide_eq_false_2 by done.
    apply (foldl_step_preserves pool matches margin (λ _, True) _
             (optimizedStep_outcome pool matches margin));
      [done|apply roundInv_empty].
Qed.

(** X5. In a round, shuffled or sorted, every pairing joins its first
    student with one of that student's eligible opponents, and with one
    whose score is at least as close as that of any eligible opponent not
    paired earlier in the round. *)
Theorem round_picks_closest (random : nat → nat)
    (roster : list Students.Student) (matches : list Matches.Match)
    (students : list Students.Student) (margin : Z)
    (pre post : list MatchRecommendations.MatchRecommendation)
    (r : MatchRecommendations.MatchRecommendation) :
  MatchRecommendations.getMatchRecommendations random roster matches students
    margin = pre ++ r :: post ∨
  MatchRecommendations.getOptimizedMatchRecommendations roster matches students
    margin = pre ++ r :: post →
  MatchRecommendations.playerB r ∈
    Opponents.getEligibleOpponents roster matches
      (Students.id (MatchRecommendations.playerA r)) margin ∧
  ∀ o, o ∈ Opponents.getEligibleOpponents roster matches
             (Students.id (MatchRecommendations.playerA r)) margin →
       Students.id o ∉ Spec.pairedIds pre →
       MatchRecommendations.scoreDifference r ≤
       Z.abs (Students.score (MatchRecommendations.playerA r) -
              Students.score o).
Proof.
  intros Hround.
  destruct (decide (length students < 2)%nat) as [Hsmall|Hlen].
  { unfold MatchRecommendations.getMatchRecommendations,
      MatchRecommendations.getOptimizedMatchRecommendations in Hround.
    rewrite !bool_decide_eq_true_2 in Hround by done.
    destruct Hround as [H|H]; by destruct pre. }
  destruct Hround as [Hround|Hround].
  - destruct (recommendations_progress random roster matches students margin Hlen)
      as (st & Heq & (_ & _ & Hrecs)).
    rewrite Heq in Hround. destruct (Hrecs pre r post Hround) as (_ & ? & _ & ?).
    done.
  - destruct (optimized_progress roster matches students margin Hlen)
      as (st & Heq & (_ & _ & Hrecs)).
    rewrite Heq in Hround. destruct (Hrecs pre r post Hround) as (_ & ? & _ & ?).
    done.
Qed.

Lemma round_picks_closest_witness :
  Sample.bob ∈ Opponents.getEligibleOpponents Sample.pool [] "1" 1.
Proof.
  apply (round_picks_closest (λ i, i) Sample.pool [] Sample.pool 1 [] []
           (MatchRecommendations.mkRecommendation Sample.alice Sample.bob 1)).
  left. vm_compute. reflexivity.
Defined.

Lemma StronglySorted_sublist {A} (R : A → A → Prop) (l k : list A) :
  l `sublist_of` k → StronglySorted R k → StronglySorted R l.
Proof.
  induction 1 as [|x l k Hsub IH|x l k Hsub IH]; intros Hs; [done| |].
  - apply StronglySorted_inv in Hs as [Hk Hx]. constructor; [by apply IH|].
    rewrite Forall_forall in Hx |- *. intros y Hy. apply Hx.
    by eapply elem_of_sublist.
  - apply StronglySorted_inv in Hs as [Hk _]. by apply IH.
Qed.

Lemma StronglySorted_fmap_inv {A B} (f : A → B) (R : B → B → Prop) (l : list A) :
  StronglySorted R (f <$> l) → StronglySorted (λ x y, R (f x) (f y)) l.
Proof.
  induction l as [|x l IH]; [constructor|].
  rewrite fmap_cons. intros [Hl Hx]%StronglySorted_inv.
  constructor; [by apply IH|].
  rewrite Forall_forall in Hx. rewrite Forall_forall. intros y Hy. apply Hx.
  by apply list_elem_of_fmap_2.
Qed.

(** The first students of the pairings follow the visit order. *)
Lemma foldl_step_visit_order (roster : list Students.Student)
    (matches : list Matches.Match) (margin : Z)
    (step : MatchRecommendations.RoundState → Students.Student →
            MatchRecommendations.RoundState)
    (rest visited : list Students.Student)
    (st : MatchRecommendations.RoundState) :
  (∀ st student, stepResult roster matches margin st student (step st student)) →
  MatchRecommendations.playerA <$> MatchRecommendations.recommendations st
    `sublist_of` visited →
  MatchRecommendations.playerA <$>
    MatchRecommendations.recommendations (foldl step st rest)
    `sublist_of` visited ++ rest.
Proof.
  intros Hstep. revert visited st.
  induction rest as [|s rest IH]; intros visited st Hsub.
  - by rewrite app_nil_r.
  - simpl. change (s :: rest) with ([s] ++ rest). rewrite (assoc_L (++)).
    apply IH. destruct (Hstep st s) as [?|? ?|best ? ? ? ?].
    + by apply sublist_inserts_r.
    + by apply sublist_inserts_r.
    + unfold MatchRecommendations.recordPairing.
      cbn [MatchRecommendations.recommendations]. rewrite fmap_app.
      by apply sublist_app.
Qed.

(** X6. The sorted round lists its pairings strongest first: the scores
    of the first students of the pairings never increase along the round. *)
Theorem optimized_round_strongest_first (roster : list Students.Student)
    (matches : list Matches.Match) (students : list Students.Student)
    (margin : Z) :
  StronglySorted
    (λ r1 r2, Students.score (MatchRecommendations.playerA r2) ≤
              Students.score (MatchRecommendations.playerA r1))
    (MatchRecommendations.getOptimizedMatchRecommendations roster matches
       students margin).
Proof.
  unfold MatchRecommendations.getOptimizedMatchRecommendations.
  case_bool_decide; [constructor|]. simpl.
  apply (StronglySorted_fmap_inv MatchRecommendations.playerA
           (λ a b, Students.score b ≤ Students.score a)).
  eapply StronglySorted_sublist.
  - apply (foldl_step_visit_order roster matches margin _ _ []
             MatchRecommendations.emptyRound
             (optimizedStep_result roster matches margin)).
    simpl. constructor.
  - simpl.
    apply (StronglySorted_weaken
             (λ a b, Students.score b - Students.score a ≤ 0)).
    { intros; lia. }
    apply array_sort_sorted; intros; lia.
Qed.

(** ** The opponent finder, further *)

Lemma filter_sublist_impl {A} (P Q : A → Prop)
    `{!∀ x, Decision (P x)} `{!∀ x, Decision (Q x)} (l : list A) :
  (∀ x, P x → Q x) → filter P l `sublist_of` filter Q l.
Proof.
  intros HPQ. induction l as [|x l IH]; [done|].
  rewrite !filter_cons. destruct (decide (P x)) as [HP|HP].
  - rewrite decide_True by auto. by constructor.
  - destruct (decide (Q x)); [by constructor|done].
Qed.

(** X7. Widening the margin never removes an eligible opponent: the
    opponents found with a margin are found, in the same order, with any
    larger margin. *)
Theorem eligibleOpponents_margin_monotone (roster : list Students.Student)
    (matches : list Matches.Match) (studentId : string) (margin margin' : Z) :
  margin ≤ margin' →
  Opponents.getEligibleOpponents roster matches studentId margin
    `sublist_of`
  Opponents.getEligibleOpponents roster matches studentId margin'.
Proof.
  intros Hle. unfold Opponents.getEligibleOpponents.
  destruct (array_find _ roster) as [t|]; [|done].
  apply filter_sublist_impl. intros o.
  rewrite !Is_true_true, !isEligibleOpponent_true. intros (? & ? & ?).
  split_and!; done || lia.
Qed.

Lemma eligibleOpponents_margin_monotone_witness :
  Opponents.getEligibleOpponents Sample.pool [] "2" 1
    `sublist_of`
  Opponents.getEligibleOpponents Sample.pool [] "2" 4.
Proof.
  apply eligibleOpponents_margin_monotone. lia.
Defined.

Lemma length_filter_and_split {A} (P Q : A → Prop)
    `{!∀ x, Decision (P x)} `{!∀ x, Decision (Q x)} (l : list A) :
  (length (filter (λ x, P x ∧ Q x) l) + length (filter (λ x, P x ∧ ¬ Q x) l)
   = length (filter P l))%nat.
Proof.
  induction l as [|x l IH]; [done|].
  rewrite !filter_cons.
  destruct (decide (P x)) as [HP|HP]; destruct (decide (Q x)) as [HQ|HQ].
  - rewrite decide_True, decide_False by tauto. simpl. lia.
  - rewrite decide_False, decide_True by tauto. simpl. lia.
  - rewrite !decide_False by tauto. done.
  - rewrite !decide_False by tauto. done.
Qed.

(** When [canPlay] refuses, there are at least three records and no
    best-of-three rematch. *)
Lemma canPlay_false_limit (matches : list Matches.Match) (a b : string) :
  Matches.canPlay matches a b = false →
  bool_decide (3 ≤ length (Opponents.getHeadToHead matches a b))%nat
  && negb (Opponents.canHaveBestOfThreeRematch matches a b) = true.
Proof.
  intros Hcp.
  assert (Hlen : (3 ≤ length (Opponents.getHeadToHead matches a b))%nat).
  { rewrite getHeadToHead_eq. rewrite canPlay_cases in Hcp. simpl in Hcp.
    case_bool_decide; [done|lia]. }
  rewrite bool_decide_eq_true_2 by done. simpl.
  destruct (decide (length (Opponents.getHeadToHead matches a b) = 3%nat)) as [H3|H3].
  - by rewrite canHaveBestOfThreeRematch_canPlay, Hcp.
  - unfold Opponents.canHaveBestOfThreeRematch. simpl.
    by rewrite bool_decide_eq_true_2.
Qed.

(** The loop of [getOpponentAvailabilityStats], from any value of the
    counters. *)
Lemma foldl_availabilityStep (matches : list Matches.Match) (studentId : string)
    (targetStudent : Students.Student) (margin : Z)
    (roster : list Students.Student) (c : Opponents.AvailabilityCounters) :
  let other (o : Students.Student) := Students.id o ≠ studentId in
  let near (o : Students.Student) :=
    Z.abs (Students.score targetStudent - Students.score o) ≤ margin in
  let allowed (o : Students.Student) :=
    Matches.canPlay matches studentId (Students.id o) = true in
  let c' := foldl (Opponents.availabilityStep matches studentId targetStudent
                     margin) c roster in
  Opponents.cntWithinMargin c' =
    Opponents.cntWithinMargin c +
    Z.of_nat (length (filter (λ o, other o ∧ near o) roster)) ∧
  Opponents.cntExcludedByScore c' =
    Opponents.cntExcludedByScore c +
    Z.of_nat (length (filter (λ o, other o ∧ ¬ near o) roster)) ∧
  Opponents.cntExcludedByMatchLimit c' =
    Opponents.cntExcludedByMatchLimit c +
    Z.of_nat (length (filter (λ o, (other o ∧ near o) ∧ ¬ allowed o) roster)).
Proof.
  simpl. revert c. induction roster as [|o l IH]; intros c.
  - simpl. lia.
  - cbn [foldl]. rewrite !(filter_cons _ o).
    destruct (IH (Opponents.availabilityStep matches studentId targetStudent
                    margin c o)) as (IH1 & IH2 & IH3).
    rewrite IH1, IH2, IH3. clear IH IH1 IH2 IH3.
    unfold Opponents.availabilityStep, Opponents.isScoreWithinMargin.
    destruct (decide (Students.id o = studentId)) as [Hid|Hid].
    { rewrite bool_decide_eq_true_2 by done.
      rewrite !decide_False by tauto. lia. }
    rewrite (bool_decide_eq_false_2 _ Hid).
    destruct (decide (Z.abs (Students.score targetStudent - Students.score o)
                      ≤ margin)) as [Hm|Hm].
    + rewrite (bool_decide_eq_true_2 _ Hm). cbn [negb].
      destruct (Matches.canPlay matches studentId (Students.id o)) eqn:Hcp;
        cbn [negb].
      * rewrite (decide_True (P := _ ∧ Z.abs _ ≤ _)) by done.
        rewrite (decide_False (P := _ ∧ ¬ Z.abs _ ≤ _)) by tauto.
        rewrite (decide_False (P := (_ ∧ _) ∧ _)) by (intros [_ []]; done).
        simpl. lia.
      * rewrite (canPlay_false_limit _ _ _ Hcp).
        rewrite (decide_True (P := _ ∧ Z.abs _ ≤ _)) by done.
        rewrite (decide_False (P := _ ∧ ¬ Z.abs _ ≤ _)) by tauto.
        rewrite (decide_True (P := (_ ∧ _) ∧ _)) by (split; [done|congruence]).
        simpl. lia.
    + rewrite (bool_decide_eq_false_2 _ Hm). cbn [negb].
      rewrite (decide_False (P := _ ∧ Z.abs _ ≤ _)) by tauto.
      rewrite (decide_True (P := _ ∧ ¬ Z.abs _ ≤ _)) by done.
      rewrite (decide_False (P := (_ ∧ _) ∧ _)) by tauto.
      simpl. lia.
Qed.

Lemma filter_id_absent (roster : list Students.Student) (studentId : string) :
  studentId ∉ Students.id <$> roster →
  filter (λ o, Students.id o = studentId) roster = [].
Proof.
  intros Hnot. apply elem_of_nil_inv. intros o [Hid Ho]%list_elem_of_filter.
  apply Hnot. rewrite <- Hid. by apply list_elem_of_fmap_2.
Qed.

Lemma length_filter_other_id (roster : list Students.Student) (studentId : string) :
  NoDup (Students.id <$> roster) → studentId ∈ Students.id <$> roster →
  (length (filter (λ o, Students.id o ≠ studentId) roster) + 1
   = length roster)%nat.
Proof.
  intros Hnd Hin.
  rewrite <- (length_filter_split (λ o, Students.id o = studentId) roster).
  assert (length (filter (λ o, Students.id o = studentId) roster) = 1%nat) as ->;
    [|lia].
  induction roster as [|s l IH]; [by apply elem_of_nil in Hin|].
  rewrite fmap_cons, NoDup_cons in Hnd. destruct Hnd as [Hs Hnd].
  rewrite fmap_cons, elem_of_cons in Hin. rewrite filter_cons.
  destruct (decide (Students.id s = studentId)) as [Heq|Hne].
  - rewrite filter_id_absent; [done|]. by rewrite <- Heq.
  - destruct Hin as [->|Hin]; [done|]. by apply IH.
Qed.

Lemma array_find_id_Some (roster : list Students.Student) (studentId : string)
    (t : Students.Student) :
  array_find (λ s, bool_decide (Students.id s = studentId)) roster = Some t →
  t ∈ roster ∧ Students.id t = studentId.
Proof.
  intros Hf. apply find_some in Hf as [Hin Hid].
  split; [by apply list_elem_of_In|by apply bool_decide_eq_true in Hid].
Qed.

Lemma array_find_id_is_Some (roster : list Students.Student) (studentId : string) :
  studentId ∈ Students.id <$> roster →
  is_Some (array_find (λ s, bool_decide (Students.id s = studentId)) roster).
Proof.
  intros (s & -> & Hs)%list_elem_of_fmap. unfold array_find.
  destruct (find _ roster) eqn:Hf; [done|].
  apply list_elem_of_In in Hs. eapply find_none in Hf; [|done].
  simpl in Hf. by rewrite bool_decide_eq_true_2 in Hf.
Qed.

Lemma getEligibleOpponents_filter (roster : list Students.Student)
    (matches : list Matches.Match) (studentId : string) (margin : Z)
    (t : Students.Student) :
  array_find (λ s, bool_decide (Students.id s = studentId)) roster = Some t →
  Opponents.getEligibleOpponents roster matches studentId margin =
  filter (λ o, (Students.id o ≠ studentId ∧
                Z.abs (Students.score t - Students.score o) ≤ margin) ∧
               Matches.canPlay matches studentId (Students.id o) = true)
         roster.
Proof.
  intros Hf. unfold Opponents.getEligibleOpponents. rewrite Hf.
  apply list_filter_iff. intros o.
  rewrite Is_true_true, isEligibleOpponent_true. tauto.
Qed.

(** X8. The availability statistics of a student add up: the opponents
    within the margin are the eligible ones plus those excluded by the
    match limit; and, in a roster with unique ids that lists the student,
    the opponents within the margin plus those excluded by score are all
    the other students. For an unknown student every field is zero. *)
Theorem availabilityStats_add_up (roster : list Students.Student)
    (matches : list Matches.Match) (studentId : string) (margin : Z) :
  let st := Opponents.getOpponentAvailabilityStats roster matches studentId
              margin in
  Opponents.eligibleOpponents st + Opponents.excludedByMatchLimit st =
    Opponents.withinMargin st ∧
  (NoDup (Students.id <$> roster) → studentId ∈ Students.id <$> roster →
   Opponents.withinMargin st + Opponents.excludedByScore st =
     Opponents.totalStudents st ∧
   Opponents.totalStudents st = Z.of_nat (length roster) - 1) ∧
  (studentId ∉ Students.id <$> roster →
   st = Opponents.mkAvailability 0 0 0 0 0).
Proof.
  intros st. subst st. unfold Opponents.getOpponentAvailabilityStats.
  destruct (array_find _ roster) as [t|] eqn:Hf.
  - destruct (foldl_availabilityStep matches studentId t margin roster
                (Opponents.mkAvailabilityCounters 0 0 0)) as (Hw & Hs & Hl).
    simpl in Hw, Hs, Hl. simpl. rewrite Hw, Hs, Hl.
    rewrite (getEligibleOpponents_filter _ _ _ _ _ Hf).
    split; [|split].
    + pose proof (length_filter_and_split
        (λ o, Students.id o ≠ studentId ∧
              Z.abs (Students.score t - Students.score o) ≤ margin)
        (λ o, Matches.canPlay matches studentId (Students.id o) = true)
        roster). lia.
    + intros Hnd Hin.
      pose proof (length_filter_and_split
        (λ o, Students.id o ≠ studentId)
        (λ o, Z.abs (Students.score t - Students.score o) ≤ margin) roster).
      pose proof (length_filter_other_id roster studentId Hnd Hin). lia.
    + intros Hnot. apply array_find_id_Some in Hf as [Ht <-].
      exfalso. apply Hnot. by apply list_elem_of_fmap_2.
  - simpl. split; [done|]. split; [|done].
    intros _ [t Ht]%array_find_id_is_Some. congruence.
Qed.

Lemma availabilityStats_add_up_witness :
  Opponents.withinMargin
    (Opponents.getOpponentAvailabilityStats Sample.pool Sample.threeNil "1" 1) +
  Opponents.excludedByScore
    (Opponents.getOpponentAvailabilityStats Sample.pool Sample.threeNil "1" 1)
  = 2 ∧
  Opponents.getOpponentAvailabilityStats Sample.pool [] "ghost" 1
    = Opponents.mkAvailability 0 0 0 0 0.
Proof.
  destruct (availabilityStats_add_up Sample.pool Sample.threeNil "1" 1)
    as (_ & Hall & _).
  destruct (availabilityStats_add_up Sample.pool [] "ghost" 1) as (_ & _ & Hz).
  split.
  - destruct Hall as [H1 H2].
    + apply (bool_decide_unpack _). vm_compute. exact I.
    + apply (bool_decide_unpack _). vm_compute. exact I.
    + rewrite H1, H2. reflexivity.
  - apply Hz. apply (bool_decide_unpack _). vm_compute. exact I.
Defined.

(** The head of the head-to-head records sorted by descending date is the
    latest of them. *)
Lemma lastMatch_latest (l : list Matches.Match) :
  let lastMatch :=
    if bool_decide (0 < length l)%nat
    then head (array_sort (λ a b, Matches.date b - Matches.date a) l)
    else None in
  (Matches.date <$> lastMatch = None ↔ l = []) ∧
  ∀ t, Matches.date <$> lastMatch = Some t →
       (∃ m, m ∈ l ∧ Matches.date m = t) ∧ ∀ m, m ∈ l → Matches.date m ≤ t.
Proof.
  simpl. destruct l as [|x l]; [by split|].
  rewrite bool_decide_eq_true_2 by (simpl; lia).
  destruct (head (array_sort _ (x :: l))) as [m|] eqn:Hm.
  - split; [by split|]. intros t [= <-].
    rewrite head_lookup in Hm. split.
    + exists m. split; [|done]. apply list_elem_of_lookup_2 in Hm.
      unfold array_sort in Hm. by apply array_sort_by_elem_of in Hm.
    + intros m' Hm'.
      pose proof (array_sort_head_least
                    (λ a b, Matches.date b - Matches.date a) (x :: l) m m')
        as Hleast.
      simpl in Hleast. cut (Matches.date m' - Matches.date m ≤ 0); [lia|].
      apply Hleast; try done; intros; lia.
  - exfalso. rewrite head_lookup in Hm. apply lookup_ge_None in Hm.
    unfold array_sort in Hm. rewrite array_sort_by_length in Hm.
    simpl in Hm. lia.
Qed.

Lemma canPlay_true_count (matches : list Matches.Match) (a b : string) :
  Matches.canPlay matches a b = true →
  (length (Matches.getMatchesBetweenStudents matches a b) ≤ 3)%nat.
Proof.
  rewrite canPlay_cases. simpl. repeat case_bool_decide; done || lia.
Qed.

(** X9. Every entry of the ranked opponents of a student counts at most 3
    head-to-head records; its [lastPlayed] is absent exactly when the two
    never played, and otherwise is the date of one of their records, no
    earlier than any other. *)
Theorem rankedOpponents_details (roster : list Students.Student)
    (matches : list Matches.Match) (studentId : string) (margin : Z)
    (d : Opponents.OpponentDetails) :
  d ∈ Opponents.getEligibleOpponentsWithDetails roster matches studentId margin →
  let between :=
    Matches.getMatchesBetweenStudents matches studentId
      (Students.id (Opponents.student d)) in
  Opponents.matchCount d = Z.of_nat (length between) ∧
  0 ≤ Opponents.matchCount d ≤ 3 ∧
  (Opponents.lastPlayed d = None ↔ Opponents.matchCount d = 0) ∧
  ∀ t, Opponents.lastPlayed d = Some t →
       (∃ m, m ∈ between ∧ Matches.date m = t) ∧
       ∀ m, m ∈ between → Matches.date m ≤ t.
Proof.
  unfold Opponents.getEligibleOpponentsWithDetails.
  destruct (array_find _ roster) as [t|]; [|by intros ?%elem_of_nil].
  unfold array_sort. rewrite array_sort_by_elem_of, list_elem_of_fmap.
  intros (o & -> & Ho). unfold Opponents.detailsOf.
  cbn [Opponents.student Opponents.matchCount Opponents.lastPlayed].
  rewrite getHeadToHead_eq.
  set (between := Matches.getMatchesBetweenStudents matches studentId
                    (Students.id o)).
  destruct (lastMatch_latest between) as [Hnone Hsome]. simpl in Hnone, Hsome.
  pose proof (canPlay_true_count _ _ _ (eligible_canPlay _ _ _ _ _ Ho)) as Hle.
  fold between in Hle.
  split; [done|]. split; [lia|]. split; [|done].
  rewrite Hnone. destruct between; simpl; split; done || lia.
Qed.

Lemma rankedOpponents_details_witness :
  Opponents.lastPlayed
    (Opponents.detailsOf Sample.twoOne "1" Sample.alice Sample.bob) = Some 30 ∧
  ∀ m, m ∈ Matches.getMatchesBetweenStudents Sample.twoOne "1" "2" →
       Matches.date m ≤ 30.
Proof.
  assert (Hd : Opponents.detailsOf Sample.twoOne "1" Sample.alice Sample.bob ∈
               Opponents.getEligibleOpponentsWithDetails Sample.pool
                 Sample.twoOne "1" 1).
  { vm_compute. by left. }
  destruct (rankedOpponents_details Sample.pool Sample.twoOne "1" 1 _ Hd)
    as (_ & _ & _ & Hlast).
  split; [reflexivity|]. by apply (Hlast 30).
Defined.

(** X10. [getMatchRecommendationsWithDetails] describes the pairings of
    the round, in order; each comes with the number of records between its
    two students, at most 3, and with the date of the latest of them,
    absent exactly when there is none. *)
Theorem recommendation_details (random : nat → nat)
    (roster : list Students.Student) (matches : list Matches.Match)
    (students : list Students.Student) (margin : Z) :
  let detailed :=
    MatchRecommendations.WithDetails.getMatchRecommendationsWithDetails random
      roster matches students margin in
  MatchRecommendations.WithDetails.recommendation <$> detailed =
    MatchRecommendations.getMatchRecommendations random roster matches students
      margin ∧
  ∀ d, d ∈ detailed →
    let r := MatchRecommendations.WithDetails.recommendation d in
    let between :=
      Matches.getMatchesBetweenStudents matches
        (Students.id (MatchRecommendations.playerA r))
        (Students.id (MatchRecommendations.playerB r)) in
    MatchRecommendations.WithDetails.matchCount d = Z.of_nat (length between) ∧
    0 ≤ MatchRecommendations.WithDetails.matchCount d ≤ 3 ∧
    (MatchRecommendations.WithDetails.lastPlayed d = None ↔
     MatchRecommendations.WithDetails.matchCount d = 0) ∧
    ∀ t, MatchRecommendations.WithDetails.lastPlayed d = Some t →
         (∃ m, m ∈ between ∧ Matches.date m = t) ∧
         ∀ m, m ∈ between → Matches.date m ≤ t.
Proof.
  intros detailed. subst detailed.
  unfold MatchRecommendations.WithDetails.getMatchRecommendationsWithDetails.
  split.
  { rewrite <- list_fmap_compose.
    rewrite <- (list_fmap_id (MatchRecommendations.getMatchRecommendations _ _ _ _ _)) at 2.
    by apply list_fmap_ext. }
  intros d (r & -> & Hr)%list_elem_of_fmap.
  unfold MatchRecommendations.WithDetails.describe.
  cbn [MatchRecommendations.WithDetails.recommendation
       MatchRecommendations.WithDetails.matchCount
       MatchRecommendations.WithDetails.lastPlayed].
  rewrite getHeadToHead_eq.
  set (between := Matches.getMatchesBetweenStudents matches
                    (Students.id (MatchRecommendations.playerA r))
                    (Students.id (MatchRecommendations.playerB r))).
  assert (Hle : (length between ≤ 3)%nat).
  { apply canPlay_true_count.
    destruct (decide (length students < 2)%nat) as [Hsmall|Hlen].
    { unfold MatchRecommendations.getMatchRecommendations in Hr.
      rewrite bool_decide_eq_true_2 in Hr by done. by apply elem_of_nil in Hr. }
    destruct (recommendations_progress random roster matches students margin Hlen)
      as (st & Heq & (_ & _ & Hrecs)).
    rewrite Heq in Hr. apply list_elem_of_split in Hr as (pre & post & Hr).
    destruct (Hrecs pre r post Hr) as (_ & HB & _).
    by eapply eligible_canPlay. }
  destruct (lastMatch_latest between) as [Hnone Hsome]. simpl in Hnone, Hsome.
  split; [done|]. split; [lia|]. split; [|done].
  rewrite Hnone. destruct between; simpl; split; done || lia.
Qed.

Lemma recommendation_details_witness :
  MatchRecommendations.WithDetails.matchCount
    (MatchRecommendations.WithDetails.describe Sample.twoOne
       (MatchRecommendations.mkRecommendation Sample.alice Sample.bob 1)) = 3.
Proof.
  destruct (recommendation_details (λ i, i) Sample.pool Sample.twoOne
              Sample.pool 1) as [_ Hall].
  destruct (Hall (MatchRecommendations.WithDetails.describe Sample.twoOne
                    (MatchRecommendations.mkRecommendation Sample.alice
                       Sample.bob 1))) as (Hcount & _).
  - vm_compute. by left.
  - rewrite Hcount. reflexivity.
Defined.

Lemma compareDetails_consistent :
  (∀ a, Opponents.compareDetails a a ≤ 0) ∧
  (∀ a b, 0 < Opponents.compareDetails a b → Opponents.compareDetails b a ≤ 0) ∧
  (∀ a b c, Opponents.compareDetails a b ≤ 0 →
            Opponents.compareDetails b c ≤ 0 →
            Opponents.compareDetails a c ≤ 0).
Proof.
  split; [|split].
  - intros a. apply compareDetails_le. unfold Spec.detailsOrder. lia.
  - intros a b. unfold Opponents.compareDetails. repeat case_bool_decide; lia.
  - intros a b c. rewrite !compareDetails_le. unfold Spec.detailsOrder. lia.
Qed.

(** X11. A student has eligible opponents exactly when a best opponent is
    recommended; the best opponent is then one of the eligible opponents,
    none of which is closer in score, and none of which at the same score
    difference has fewer records against the student. *)
Theorem bestOpponent_is_closest (roster : list Students.Student)
    (matches : list Matches.Match) (studentId : string) (margin : Z) :
  (Opponents.hasEligibleOpponents roster matches studentId margin = true ↔
   is_Some (Opponents.getBestOpponentRecommendation roster matches studentId
              margin)) ∧
  ∀ best,
    Opponents.getBestOpponentRecommendation roster matches studentId margin
      = Some best →
    best ∈ Opponents.getEligibleOpponents roster matches studentId margin ∧
    ∃ targetStudent,
      array_find (λ s, bool_decide (Students.id s = studentId)) roster
        = Some targetStudent ∧
      ∀ o, o ∈ Opponents.getEligibleOpponents roster matches studentId margin →
        let diff s := Z.abs (Students.score targetStudent - Students.score s) in
        let count s :=
          Spec.headToHeadCount matches studentId (Students.id s) in
        diff best < diff o ∨ (diff best = diff o ∧ count best ≤ count o).
Proof.
  rewrite getBestOpponentRecommendation_head.
  unfold Opponents.hasEligibleOpponents,
    Opponents.getEligibleOpponentsWithDetails.
  destruct (array_find _ roster) as [t|] eqn:Hf.
  2: { unfold Opponents.getEligibleOpponents. rewrite Hf. simpl. split.
       - split; [done|by intros [? ?]].
       - done. }
  set (eligible := Opponents.getEligibleOpponents roster matches studentId margin).
  set (ranked := array_sort Opponents.compareDetails
                   (Opponents.detailsOf matches studentId t <$> eligible)).
  assert (Hlen : length ranked = length eligible).
  { unfold ranked, array_sort. by rewrite array_sort_by_length, length_fmap. }
  split.
  - rewrite bool_decide_eq_true, <- Hlen.
    destruct ranked; simpl; split; try lia; try done.
  - intros best Hbest.
    destruct (head ranked) as [d|] eqn:Hd; [|done].
    injection Hbest as <-. rewrite head_lookup in Hd.
    assert (Hin : d ∈ Opponents.detailsOf matches studentId t <$> eligible).
    { apply list_elem_of_lookup_2 in Hd. unfold ranked, array_sort in Hd.
      by apply array_sort_by_elem_of in Hd. }
    apply list_elem_of_fmap in Hin as (b & -> & Hb).
    split; [done|]. exists t. split; [done|]. intros o Ho.
    destruct compareDetails_consistent as (Hrefl & Htot & Htrans).
    pose proof (array_sort_head_least Opponents.compareDetails _ _
                  (Opponents.detailsOf matches studentId t o)
                  Hrefl Htot Htrans Hd) as Hleast.
    apply compareDetails_le in Hleast; [|by apply list_elem_of_fmap_2].
    unfold Spec.detailsOrder, Opponents.detailsOf in Hleast.
    cbn [Opponents.scoreDifference Opponents.matchCount] in Hleast.
    rewrite !getHeadToHead_eq in Hleast. simpl.
    unfold Spec.headToHeadCount. done.
Qed.

Lemma bestOpponent_is_closest_witness :
  Sample.bob ∈ Opponents.getEligibleOpponents Sample.pool [] "1" 1.
Proof.
  destruct (bestOpponent_is_closest Sample.pool [] "1" 1) as [_ Hbest].
  apply (Hbest Sample.bob). reflexivity.
Defined.

(** X12. The top-N recommendations are eligible opponents, and they are
    the ranked sequence with some opponents dropped from its end. With a
    limit of 0 or more there are as many as the limit allows, and with a
    limit of 1 or more the first of them is the best opponent. A negative
    limit instead drops that many opponents from the end of the ranking,
    all of them when there are fewer. *)
Theorem opponentRecommendations_top (roster : list Students.Student)
    (matches : list Matches.Match) (studentId : string) (margin limit : Z) :
  let eligible :=
    Opponents.getEligibleOpponents roster matches studentId margin in
  let top :=
    Opponents.getOpponentRecommendations roster matches studentId margin limit in
  (∀ o, o ∈ top → o ∈ eligible) ∧
  (0 ≤ limit → length top = Nat.min (Z.to_nat limit) (length eligible)) ∧
  (1 ≤ limit →
   head top =
   Opponents.getBestOpponentRecommendation roster matches studentId margin) ∧
  (limit < 0 →
   length top = Z.to_nat (Z.of_nat (length eligible) + limit)) ∧
  (∃ dropped,
     Opponents.student <$>
       Opponents.getEligibleOpponentsWithDetails roster matches studentId margin
     = top ++ dropped ∧
     (limit < 0 →
      length dropped = Nat.min (Z.to_nat (- limit)) (length eligible))).
Proof.
  intros eligible top. subst top.
  unfold Opponents.getOpponentRecommendations. simpl.
  rewrite getBestOpponentRecommendation_head.
  set (ranked := Opponents.getEligibleOpponentsWithDetails roster matches
                   studentId margin).
  assert (Hperm : Opponents.student <$> ranked ≡ₚ eligible).
  { unfold ranked, eligible, Opponents.getEligibleOpponentsWithDetails.
    destruct (array_find _ roster) eqn:Hf.
    - unfold array_sort. rewrite array_sort_by_perm.
      generalize (Opponents.getEligibleOpponents roster matches studentId margin).
      intros l. induction l as [|o l IH]; [done|].
      rewrite !fmap_cons. by apply Permutation_skip.
    - unfold Opponents.getEligibleOpponents. by rewrite Hf. }
  assert (Hlen : length ranked = length eligible).
  { by rewrite <- Hperm, length_fmap. }
  unfold array_slice0. split; [|split; [|split; [|split]]].
  - intros o (d & -> & Hd)%list_elem_of_fmap. rewrite <- Hperm.
    apply list_elem_of_fmap_2.
    case_bool_decide; by apply elem_of_take in Hd as (? & ?%list_elem_of_lookup_2 & _).
  - intros Hl. rewrite bool_decide_eq_false_2 by lia.
    by rewrite length_fmap, length_take, Hlen.
  - intros Hl. rewrite bool_decide_eq_false_2 by lia.
    destruct ranked as [|d ds]; [by rewrite take_nil|].
    destruct (Z.to_nat limit) as [|n] eqn:Hn; [lia|done].
  - intros Hl. rewrite bool_decide_eq_true_2 by lia.
    rewrite length_fmap, length_take, Hlen. lia.
  - case_bool_decide as Hl.
    + exists (Opponents.student <$>
                drop (Z.to_nat (Z.of_nat (length ranked) + limit)) ranked).
      split.
      * by rewrite <- fmap_app, take_drop.
      * intros _. rewrite length_fmap, length_drop, Hlen. lia.
    + exists (Opponents.student <$> drop (Z.to_nat limit) ranked).
      split; [by rewrite <- fmap_app, take_drop|lia].
Qed.

Lemma opponentRecommendations_top_witness :
  length (Opponents.getOpponentRecommendations Sample.tiedPool [] "t" 1 1)
    = 1%nat ∧
  length (Opponents.getOpponentRecommendations Sample.tiedPool [] "t" 1 (-1))
    = 1%nat.
Proof.
  destruct (opponentRecommendations_top Sample.tiedPool [] "t" 1 1)
    as (_ & Hpos & _).
  destruct (opponentRecommendations_top Sample.tiedPool [] "t" 1 (-1))
    as (_ & _ & _ & Hneg & _).
  split.
  - rewrite Hpos by lia. reflexivity.
  - rewrite Hneg by lia. reflexivity.
Defined.

(** ** The leaderboard, further *)

Lemma getLeaderboard_students (localeCompare : string → string → Z)
    (students : list Students.Student) (matches : list Matches.Match) :
  Leaderboard.student <$> Leaderboard.getLeaderboard localeCompare students matches
  ≡ₚ students.
Proof.
  unfold Leaderboard.getLeaderboard, array_sortQ. rewrite array_sort_by_perm.
  induction students as [|s l IH]; [done|].
  rewrite !fmap_cons. by apply Permutation_skip.
Qed.

(** X13. [getStudentRank] returns -1 exactly for an id that no student
    bears; otherwise it returns a position between 1 and the number of
    students, the first one of the leaderboard whose student bears the
    id. *)
Theorem getStudentRank_range (localeCompare : string → string → Z)
    (studentId : string) (students : list Students.Student)
    (matches : list Matches.Match) :
  let rank := Leaderboard.getStudentRank localeCompare studentId students
                matches in
  let board := Leaderboard.getLeaderboard localeCompare students matches in
  (rank = -1 ↔ studentId ∉ Students.id <$> students) ∧
  (studentId ∈ Students.id <$> students →
   1 ≤ rank ≤ Z.of_nat (length students) ∧
   ∃ e, board !! Z.to_nat (rank - 1) = Some e ∧
        Students.id (Leaderboard.student e) = studentId ∧
        ∀ j e', board !! j = Some e' → (Z.of_nat j < rank - 1) →
                Students.id (Leaderboard.student e') ≠ studentId).
Proof.
  intros rank board. subst rank. unfold Leaderboard.getStudentRank. simpl.
  fold board.
  assert (Hids : ∀ x, x ∈ Students.id <$> students ↔
            ∃ e, e ∈ board ∧ Students.id (Leaderboard.student e) = x).
  { intros x.
    rewrite <- (getLeaderboard_students localeCompare students matches).
    fold board. rewrite <- list_fmap_compose, list_elem_of_fmap. naive_solver. }
  assert (Hlen : length board = length students).
  { by rewrite <- (getLeaderboard_students localeCompare students matches),
      length_fmap. }
  destruct (list_find _ board) as [[i e]|] eqn:Hfind.
  - apply list_find_Some in Hfind as (Hi & He & Hfirst).
    pose proof (lookup_lt_Some _ _ _ Hi) as Hlt.
    split.
    + split; [intros ?; lia|]. intros Hnot. exfalso. apply Hnot, Hids.
      exists e. split; [by eapply list_elem_of_lookup_2|done].
    + intros _. split; [lia|]. exists e.
      replace (Z.to_nat (Z.of_nat i + 1 - 1)) with i by lia.
      split; [done|]. split; [done|].
      intros j e' Hj Hlt'. apply (Hfirst j e' Hj). lia.
  - apply list_find_None in Hfind. rewrite Forall_forall in Hfind.
    assert (Hnot : studentId ∉ Students.id <$> students).
    { intros (e & He & Hid)%Hids. by apply (Hfind e). }
    split; [done|]. intros Hin. done.
Qed.

Lemma getStudentRank_range_witness :
  1 ≤ Leaderboard.getStudentRank Sample.compareNames "2" Sample.pool
        Sample.twoOne ≤ 3 ∧
  Leaderboard.getStudentRank Sample.compareNames "ghost" Sample.pool
    Sample.twoOne = -1.
Proof.
  destruct (getStudentRank_range Sample.compareNames "2" Sample.pool
              Sample.twoOne) as [_ Hin].
  destruct (getStudentRank_range Sample.compareNames "ghost" Sample.pool
              Sample.twoOne) as [Hout _].
  split.
  - apply Hin. apply (bool_decide_unpack _). vm_compute. exact I.
  - apply Hout. apply (bool_decide_unpack _). vm_compute. exact I.
Defined.

(** X14. The counters of [calculateStudentStats] are never negative and
    the win rate is a percentage between 0 and 100. *)
Theorem calculateStudentStats_bounds (studentId : string)
    (matches : list Matches.Match) :
  let s := Leaderboard.calculateStudentStats studentId matches in
  0 ≤ Leaderboard.wins s ∧ 0 ≤ Leaderboard.losses s ∧
  Leaderboard.wins s ≤ Leaderboard.totalMatches s ∧
  (0 <= Leaderboard.winRate s)%Q ∧ (Leaderboard.winRate s <= 100)%Q.
Proof.
  intros s.
  destruct (calculateStudentStats_fields studentId matches) as (Hw & Hl & Ht).
  pose proof (calculateStudentStats_winRate studentId matches) as Hr.
  cbv zeta in Hr. fold s in Hw, Hl, Ht, Hr. clearbody s.
  assert (H0w : 0 ≤ Leaderboard.wins s) by lia.
  assert (Hwt : Leaderboard.wins s ≤ Leaderboard.totalMatches s).
  { rewrite Hw, Ht. apply inj_le, length_filter. }
  split; [done|]. split; [lia|]. split; [done|].
  rewrite Hr.
  unfold Spec.winRateOf. case_bool_decide as Hz; [split; lra|].
  assert (Hpos : 0 < Leaderboard.totalMatches s) by lia.
  assert (HposQ : (0 < inject_Z (Leaderboard.totalMatches s))%Q).
  { by rewrite (Zlt_Qlt 0) in Hpos. }
  assert (H0wQ : (0 <= inject_Z (Leaderboard.wins s))%Q).
  { by rewrite (Zle_Qle 0) in H0w. }
  assert (HwtQ : (inject_Z (Leaderboard.wins s) <=
                  inject_Z (Leaderboard.totalMatches s))%Q).
  { by rewrite Zle_Qle in Hwt. }
  assert (Hq0 : (0 <= inject_Z (Leaderboard.wins s) /
                      inject_Z (Leaderboard.totalMatches s))%Q).
  { apply Qle_shift_div_l; [done|]. lra. }
  assert (Hq1 : (inject_Z (Leaderboard.wins s) /
                 inject_Z (Leaderboard.totalMatches s) <= 1)%Q).
  { apply Qle_shift_div_r; [done|]. lra. }
  split; lra.
Qed.

(** X15. [getTopStudents] with a limit of 0 or more returns the first
    entries of the leaderboard, as many as the limit allows. *)
Theorem getTopStudents_prefix (localeCompare : string → string → Z)
    (students : list Students.Student) (matches : list Matches.Match)
    (limit : Z) :
  0 ≤ limit →
  let board := Leaderboard.getLeaderboard localeCompare students matches in
  let top := Leaderboard.getTopStudents localeCompare students matches limit in
  top = take (Z.to_nat limit) board ∧
  top `prefix_of` board ∧
  length top = Nat.min (Z.to_nat limit) (length students).
Proof.
  intros Hl board top. subst top. unfold Leaderboard.getTopStudents, array_slice0.
  rewrite bool_decide_eq_false_2 by lia. fold board.
  split; [done|]. split; [apply prefix_take|].
  rewrite length_take. f_equal.
  by rewrite <- (getLeaderboard_students localeCompare students matches),
    length_fmap.
Qed.

Lemma getTopStudents_prefix_witness :
  length (Leaderboard.getTopStudents Sample.compareNames Sample.pool
            Sample.twoOne 2) = 2%nat.
Proof.
  destruct (getTopStudents_prefix Sample.compareNames Sample.pool
              Sample.twoOne 2) as (_ & _ & Hlen).
  - lia.
  - rewrite Hlen. reflexivity.
Defined.

(** ** The students module, further *)

(** X16. [getStudentsSortedByScore] returns the students of the roster,
    each once, by ascending score when asked so and by descending score
    otherwise; students with equal scores stay in roster order. *)
Theorem getStudentsSortedByScore_sorted (roster : list Students.Student)
    (ascending : bool) :
  let sorted := Students.getStudentsSortedByScore roster ascending in
  sorted ≡ₚ roster ∧
  StronglySorted
    (λ a b, if ascending then Students.score a ≤ Students.score b
            else Students.score b ≤ Students.score a) sorted ∧
  ∀ n, filter (λ s, Students.score s = n) sorted =
       filter (λ s, Students.score s = n) roster.
Proof.
  intros sorted. subst sorted. unfold Students.getStudentsSortedByScore.
  split; [apply array_sort_by_perm|]. split.
  - eapply StronglySorted_weaken; [|apply array_sort_sorted].
    + intros a b _ _. simpl. destruct ascending; lia.
    + intros a b. destruct ascending; lia.
    + intros a b c. destruct ascending; lia.
  - intros n. apply array_sort_by_stable. intros a b Ha Hb.
    apply bool_decide_eq_true. destruct ascending; lia.
Qed.

(** [find] returns the first element that passes the test. *)
Lemma array_find_first {A} (p : A → bool) (l : list A) (i : nat) (x : A) :
  l !! i = Some x → p x = true →
  (∀ j y, l !! j = Some y → (j < i)%nat → p y = false) →
  array_find p l = Some x.
Proof.
  unfold array_find. revert i. induction l as [|y l IH]; intros i Hi Hx Hfirst.
  - done.
  - destruct i as [|i]; simpl in *.
    + injection Hi as ->. by rewrite Hx.
    + rewrite (Hfirst 0%nat y) by (done || lia).
      apply (IH i); [done|done|]. intros j z Hj Hlt.
      apply (Hfirst (S j) z); [done|lia].
Qed.

Lemma list_find_id_None (students : list Students.Student) (reqId : string) :
  list_find (λ s, Students.id s = reqId) students = None ↔
  reqId ∉ Students.id <$> students.
Proof.
  rewrite list_find_None, Forall_forall, list_elem_of_fmap. naive_solver.
Qed.

(** X17. The PUT handler of the students API answers 404 and leaves the
    array alone when no student bears the id. Otherwise it rewrites the
    first student bearing the id, with the trimmed name and the score of
    the request: ids and their order are kept, every student with another
    id is still there, and looking the id up afterwards finds the rewritten
    student. *)
Theorem students_PUT_effect (trim : string → string)
    (students : list Students.Student) (reqId reqName : string) (reqScore : Z) :
  let result := Students.Api.PUT trim students reqId reqName reqScore in
  (reqId ∉ Students.id <$> students →
   result = (Students.Api.Failure 404 "Student not found", students)) ∧
  (reqId ∈ Students.id <$> students →
   let updated := Students.mkStudent reqId (trim reqName) reqScore in
   result.1 = Students.Api.Json updated ∧
   Students.id <$> result.2 = Students.id <$> students ∧
   Students.getStudentById result.2 reqId = Some updated ∧
   ∀ s, s ∈ students → Students.id s ≠ reqId → s ∈ result.2).
Proof.
  intros result. subst result. unfold Students.Api.PUT. split.
  - intros Hnot. by rewrite (proj2 (list_find_id_None students reqId) Hnot).
  - intros Hin.
    destruct (list_find _ students) as [[i old]|] eqn:Hfind.
    2: { apply list_find_id_None in Hfind. done. }
    apply list_find_Some in Hfind as (Hi & Hid & Hfirst). simpl.
    rewrite Hid. split; [done|]. split; [|split].
    + rewrite list_fmap_insert. simpl. apply list_insert_id.
      by rewrite list_lookup_fmap, Hi, <- Hid.
    + unfold Students.getStudentById.
      apply (array_find_first _ _ i).
      * apply list_lookup_insert_eq. by eapply lookup_lt_Some.
      * by apply bool_decide_eq_true.
      * intros j y Hj Hlt. rewrite list_lookup_insert_ne in Hj by lia.
        apply bool_decide_eq_false. by eapply Hfirst.
    + intros s Hs Hne. apply list_elem_of_lookup in Hs as [j Hj].
      apply list_elem_of_lookup. exists j.
      rewrite list_lookup_insert_ne; [done|]. intros <-. congruence.
Qed.

Lemma students_PUT_effect_witness :
  Students.getStudentById
    (Students.Api.PUT (λ s, s) Sample.pool "2" "Bob" 7).2 "2"
  = Some (Students.mkStudent "2" "Bob" 7) ∧
  Students.Api.PUT (λ s, s) Sample.pool "ghost" "Bob" 7
  = (Students.Api.Failure 404 "Student not found", Sample.pool).
Proof.
  destruct (students_PUT_effect (λ s, s) Sample.pool "2" "Bob" 7) as [_ Hin].
  destruct (students_PUT_effect (λ s, s) Sample.pool "ghost" "Bob" 7)
    as [Hout _].
  split.
  - apply Hin. apply (bool_decide_unpack _). vm_compute. exact I.
  - apply Hout. apply (bool_decide_unpack _). vm_compute. exact I.
Defined.

Lemma filter_other_id_all (students : list Students.Student) (reqId : string) :
  reqId ∉ Students.id <$> students →
  filter (λ s, Students.id s ≠ reqId) students = students.
Proof.
  induction students as [|s l IH]; [done|].
  rewrite fmap_cons, not_elem_of_cons, filter_cons. intros [Hs Hl].
  rewrite decide_True by done. by rewrite IH.
Qed.

(** X18. The DELETE handler of the students API answers 404 and leaves
    the array alone when no student bears the id. Otherwise it removes
    every student bearing the id and keeps the others in order: the id can
    no longer be found. *)
Theorem students_DELETE_effect (students : list Students.Student)
    (reqId : string) :
  let result := Students.Api.DELETE students reqId in
  (reqId ∉ Students.id <$> students →
   result = (Students.Api.Failure 404 "Student not found", students)) ∧
  (reqId ∈ Students.id <$> students →
   result = (Students.Api.Json true,
             filter (λ s, Students.id s ≠ reqId) students) ∧
   result.2 `sublist_of` students ∧
   Students.getStudentById result.2 reqId = None ∧
   ∀ s, s ∈ students → Students.id s ≠ reqId → s ∈ result.2).
Proof.
  intros result. subst result. unfold Students.Api.DELETE. simpl.
  split.
  - intros Hnot. by rewrite filter_other_id_all, bool_decide_eq_true_2.
  - intros (s & -> & Hs)%list_elem_of_fmap.
    rewrite bool_decide_eq_false_2.
    2: { intros Heq.
         pose proof (length_filter_lt (λ x, Students.id x ≠ Students.id s)
                       students s Hs) as Hlt.
         rewrite Heq in Hlt. by destruct (Nat.lt_irrefl _ (Hlt ltac:(tauto))). }
    simpl. split; [done|]. split; [apply sublist_filter|]. split.
    + apply array_find_id_None. rewrite list_elem_of_fmap.
      intros (x & Hx & [Hne _]%list_elem_of_filter). done.
    + intros x Hx Hne. by apply list_elem_of_filter.
Qed.

Lemma students_DELETE_effect_witness :
  (Students.Api.DELETE Sample.pool "2").2 = [Sample.alice; Sample.carol] ∧
  Students.Api.DELETE Sample.pool "ghost"
  = (Students.Api.Failure 404 "Student not found", Sample.pool).
Proof.
  destruct (students_DELETE_effect Sample.pool "2") as [_ Hin].
  destruct (students_DELETE_effect Sample.pool "ghost") as [Hout _].
  split.
  - destruct Hin as [-> _]; [|reflexivity].
    apply (bool_decide_unpack _). vm_compute. exact I.
  - apply Hout. apply (bool_decide_unpack _). vm_compute. exact I.
Defined.

(** ** The match store, further *)

Lemma ensureStats_lookup (a k : string) (stats : gmap string Matches.PlayerStats) :
  default Matches.noStats (Matches.ensureStats a stats !! k) =
    default Matches.noStats (stats !! k) ∧
  (is_Some (Matches.ensureStats a stats !! k) ↔
   is_Some (stats !! k) ∨ k = a).
Proof.
  unfold Matches.ensureStats. case_bool_decide as Ha.
  - split; [done|]. split; [by left|]. intros [?| ->]; done.
  - rewrite lookup_insert. destruct (decide (a = k)) as [->|Hne].
    + split; [|split; [by right|done]].
      apply eq_None_not_Some in Ha. by rewrite Ha.
    + split; [done|]. split; [by left|]. intros [?| ->]; done.
Qed.

Lemma alter_lookup_present (f : Matches.PlayerStats → Matches.PlayerStats)
    (a k : string) (stats : gmap string Matches.PlayerStats) :
  is_Some (stats !! a) →
  default Matches.noStats (alter f a stats !! k) =
    (if decide (a = k) then f (default Matches.noStats (stats !! k))
     else default Matches.noStats (stats !! k)) ∧
  (is_Some (alter f a stats !! k) ↔ is_Some (stats !! k)).
Proof.
  intros [p Hp]. rewrite lookup_alter.
  destruct (decide (a = k)) as [->|Hne]; [|done].
  rewrite Hp. simpl. split; [done|]. split; done.
Qed.

(** What one record adds to the statistics held for [k]. *)
Lemma tallyMatch_lookup (stats : gmap string Matches.PlayerStats)
    (m : Matches.Match) (k : string) :
  let p := default Matches.noStats (stats !! k) in
  let p' := default Matches.noStats (Matches.tallyMatch stats m !! k) in
  let one (P : Prop) `{!Decision P} : Z := if decide P then 1 else 0 in
  Matches.wins p' =
    Matches.wins p
    + one (k = Matches.playerA m ∧ Matches.winner m = Matches.playerA m)
    + one (k = Matches.playerB m ∧ Matches.winner m ≠ Matches.playerA m) ∧
  Matches.losses p' =
    Matches.losses p
    + one (k = Matches.playerB m ∧ Matches.winner m = Matches.playerA m)
    + one (k = Matches.playerA m ∧ Matches.winner m ≠ Matches.playerA m) ∧
  Matches.total p' =
    Matches.total p + one (k = Matches.playerA m) + one (k = Matches.playerB m) ∧
  (is_Some (Matches.tallyMatch stats m !! k) ↔
   is_Some (stats !! k) ∨ k = Matches.playerA m ∨ k = Matches.playerB m).
Proof.
  simpl. unfold Matches.tallyMatch.
  set (s1 := Matches.ensureStats (Matches.playerA m) stats).
  set (s2 := Matches.ensureStats (Matches.playerB m) s1).
  destruct (ensureStats_lookup (Matches.playerA m) k stats) as [Hd1 Hs1].
  destruct (ensureStats_lookup (Matches.playerB m) k s1) as [Hd2 Hs2].
  fold s1 in Hd1, Hs1. fold s2 in Hd2, Hs2.
  assert (HA : is_Some (s2 !! Matches.playerA m)).
  { apply ensureStats_lookup. left. apply ensureStats_lookup. by right. }
  assert (HB : is_Some (s2 !! Matches.playerB m)).
  { apply ensureStats_lookup. by right. }
  assert (Hpres : ∀ (f : Matches.PlayerStats → Matches.PlayerStats) (a : string)
            (s : gmap string Matches.PlayerStats),
            is_Some (s !! Matches.playerA m) →
            is_Some (s !! Matches.playerB m) →
            is_Some (alter f a s !! Matches.playerA m) ∧
            is_Some (alter f a s !! Matches.playerB m)).
  { intros f a s ? ?. rewrite !lookup_alter.
    split; case_decide; subst; try done; by apply fmap_is_Some. }
  assert (Hkey : is_Some (s2 !! k) ↔
            is_Some (stats !! k) ∨ k = Matches.playerA m ∨ k = Matches.playerB m).
  { rewrite Hs2, Hs1. tauto. }
  rewrite <- Hd1, <- Hd2 at 1 2 3. rewrite <- Hkey. clear Hd1 Hd2 Hs1 Hs2 Hkey.
  clearbody s2. clear s1.
  case_bool_decide as Hw.
  - destruct (Hpres Matches.addWin (Matches.playerA m) s2 HA HB) as [HA1 HB1].
    destruct (Hpres Matches.addLoss (Matches.playerB m) _ HA1 HB1) as [HA2 HB2].
    destruct (Hpres Matches.addTotal (Matches.playerA m) _ HA2 HB2) as [HA3 HB3].
    destruct (alter_lookup_present Matches.addTotal (Matches.playerB m) k _ HB3)
      as [-> ->].
    destruct (alter_lookup_present Matches.addTotal (Matches.playerA m) k _ HA2)
      as [-> ->].
    destruct (alter_lookup_present Matches.addLoss (Matches.playerB m) k _ HB1)
      as [-> ->].
    destruct (alter_lookup_present Matches.addWin (Matches.playerA m) k _ HA)
      as [-> ->].
    repeat case_decide; simpl; split_and!; try done; try lia; naive_solver.
  - destruct (Hpres Matches.addWin (Matches.playerB m) s2 HA HB) as [HA1 HB1].
    destruct (Hpres Matches.addLoss (Matches.playerA m) _ HA1 HB1) as [HA2 HB2].
    destruct (Hpres Matches.addTotal (Matches.playerA m) _ HA2 HB2) as [HA3 HB3].
    destruct (alter_lookup_present Matches.addTotal (Matches.playerB m) k _ HB3)
      as [-> ->].
    destruct (alter_lookup_present Matches.addTotal (Matches.playerA m) k _ HA2)
      as [-> ->].
    destruct (alter_lookup_present Matches.addLoss (Matches.playerA m) k _ HA1)
      as [-> ->].
    destruct (alter_lookup_present Matches.addWin (Matches.playerB m) k _ HB)
      as [-> ->].
    repeat case_decide; simpl; split_and!; try done; try lia; naive_solver.
Qed.

Lemma matchStats_snoc (matches : list Matches.Match) (m : Matches.Match) :
  Matches.matchStats (matches ++ [m]) =
  Matches.tallyMatch (Matches.matchStats matches) m.
Proof. unfold Matches.matchStats. by rewrite foldl_snoc. Qed.

(** X19. The statistics the store derives for a student are consistent,
    whatever the history: wins plus losses make the total, no counter is
    negative, a student has an entry exactly when some record lists them
    as a player, and then their total is at least 1. *)
Theorem matchStats_consistent (matches : list Matches.Match) (k : string) :
  let p := Matches.getStudentMatchStats matches k in
  Matches.wins p + Matches.losses p = Matches.total p ∧
  0 ≤ Matches.wins p ∧ 0 ≤ Matches.losses p ∧
  (is_Some (Matches.matchStats matches !! k) ↔
   ∃ m, m ∈ matches ∧ (k = Matches.playerA m ∨ k = Matches.playerB m)) ∧
  (is_Some (Matches.matchStats matches !! k) → 1 ≤ Matches.total p).
Proof.
  unfold Matches.getStudentMatchStats. simpl.
  induction matches as [|m matches IH] using rev_ind.
  - unfold Matches.matchStats. simpl. rewrite lookup_empty. simpl.
    split_and!; try done.
    split; [by intros [? ?]|]. intros (m & Hm & _). by apply elem_of_nil in Hm.
  - rewrite matchStats_snoc.
    destruct (tallyMatch_lookup (Matches.matchStats matches) m k)
      as (Hw & Hl & Ht & Hk).
    destruct IH as (IH1 & IH2 & IH3 & IH4 & IH5).
    rewrite Hw, Hl, Ht, Hk, IH4. split_and!.
    + repeat case_decide; try lia; naive_solver.
    + repeat case_decide; lia.
    + repeat case_decide; lia.
    + setoid_rewrite elem_of_app. setoid_rewrite list_elem_of_singleton.
      naive_solver.
    + intros [Hold|Hnew].
      * apply IH4, IH5 in Hold. repeat case_decide; lia.
      * assert (0 ≤ Matches.total
                      (default Matches.noStats (Matches.matchStats matches !! k))).
        { lia. }
        destruct Hnew; repeat case_decide; try lia; naive_solver.
Qed.

Lemma calculateStudentStats_snoc (studentId : string)
    (matches : list Matches.Match) (m : Matches.Match) :
  let s := Leaderboard.calculateStudentStats studentId matches in
  let s' := Leaderboard.calculateStudentStats studentId (matches ++ [m]) in
  let c := Leaderboard.countMatch studentId
             (Leaderboard.wins s, Leaderboard.losses s) m in
  Leaderboard.wins s' = c.1 ∧ Leaderboard.losses s' = c.2 ∧
  Leaderboard.totalMatches s' = c.1 + c.2.
Proof.
  unfold Leaderboard.calculateStudentStats. rewrite foldl_snoc. simpl.
  by destruct (foldl _ _ matches).
Qed.

(** X20. On a history whose records join two different students and are
    won by one of them, the statistics of the store and those of the
    leaderboard agree for every student. *)
Theorem matchStats_agree_with_leaderboard (matches : list Matches.Match)
    (k : string) :
  Forall Notions.soundRecord matches →
  let p := Matches.getStudentMatchStats matches k in
  let s := Leaderboard.calculateStudentStats k matches in
  Matches.wins p = Leaderboard.wins s ∧
  Matches.losses p = Leaderboard.losses s ∧
  Matches.total p = Leaderboard.totalMatches s.
Proof.
  unfold Matches.getStudentMatchStats. cbv zeta.
  induction matches as [|m matches IH] using rev_ind; intros Hsound.
  - unfold Matches.matchStats. simpl. by rewrite lookup_empty.
  - apply Forall_app in Hsound as [Hsound Hm].
    apply Forall_singleton in Hm as [Hne Hwin].
    destruct (IH Hsound) as (IHw & IHl & IHt). clear IH.
    rewrite matchStats_snoc.
    destruct (tallyMatch_lookup (Matches.matchStats matches) m k)
      as (Hw & Hl & Ht & _).
    destruct (calculateStudentStats_snoc k matches m) as (Hw' & Hl' & Ht').
    rewrite Hw, Hl, Ht, Hw', Hl', Ht', IHw, IHl, IHt.
    pose proof (calculateStudentStats_fields k matches) as (_ & _ & Htot).
    assert (Hsum : Leaderboard.totalMatches
                     (Leaderboard.calculateStudentStats k matches)
                   = Leaderboard.wins (Leaderboard.calculateStudentStats k matches)
                     + Leaderboard.losses
                         (Leaderboard.calculateStudentStats k matches)).
    { done. }
    rewrite Hsum. unfold Leaderboard.countMatch. cbn [fst snd].
    generalize (Leaderboard.wins (Leaderboard.calculateStudentStats k matches)).
    generalize (Leaderboard.losses (Leaderboard.calculateStudentStats k matches)).
    intros l w. clear -Hne Hwin.
    destruct (decide (k = Matches.playerA m)) as [HA|HA];
      destruct (decide (k = Matches.playerB m)) as [HB|HB];
      destruct (decide (Matches.winner m = Matches.playerA m)) as [HW|HW];
      try (exfalso; congruence);
      repeat case_bool_decide; repeat case_decide; cbn [fst snd];
      try (split_and!; lia); exfalso;
      first [congruence | destruct Hwin; congruence | naive_solver].
Qed.

Lemma matchStats_agree_with_leaderboard_witness :
  Matches.wins (Matches.getStudentMatchStats Sample.twoOne "1") = 2 ∧
  Leaderboard.wins (Leaderboard.calculateStudentStats "1" Sample.twoOne) = 2.
Proof.
  assert (Hsound : Forall Notions.soundRecord Sample.twoOne).
  { repeat constructor; simpl; discriminate || auto. }
  destruct (matchStats_agree_with_leaderboard Sample.twoOne "1" Hsound)
    as (Hw & _).
  split; [rewrite Hw|]; reflexivity.
Defined.

Lemma matchStats_consistent_witness :
  1 ≤ Matches.total (Matches.getStudentMatchStats Sample.twoOne "2").
Proof.
  destruct (matchStats_consistent Sample.twoOne "2") as (_ & _ & _ & _ & Hpos).
  apply Hpos. vm_compute. eauto.
Defined.

(** *** Recording and deleting matches *)

(** [find] by id and [findIndex] by id pick the same student. *)
Lemma findStudent_list_find (students : list Students.Student) (sid : string) :
  Matches.findStudent students sid =
  snd <$> list_find (λ s, Students.id s = sid) students.
Proof.
  unfold Matches.findStudent, array_find.
  induction students as [|s l IH]; [done|]. simpl.
  case_bool_decide as Hs.
  - by rewrite decide_True.
  - rewrite decide_False by done. rewrite IH.
    by destruct (list_find _ l) as [[? ?]|].
Qed.

Lemma list_find_insert_same (students : list Students.Student) (sid : string)
    (i : nat) (old new : Students.Student) :
  list_find (λ s, Students.id s = sid) students = Some (i, old) →
  Students.id new = sid →
  list_find (λ s, Students.id s = sid) (<[i:=new]> students) = Some (i, new).
Proof.
  intros (Hi & Hid & Hfirst)%list_find_Some Hnew.
  apply list_find_Some. split; [|split; [done|]].
  - apply list_lookup_insert_eq. by eapply lookup_lt_Some.
  - intros j y Hj Hlt. rewrite list_lookup_insert_ne in Hj by lia.
    by eapply Hfirst.
Qed.

Lemma list_find_insert_other (students : list Students.Student)
    (sid other : string) (i : nat) (old new : Students.Student) :
  students !! i = Some old → Students.id old = sid → Students.id new = sid →
  other ≠ sid →
  list_find (λ s, Students.id s = other) (<[i:=new]> students) =
  list_find (λ s, Students.id s = other) students.
Proof.
  intros Hi Hold Hnew Hne.
  destruct (list_find (λ s, Students.id s = other) students) as [[j y]|] eqn:Hf.
  - apply list_find_Some in Hf as (Hj & Hy & Hfirst).
    assert (j ≠ i) by (intros ->; congruence).
    apply list_find_Some. split; [|split; [done|]].
    + by rewrite list_lookup_insert_ne.
    + intros j' y' Hj' Hlt.
      destruct (decide (i = j')) as [<-|Hij].
      * apply list_lookup_insert_Some in Hj' as [(_ & <- & _)|[? _]]; congruence.
      * rewrite list_lookup_insert_ne in Hj' by done. by eapply Hfirst.
  - apply list_find_None. apply list_find_None in Hf.
    rewrite Forall_forall in Hf. rewrite Forall_forall.
    intros y [j Hj]%list_elem_of_lookup.
    destruct (decide (i = j)) as [<-|Hij].
    + apply list_lookup_insert_Some in Hj as [(_ & <- & _)|[? _]]; congruence.
    + rewrite list_lookup_insert_ne in Hj by done.
      apply Hf. by eapply list_elem_of_lookup_2.
Qed.

Lemma updateStudent_found (trim : string → string)
    (students : list Students.Student) (sid studentName : string) (newScore : Z)
    (i : nat) (old : Students.Student) :
  list_find (λ s, Students.id s = sid) students = Some (i, old) →
  Students.updateStudent trim students sid studentName newScore =
  (Some (Students.mkStudent sid (trim studentName) newScore),
   <[i:=Students.mkStudent sid (trim studentName) newScore]> students).
Proof.
  intros Hf. unfold Students.updateStudent, Students.Api.PUT. rewrite Hf.
  apply list_find_Some in Hf as (_ & -> & _). done.
Qed.

Lemma updateStudent_missing (trim : string → string)
    (students : list Students.Student) (sid studentName : string) (newScore : Z) :
  list_find (λ s, Students.id s = sid) students = None →
  Students.updateStudent trim students sid studentName newScore
  = (None, students).
Proof.
  intros Hf. unfold Students.updateStudent, Students.Api.PUT. by rewrite Hf.
Qed.

Lemma updateStudent_ids (trim : string → string)
    (students : list Students.Student) (sid studentName : string) (newScore : Z) :
  Students.id <$> (Students.updateStudent trim students sid studentName newScore).2
  = Students.id <$> students.
Proof.
  destruct (list_find (λ s, Students.id s = sid) students) as [[i old]|] eqn:Hf.
  - rewrite (updateStudent_found _ _ _ _ _ _ _ Hf). simpl.
    apply list_find_Some in Hf as (Hi & Hid & _).
    rewrite list_fmap_insert. simpl. apply list_insert_id.
    by rewrite list_lookup_fmap, Hi, <- Hid.
  - by rewrite updateStudent_missing.
Qed.

Lemma totalScore_cons (s : Students.Student) (l : list Students.Student) :
  Notions.totalScore (s :: l) = Students.score s + Notions.totalScore l.
Proof. done. Qed.

Lemma totalScore_insert (students : list Students.Student) (i : nat)
    (old new : Students.Student) :
  students !! i = Some old →
  Notions.totalScore (<[i:=new]> students) =
  Notions.totalScore students - Students.score old + Students.score new.
Proof.
  revert i. induction students as [|s l IH]; intros i Hi; [done|].
  destruct i as [|i].
  - injection Hi as ->. change (<[0%nat:=new]> (old :: l)) with (new :: l).
    rewrite !totalScore_cons. lia.
  - change (<[S i:=new]> (s :: l)) with (s :: <[i:=new]> l).
    rewrite !totalScore_cons, (IH i Hi). lia.
Qed.

(** Up to [2^53] in magnitude the sum is not rounded. *)
Lemma roundDouble_exact (n : Z) :
  Z.abs n ≤ MAX_SAFE_INTEGER + 1 → roundDouble n = n.
Proof.
  intros Hn. unfold roundDouble. cbv zeta. case_bool_decide as Hsafe; [done|].
  unfold MAX_SAFE_INTEGER in *.
  assert (n = 9007199254740992 ∨ n = -9007199254740992) as [->| ->] by lia;
    by vm_compute.
Qed.

Lemma js_add_exact (x y : Z) :
  Z.abs (x + y) ≤ MAX_SAFE_INTEGER + 1 → js_add x y = x + y.
Proof. apply roundDouble_exact. Qed.

Lemma js_sub_exact (x y : Z) :
  Z.abs (x - y) ≤ MAX_SAFE_INTEGER + 1 → js_sub x y = x - y.
Proof. apply roundDouble_exact. Qed.

(** One point more or less on a safe integer. *)
Lemma js_add_one (x : Z) :
  Z.abs x ≤ MAX_SAFE_INTEGER → js_add x 1 = x + 1.
Proof. intros Hx. apply js_add_exact. lia. Qed.

Lemma js_sub_one (x : Z) :
  Z.abs x ≤ MAX_SAFE_INTEGER → js_sub x 1 = x - 1.
Proof. intros Hx. apply js_sub_exact. lia. Qed.

Lemma scoresWithin_lookup (bound : Z) (students : list Students.Student)
    (i : nat) (s : Students.Student) :
  Notions.scoresWithin bound students → students !! i = Some s →
  Z.abs (Students.score s) ≤ bound.
Proof.
  intros Hall Hi. unfold Notions.scoresWithin in Hall.
  rewrite Forall_forall in Hall. apply Hall. by eapply list_elem_of_lookup_2.
Qed.

(** The record [recordMatch] appends. *)
Lemma recordMatch_history (trim : string → string) (now : Z)
    (t : Matches.Tournament) (w l : string) :
  Matches.matchHistory (Matches.recordMatch trim now t w l).2 =
  if Matches.canPlay (Matches.matchHistory t) w l
  then Matches.matchHistory t ++ [Matches.mkMatch (pretty now) w l w l now]
  else Matches.matchHistory t.
Proof.
  unfold Matches.recordMatch.
  destruct (Matches.canPlay _ w l); cbn [negb]; [|done].
  by repeat case_match.
Qed.

Lemma recordMatch_result (trim : string → string) (now : Z)
    (t : Matches.Tournament) (w l : string) :
  (Matches.recordMatch trim now t w l).1 =
  Matches.canPlay (Matches.matchHistory t) w l.
Proof.
  unfold Matches.recordMatch.
  destruct (Matches.canPlay _ w l); cbn [negb]; [|done].
  by repeat case_match.
Qed.

(** The array of students [recordMatch] leaves on the server. *)
Lemma recordMatch_students (trim : string → string) (now : Z)
    (t : Matches.Tournament) (w l : string) :
  Matches.canPlay (Matches.matchHistory t) w l = true →
  Matches.studentsData (Matches.recordMatch trim now t w l).2 =
  match list_find (λ s, Students.id s = w) (Matches.studentsData t),
        list_find (λ s, Students.id s = l) (Matches.studentsData t) with
  | Some (i, ow), Some (j, ol) =>
      <[j:=Students.mkStudent l (trim (Students.name ol))
             (js_sub (Students.score ol) 1)]>
        (<[i:=Students.mkStudent w (trim (Students.name ow))
                (js_add (Students.score ow) 1)]> (Matches.studentsData t))
  | _, _ => Matches.studentsData t
  end.
Proof.
  intros Hcp. unfold Matches.recordMatch. rewrite Hcp. simpl.
  rewrite !findStudent_list_find.
  destruct (list_find (λ s, Students.id s = w) _) as [[i ow]|] eqn:Hw; simpl;
    [|done].
  destruct (list_find (λ s, Students.id s = l) _) as [[j ol]|] eqn:Hl; simpl;
    [|done].
  rewrite (updateStudent_found _ _ _ _ _ _ _ Hw). simpl.
  set (W := Students.mkStudent w _ _).
  assert (Hl' : ∃ ol', list_find (λ s, Students.id s = l)
                         (<[i:=W]> (Matches.studentsData t)) = Some (j, ol')).
  { destruct (decide (l = w)) as [->|Hne].
    - rewrite Hw in Hl. injection Hl as <- <-. exists W.
      by apply (list_find_insert_same _ _ _ ow).
    - exists ol. rewrite <- Hl.
      apply list_find_Some in Hw as (Hi & Hid & _).
      by apply (list_find_insert_other _ w l i ow). }
  destruct Hl' as [ol' Hl']. by rewrite (updateStudent_found _ _ _ _ _ _ _ Hl').
Qed.

Lemma recordMatch_refused (trim : string → string) (now : Z)
    (t : Matches.Tournament) (w l : string) :
  Matches.canPlay (Matches.matchHistory t) w l = false →
  Matches.recordMatch trim now t w l = (false, t).
Proof. intros Hcp. unfold Matches.recordMatch. by rewrite Hcp. Qed.

Lemma recordMatch_ids (trim : string → string) (now : Z)
    (t : Matches.Tournament) (w l : string) :
  Students.id <$> Matches.studentsData (Matches.recordMatch trim now t w l).2 =
  Students.id <$> Matches.studentsData t.
Proof.
  destruct (Matches.canPlay (Matches.matchHistory t) w l) eqn:Hcp.
  2: { by rewrite recordMatch_refused. }
  rewrite recordMatch_students by done.
  destruct (list_find (λ s, Students.id s = w) _) as [[i ow]|] eqn:Hw; [|done].
  destruct (list_find (λ s, Students.id s = l) _) as [[j ol]|] eqn:Hl; [|done].
  apply list_find_Some in Hw as (Hi & Hiw & _).
  apply list_find_Some in Hl as (Hj & Hjl & _).
  rewrite !list_fmap_insert. simpl.
  rewrite (list_insert_id (Students.id <$> _) i w)
    by (by rewrite list_lookup_fmap, Hi, <- Hiw).
  apply list_insert_id. by rewrite list_lookup_fmap, Hj, <- Hjl.
Qed.

(** X21. [recordMatch] returns what [canPlay] answers on the current
    history. When that is false, nothing changes. When it is true, the
    history gains one record at its end, listing the winner first and the
    loser second, and the students keep their ids and their order. *)
Theorem recordMatch_effect (trim : string → string) (now : Z)
    (t : Matches.Tournament) (winnerId loserId : string) :
  let r := Matches.recordMatch trim now t winnerId loserId in
  r.1 = Matches.canPlay (Matches.matchHistory t) winnerId loserId ∧
  (r.1 = false → r.2 = t) ∧
  (r.1 = true →
   ∃ m, Matches.matchHistory r.2 = Matches.matchHistory t ++ [m] ∧
        Matches.playerA m = winnerId ∧ Matches.playerB m = loserId ∧
        Matches.winner m = winnerId ∧ Matches.loser m = loserId ∧
        Matches.date m = now) ∧
  Students.id <$> Matches.studentsData r.2 =
    Students.id <$> Matches.studentsData t.
Proof.
  intros r. subst r. rewrite recordMatch_result. split; [done|].
  split; [|split; [|apply recordMatch_ids]].
  - intros Hcp. by rewrite recordMatch_refused.
  - intros Hcp. rewrite recordMatch_history, Hcp. by eexists.
Qed.

Lemma recordMatch_effect_witness :
  (Matches.recordMatch (λ s, s) 40
     (Matches.mkTournament Sample.threeNil Sample.pool) "1" "2").2
  = Matches.mkTournament Sample.threeNil Sample.pool.
Proof.
  destruct (recordMatch_effect (λ s, s) 40
              (Matches.mkTournament Sample.threeNil Sample.pool) "1" "2")
    as (Hres & Hrefused & _).
  apply Hrefused. rewrite Hres. reflexivity.
Defined.

Lemma isBetween_new (a b w l : string) (now : Z) :
  Matches.isBetween a b (Matches.mkMatch (pretty now) w l w l now) →
  ∀ m, Matches.isBetween a b m ↔ Matches.isBetween w l m.
Proof. unfold Matches.isBetween. simpl. naive_solver. Qed.

Lemma recordMatch_capped (trim : string → string) (now : Z)
    (t : Matches.Tournament) (w l : string) :
  Notions.cappedAt 4 (Matches.matchHistory t) →
  Notions.cappedAt 4 (Matches.matchHistory (Matches.recordMatch trim now t w l).2).
Proof.
  intros Hcap a b. rewrite recordMatch_history.
  destruct (Matches.canPlay (Matches.matchHistory t) w l) eqn:Hcp; [|apply Hcap].
  unfold Matches.getMatchesBetweenStudents.
  rewrite filter_app, length_app, filter_cons, filter_nil.
  destruct (decide (Matches.isBetween a b _)) as [Hnew|Hnew].
  - rewrite (list_filter_iff _ _ _ (isBetween_new a b w l now Hnew)).
    pose proof (canPlay_true_count _ _ _ Hcp) as Hle.
    unfold Matches.getMatchesBetweenStudents in Hle. simpl. lia.
  - specialize (Hcap a b). unfold Matches.getMatchesBetweenStudents in Hcap.
    simpl. lia.
Qed.

Lemma recordMatch_winnerFirst (trim : string → string) (now : Z)
    (t : Matches.Tournament) (w l : string) :
  Forall Notions.winnerFirst (Matches.matchHistory t) →
  Forall Notions.winnerFirst
    (Matches.matchHistory (Matches.recordMatch trim now t w l).2).
Proof.
  intros Hall. rewrite recordMatch_history.
  destruct (Matches.canPlay _ w l); [|done].
  apply Forall_app. split; [done|]. by repeat constructor.
Qed.

(** X22. [recordMatch] enforces the match limit: over any sequence of
    calls, a history in which no two students had more than 4 records
    between them stays so, whichever way its records list their players;
    and, independently, a history whose records list the winner first stays
    so. *)
Theorem recordMatch_keeps_limit (trim : string → string)
    (calls : list (Z * string * string)) (t : Matches.Tournament) :
  (Notions.cappedAt 4 (Matches.matchHistory t) →
   Notions.cappedAt 4
     (Matches.matchHistory (Notions.recordAll trim t calls))) ∧
  (Forall Notions.winnerFirst (Matches.matchHistory t) →
   Forall Notions.winnerFirst
     (Matches.matchHistory (Notions.recordAll trim t calls))).
Proof.
  unfold Notions.recordAll. revert t.
  induction calls as [|[[now w] l] calls IH]; intros t; [done|].
  simpl. split; intros H.
  - by apply IH, recordMatch_capped.
  - by apply IH, recordMatch_winnerFirst.
Qed.

Lemma recordMatch_keeps_limit_witness :
  Notions.cappedAt 4
    (Matches.matchHistory
       (Notions.recordAll (λ s, s)
          (Matches.mkTournament [Matches.mkMatch "m0" "1" "2" "2" "1" 0]
             Sample.pool)
          [(1, "1", "2"); (2, "1", "2"); (3, "2", "1"); (4, "1", "2");
           (5, "1", "2")])) ∧
  Forall Notions.winnerFirst
    (Matches.matchHistory
       (Notions.recordAll (λ s, s) (Matches.mkTournament [] Sample.pool)
          [(1, "1", "2"); (2, "2", "1")])).
Proof.
  split.
  - destruct (recordMatch_keeps_limit (λ s, s)
                [(1, "1", "2"); (2, "1", "2"); (3, "2", "1"); (4, "1", "2");
                 (5, "1", "2")]
                (Matches.mkTournament [Matches.mkMatch "m0" "1" "2" "2" "1" 0]
                   Sample.pool)) as [Hcap _].
    apply Hcap. intros a b. unfold Matches.getMatchesBetweenStudents.
    etrans; [apply length_filter|]. simpl. lia.
  - destruct (recordMatch_keeps_limit (λ s, s) [(1, "1", "2"); (2, "2", "1")]
                (Matches.mkTournament [] Sample.pool)) as [_ Hwf].
    apply Hwf. constructor.
Defined.

Lemma recordMatch_totalScore (trim : string → string) (now : Z)
    (t : Matches.Tournament) (w l : string) :
  w ≠ l →
  Notions.scoresWithin MAX_SAFE_INTEGER (Matches.studentsData t) →
  Notions.totalScore (Matches.studentsData (Matches.recordMatch trim now t w l).2)
  = Notions.totalScore (Matches.studentsData t).
Proof.
  intros Hne Hsafe.
  destruct (Matches.canPlay (Matches.matchHistory t) w l) eqn:Hcp.
  2: { by rewrite recordMatch_refused. }
  rewrite recordMatch_students by done.
  destruct (list_find (λ s, Students.id s = w) _) as [[i ow]|] eqn:Hw; [|done].
  destruct (list_find (λ s, Students.id s = l) _) as [[j ol]|] eqn:Hl; [|done].
  apply list_find_Some in Hw as (Hi & Hiw & _).
  apply list_find_Some in Hl as (Hj & Hjl & _).
  assert (Hij : i ≠ j) by (intros ->; congruence).
  rewrite js_add_one by by eapply scoresWithin_lookup.
  rewrite js_sub_one by by eapply scoresWithin_lookup.
  rewrite (totalScore_insert _ j ol) by (by rewrite list_lookup_insert_ne).
  rewrite (totalScore_insert _ i ow) by done. simpl. lia.
Qed.

(** One call moves no score by more than one point. *)
Lemma recordMatch_scoresWithin (trim : string → string) (now : Z)
    (t : Matches.Tournament) (w l : string) (bound : Z) :
  bound ≤ MAX_SAFE_INTEGER →
  Notions.scoresWithin bound (Matches.studentsData t) →
  Notions.scoresWithin (bound + 1)
    (Matches.studentsData (Matches.recordMatch trim now t w l).2).
Proof.
  intros Hb Hall.
  assert (Hweak : Notions.scoresWithin (bound + 1) (Matches.studentsData t)).
  { eapply Forall_impl; [exact Hall|]. simpl. intros s Hs. lia. }
  destruct (Matches.canPlay (Matches.matchHistory t) w l) eqn:Hcp.
  2: { by rewrite recordMatch_refused. }
  rewrite recordMatch_students by done.
  destruct (list_find (λ s, Students.id s = w) _) as [[i ow]|] eqn:Hw; [|done].
  destruct (list_find (λ s, Students.id s = l) _) as [[j ol]|] eqn:Hl; [|done].
  apply list_find_Some in Hw as (Hi & _ & _).
  apply list_find_Some in Hl as (Hj & _ & _).
  pose proof (scoresWithin_lookup _ _ _ _ Hall Hi) as Hbw.
  pose proof (scoresWithin_lookup _ _ _ _ Hall Hj) as Hbl.
  rewrite js_add_one, js_sub_one by lia.
  apply Forall_insert; [apply Forall_insert; [done|]|]; simpl; lia.
Qed.

(** X23. Recording matches between different students is zero-sum while
    the scores stay safe integers: over any sequence of calls to
    [recordMatch] whose winner and loser differ, accepted or not, the sum
    of the scores of the students is unchanged, provided that every score
    is at the start an integer with as many points of room below
    [Number.MAX_SAFE_INTEGER], in magnitude, as there are calls. *)
Theorem recordMatch_zero_sum (trim : string → string)
    (calls : list (Z * string * string)) (t : Matches.Tournament) :
  Forall (λ call, call.1.2 ≠ call.2) calls →
  Notions.scoresWithin (MAX_SAFE_INTEGER - Z.of_nat (length calls))
    (Matches.studentsData t) →
  Notions.totalScore (Matches.studentsData (Notions.recordAll trim t calls)) =
  Notions.totalScore (Matches.studentsData t).
Proof.
  unfold Notions.recordAll. revert t.
  induction calls as [|[[now w] l] calls IH]; intros t Hall Hroom; [done|].
  apply Forall_cons in Hall as [Hne Hall]. simpl in Hne. cbn [foldl fst snd].
  rewrite IH.
  - apply recordMatch_totalScore; [done|].
    eapply Forall_impl; [exact Hroom|]. simpl. intros s Hs. lia.
  - done.
  - replace (MAX_SAFE_INTEGER - Z.of_nat (length calls))
      with (MAX_SAFE_INTEGER - Z.of_nat (length ((now, w, l) :: calls)) + 1)
      by (simpl; lia).
    apply recordMatch_scoresWithin; [lia|done].
Qed.

Lemma recordMatch_zero_sum_witness :
  Notions.totalScore
    (Matches.studentsData
       (Notions.recordAll (λ s, s) (Matches.mkTournament [] Sample.pool)
          [(1, "1", "2"); (2, "3", "1")])) = 6.
Proof.
  rewrite (recordMatch_zero_sum (λ s, s)); [reflexivity| |].
  - repeat constructor; discriminate.
  - repeat constructor; vm_compute; discriminate.
Defined.

(** Beyond the safe integers the point is rounded away: a winner at [2^53]
    stays there while the loser still goes down by one. *)
Example recordMatch_rounds_beyond_safe_integers :
  Notions.idScores
    (Matches.studentsData
       (Matches.recordMatch (λ s, s) 40
          (Matches.mkTournament []
             [Students.mkStudent "1" "Alice" 9007199254740992;
              Students.mkStudent "2" "Bob" 1]) "1" "2").2)
  = [("1", 9007199254740992); ("2", 0)].
Proof. reflexivity. Qed.

Lemma filter_other_match_id_all (matches : list Matches.Match) (mid : string) :
  mid ∉ Matches.id <$> matches →
  filter (λ m, Matches.id m ≠ mid) matches = matches.
Proof.
  induction matches as [|m l IH]; [done|].
  rewrite fmap_cons, not_elem_of_cons, filter_cons. intros [Hm Hl].
  rewrite decide_True by done. by rewrite IH.
Qed.

Lemma array_find_match_id_None (matches : list Matches.Match) (mid : string) :
  mid ∉ Matches.id <$> matches →
  array_find (λ m, bool_decide (Matches.id m = mid)) matches = None.
Proof.
  intros Hnot. unfold array_find.
  destruct (find _ matches) as [m|] eqn:Hf; [|done].
  apply find_some in Hf as [Hin Hid]. apply bool_decide_eq_true in Hid.
  exfalso. apply Hnot. subst. apply list_elem_of_fmap_2.
  by apply list_elem_of_In.
Qed.

Lemma deleteMatch_found (trim : string → string) (t : Matches.Tournament)
    (matchId : string) (d : Matches.Match) :
  array_find (λ m, bool_decide (Matches.id m = matchId)) (Matches.matchHistory t)
    = Some d →
  (Matches.deleteMatch trim t matchId).1 = true ∧
  Matches.matchHistory (Matches.deleteMatch trim t matchId).2 =
    filter (λ m, Matches.id m ≠ matchId) (Matches.matchHistory t).
Proof.
  intros Hd. unfold Matches.deleteMatch. rewrite Hd. by repeat case_match.
Qed.

(** X24. [deleteMatch] with an id that no record bears returns false and
    changes nothing; with an id some record bears it returns true, removes
    every record bearing the id and keeps the other records, in order, and
    the students keep their ids. *)
Theorem deleteMatch_effect (trim : string → string) (t : Matches.Tournament)
    (matchId : string) :
  let r := Matches.deleteMatch trim t matchId in
  (matchId ∉ Matches.id <$> Matches.matchHistory t → r = (false, t)) ∧
  (matchId ∈ Matches.id <$> Matches.matchHistory t →
   r.1 = true ∧
   Matches.matchHistory r.2 =
     filter (λ m, Matches.id m ≠ matchId) (Matches.matchHistory t) ∧
   matchId ∉ Matches.id <$> Matches.matchHistory r.2) ∧
  Students.id <$> Matches.studentsData r.2 =
    Students.id <$> Matches.studentsData t.
Proof.
  intros r. subst r. unfold Matches.deleteMatch. split; [|split].
  - intros Hnot. by rewrite array_find_match_id_None.
  - intros (m & -> & Hm)%list_elem_of_fmap.
    destruct (array_find _ (Matches.matchHistory t)) as [d|] eqn:Hd.
    2: { apply list_elem_of_In in Hm. eapply find_none in Hd; [|done].
         simpl in Hd. by rewrite bool_decide_eq_true_2 in Hd. }
    assert (Hgone : Matches.id m ∉ Matches.id <$>
              filter (λ x, Matches.id x ≠ Matches.id m) (Matches.matchHistory t)).
    { rewrite list_elem_of_fmap.
      intros (x & Hx & [Hne _]%list_elem_of_filter). done. }
    by repeat case_match.
  - destruct (array_find _ (Matches.matchHistory t)) as [d|]; [|done].
    repeat case_match; simpl; try done.
    by rewrite !updateStudent_ids.
Qed.

Lemma deleteMatch_effect_witness :
  Matches.deleteMatch (λ s, s) (Matches.mkTournament Sample.twoOne Sample.pool)
    "ghost"
  = (false, Matches.mkTournament Sample.twoOne Sample.pool) ∧
  Matches.matchHistory
    (Matches.deleteMatch (λ s, s)
       (Matches.mkTournament Sample.twoOne Sample.pool) "m").2 = [].
Proof.
  destruct (deleteMatch_effect (λ s, s)
              (Matches.mkTournament Sample.twoOne Sample.pool) "ghost")
    as (Hout & _).
  destruct (deleteMatch_effect (λ s, s)
              (Matches.mkTournament Sample.twoOne Sample.pool) "m")
    as (_ & Hin & _).
  split.
  - apply Hout. apply (bool_decide_unpack _). vm_compute. exact I.
  - destruct Hin as (_ & -> & _); [|reflexivity].
    apply (bool_decide_unpack _). vm_compute. exact I.
Defined.

Lemma array_find_app_r {A} (p : A → bool) (l k : list A) :
  array_find p l = None → array_find p (l ++ k) = array_find p k.
Proof.
  unfold array_find. induction l as [|x l IH]; [done|]. simpl.
  destruct (p x); [done|]. apply IH.
Qed.

(** The array of students [deleteMatch] leaves on the server. *)
Lemma deleteMatch_students (trim : string → string) (t : Matches.Tournament)
    (matchId : string) (d : Matches.Match) :
  array_find (λ m, bool_decide (Matches.id m = matchId)) (Matches.matchHistory t)
    = Some d →
  Matches.studentsData (Matches.deleteMatch trim t matchId).2 =
  match list_find (λ s, Students.id s = Matches.winner d) (Matches.studentsData t),
        list_find (λ s, Students.id s = Matches.loser d) (Matches.studentsData t)
  with
  | Some (i, ow), Some (j, ol) =>
      <[j:=Students.mkStudent (Matches.loser d) (trim (Students.name ol))
             (js_add (Students.score ol) 1)]>
        (<[i:=Students.mkStudent (Matches.winner d) (trim (Students.name ow))
                (js_sub (Students.score ow) 1)]> (Matches.studentsData t))
  | _, _ => Matches.studentsData t
  end.
Proof.
  intros Hd. unfold Matches.deleteMatch. rewrite Hd.
  rewrite !findStudent_list_find.
  set (w := Matches.winner d). set (l := Matches.loser d).
  destruct (list_find (λ s, Students.id s = w) _) as [[i ow]|] eqn:Hw; simpl;
    [|done].
  destruct (list_find (λ s, Students.id s = l) _) as [[j ol]|] eqn:Hl; simpl;
    [|done].
  rewrite (updateStudent_found _ _ _ _ _ _ _ Hw). simpl.
  set (W := Students.mkStudent w _ _).
  assert (Hl' : ∃ ol', list_find (λ s, Students.id s = l)
                         (<[i:=W]> (Matches.studentsData t)) = Some (j, ol')).
  { destruct (decide (l = w)) as [Heq|Hne].
    - rewrite Heq in Hl |- *. rewrite Hw in Hl. injection Hl as <- <-. exists W.
      by apply (list_find_insert_same _ _ _ ow).
    - exists ol. rewrite <- Hl.
      apply list_find_Some in Hw as (Hi & Hid & _).
      by apply (list_find_insert_other _ w l i ow). }
  destruct Hl' as [ol' Hl']. by rewrite (updateStudent_found _ _ _ _ _ _ _ Hl').
Qed.

(** X25. Deleting the match that was just recorded undoes it: when the
    scores are safe integers ([Number.isSafeInteger]) and [recordMatch]
    accepts a match between two different students and gives it an id that
    no earlier record bears, [deleteMatch] with that id returns true and
    restores the history and the score of every student. *)
Theorem record_then_delete (trim : string → string) (now : Z)
    (t : Matches.Tournament) (winnerId loserId : string) :
  Matches.canPlay (Matches.matchHistory t) winnerId loserId = true →
  winnerId ≠ loserId →
  pretty now ∉ Matches.id <$> Matches.matchHistory t →
  Notions.scoresWithin MAX_SAFE_INTEGER (Matches.studentsData t) →
  let recorded := (Matches.recordMatch trim now t winnerId loserId).2 in
  let r := Matches.deleteMatch trim recorded (pretty now) in
  r.1 = true ∧
  Matches.matchHistory r.2 = Matches.matchHistory t ∧
  Notions.idScores (Matches.studentsData r.2) =
    Notions.idScores (Matches.studentsData t).
Proof.
  intros Hcp Hne Hfresh Hsafe recorded r.
  set (new := Matches.mkMatch (pretty now) winnerId loserId winnerId loserId now).
  assert (Hhist : Matches.matchHistory recorded = Matches.matchHistory t ++ [new]).
  { unfold recorded. by rewrite recordMatch_history, Hcp. }
  assert (Hfind : array_find (λ m, bool_decide (Matches.id m = pretty now))
                    (Matches.matchHistory recorded) = Some new).
  { rewrite Hhist, array_find_app_r by by apply array_find_match_id_None.
    unfold array_find. simpl. by rewrite bool_decide_eq_true_2. }
  destruct (deleteMatch_found trim recorded (pretty now) new Hfind) as (Hres & Hh).
  fold r in Hres, Hh. split; [done|]. split.
  { rewrite Hh, Hhist, filter_app, filter_other_match_id_all by done.
    rewrite filter_cons, decide_False by (simpl; tauto).
    by rewrite filter_nil, app_nil_r. }
  unfold r. rewrite (deleteMatch_students _ _ _ _ Hfind).
  unfold recorded. rewrite recordMatch_students by done.
  cbn [Matches.winner Matches.loser new].
  set (data := Matches.studentsData t).
  destruct (list_find (λ s, Students.id s = winnerId) data) as [[i ow]|] eqn:Hw.
  2: { by rewrite Hw. }
  destruct (list_find (λ s, Students.id s = loserId) data) as [[j ol]|] eqn:Hl.
  2: { by rewrite Hw, Hl. }
  pose proof Hw as (Hi & Hiw & _)%list_find_Some.
  pose proof Hl as (Hj & Hjl & _)%list_find_Some.
  assert (Hij : i ≠ j) by (intros ->; congruence).
  pose proof (scoresWithin_lookup _ _ _ _ Hsafe Hi) as Hbw.
  pose proof (scoresWithin_lookup _ _ _ _ Hsafe Hj) as Hbl.
  rewrite js_add_one, js_sub_one by done.
  set (W1 := Students.mkStudent winnerId (trim (Students.name ow))
               (Students.score ow + 1)).
  set (L1 := Students.mkStudent loserId (trim (Students.name ol))
               (Students.score ol - 1)).
  assert (HlW : list_find (λ s, Students.id s = loserId) (<[i:=W1]> data)
                = Some (j, ol)).
  { rewrite <- Hl. by apply (list_find_insert_other _ winnerId loserId i ow). }
  assert (HwW : list_find (λ s, Students.id s = winnerId) (<[i:=W1]> data)
                = Some (i, W1)).
  { by apply (list_find_insert_same _ _ _ ow). }
  assert (Hw2 : list_find (λ s, Students.id s = winnerId)
                  (<[j:=L1]> (<[i:=W1]> data)) = Some (i, W1)).
  { rewrite <- HwW.
    apply (list_find_insert_other _ loserId winnerId j ol); try done.
    by rewrite list_lookup_insert_ne. }
  assert (Hl2 : list_find (λ s, Students.id s = loserId)
                  (<[j:=L1]> (<[i:=W1]> data)) = Some (j, L1)).
  { by apply (list_find_insert_same _ _ _ ol). }
  rewrite Hw2, Hl2. unfold Notions.idScores.
  rewrite !list_fmap_insert. cbn [Students.id Students.score W1 L1].
  rewrite js_add_exact, js_sub_exact by lia.
  rewrite (list_insert_insert_ne _ i j) by done.
  rewrite !list_insert_insert_eq.
  rewrite (list_insert_id _ j).
  2: { rewrite list_lookup_insert_ne, list_lookup_fmap, Hj by done. simpl.
       do 2 f_equal; [done|lia]. }
  apply list_insert_id. rewrite list_lookup_fmap, Hi. simpl.
  do 2 f_equal; [done|lia].
Qed.

Lemma record_then_delete_witness :
  Notions.idScores
    (Matches.studentsData
       (Matches.deleteMatch (λ s, s)
          (Matches.recordMatch (λ s, s) 40
             (Matches.mkTournament Sample.twoOne Sample.pool) "1" "2").2
          (pretty 40)).2)
  = Notions.idScores Sample.pool.
Proof.
  apply (record_then_delete (λ s, s) 40
           (Matches.mkTournament Sample.twoOne Sample.pool) "1" "2").
  - reflexivity.
  - discriminate.
  - apply (bool_decide_unpack _). vm_compute. exact I.
  - repeat constructor; vm_compute; discriminate.
Defined.

Lemma foldl_revertOther_ids (trim : string → string) (studentId : string)
    (students data : list Students.Student) (toDelete : list Matches.Match) :
  Students.id <$> foldl (Matches.revertOther trim studentId students) data toDelete
  = Students.id <$> data.
Proof.
  revert data. induction toDelete as [|m l IH]; intros data; [done|].
  simpl. rewrite IH. unfold Matches.revertOther.
  repeat case_match; try done; apply updateStudent_ids.
Qed.

Lemma canPlay_no_history (matches : list Matches.Match) (a b : string) :
  Matches.getMatchHistory matches a = [] →
  Matches.canPlay matches a b = true.
Proof.
  intros Hnone. rewrite canPlay_cases. simpl.
  assert (Matches.getMatchesBetweenStudents matches a b = []) as ->; [|done].
  apply elem_of_nil_inv. intros m [Hb Hm]%list_elem_of_filter.
  assert (Hin : m ∈ Matches.getMatchHistory matches a).
  { apply list_elem_of_filter. split; [|done].
    unfold Matches.isBetween in Hb. naive_solver. }
  rewrite Hnone in Hin. by apply elem_of_nil in Hin.
Qed.

(** X26. [deleteMatchesByStudent] fails only when the student has records
    and the server refuses the request, and then nothing changes. When it
    succeeds, no record lists the student any more, so the student may play
    anybody again; the records between other students are all kept, in
    order; and the students keep their ids. *)
Theorem deleteMatchesByStudent_effect (trim : string → string)
    (responseOk : bool) (t : Matches.Tournament) (studentId : string) :
  let r := Matches.deleteMatchesByStudent trim responseOk t studentId in
  (r.1 = false ↔
   responseOk = false ∧
   Matches.getMatchHistory (Matches.matchHistory t) studentId ≠ []) ∧
  (r.1 = false → r.2 = t) ∧
  (r.1 = true →
   Matches.getMatchHistory (Matches.matchHistory r.2) studentId = [] ∧
   (∀ x, Matches.canPlay (Matches.matchHistory r.2) studentId x = true) ∧
   ∀ a b, a ≠ studentId → b ≠ studentId →
     Matches.getMatchesBetweenStudents (Matches.matchHistory r.2) a b =
     Matches.getMatchesBetweenStudents (Matches.matchHistory t) a b) ∧
  Students.id <$> Matches.studentsData r.2 =
    Students.id <$> Matches.studentsData t.
Proof.
  intros r. subst r. unfold Matches.deleteMatchesByStudent.
  fold (Matches.getMatchHistory (Matches.matchHistory t) studentId).
  set (mine := Matches.getMatchHistory (Matches.matchHistory t) studentId).
  assert (Hgone : Matches.getMatchHistory
            (filter (λ m, Matches.playerA m ≠ studentId ∧
                          Matches.playerB m ≠ studentId)
                    (Matches.matchHistory t)) studentId = []).
  { unfold Matches.getMatchHistory. apply elem_of_nil_inv.
    intros m [Hm [Hn _]%list_elem_of_filter]%list_elem_of_filter. tauto. }
  case_bool_decide as Hlen.
  - assert (Hnil : mine = []) by by destruct mine.
    simpl. split_and!; try done.
    + split; [done|]. by intros [_ ?].
    + intros _. fold mine. split; [done|]. split; [|done].
      intros x. by apply canPlay_no_history.
  - assert (Hne : mine ≠ []) by (intros Heq; by rewrite Heq in Hlen).
    destruct responseOk; simpl.
    + split_and!; try done.
      * split; [done|]. by intros [? _].
      * intros _. split; [done|]. split.
        -- intros x. by apply canPlay_no_history.
        -- intros a b Ha Hb. unfold Matches.getMatchesBetweenStudents.
           apply list_filter_filter_l. intros m. unfold Matches.isBetween.
           naive_solver.
      * apply foldl_revertOther_ids.
    + split_and!; done.
Qed.

Lemma deleteMatchesByStudent_effect_witness :
  Matches.canPlay
    (Matches.matchHistory
       (Matches.deleteMatchesByStudent (λ s, s) true
          (Matches.mkTournament Sample.threeNil Sample.pool) "1").2) "1" "2"
  = true ∧
  (Matches.deleteMatchesByStudent (λ s, s) false
     (Matches.mkTournament Sample.threeNil Sample.pool) "1").2
  = Matches.mkTournament Sample.threeNil Sample.pool.
Proof.
  destruct (deleteMatchesByStudent_effect (λ s, s) true
              (Matches.mkTournament Sample.threeNil Sample.pool) "1")
    as (_ & _ & Hok & _).
  destruct (deleteMatchesByStudent_effect (λ s, s) false
              (Matches.mkTournament Sample.threeNil Sample.pool) "1")
    as (_ & Hfail & _).
  split.
  - apply Hok. reflexivity.
  - apply Hfail. reflexivity.
Defined.

Lemma list_find_same_ids (data data' : list Students.Student) (sid : string)
    (i : nat) (x : Students.Student) :
  Students.id <$> data = Students.id <$> data' →
  list_find (λ s, Students.id s = sid) data = Some (i, x) →
  ∃ x', list_find (λ s, Students.id s = sid) data' = Some (i, x').
Proof.
  intros Hids (Hi & Hx & Hfirst)%list_find_Some.
  assert (Hlook : ∀ j, Students.id <$> (data !! j) = Students.id <$> (data' !! j)).
  { intros j. by rewrite <- !list_lookup_fmap, Hids. }
  pose proof (Hlook i) as Hli. rewrite Hi in Hli. simpl in Hli.
  destruct (data' !! i) as [x'|] eqn:Hi'; [|done].
  exists x'. apply list_find_Some. split; [done|]. split.
  - simpl in Hli. congruence.
  - intros j y Hj Hlt. pose proof (Hlook j) as Hlj. rewrite Hj in Hlj.
    destruct (data !! j) as [y0|] eqn:Hj0; [|done]. simpl in Hlj.
    injection Hlj as Hlj. rewrite <- Hlj. by eapply Hfirst.
Qed.

Lemma foldl_revertOther_near (trim : string → string) (studentId : string)
    (students : list Students.Student) (toDelete : list Matches.Match)
    (data : list Students.Student) (i : nat) (s : Students.Student) :
  Notions.scoresWithin MAX_SAFE_INTEGER students →
  Students.id <$> students = Students.id <$> data →
  students !! i = Some s →
  (∃ s', data !! i = Some s' ∧ Students.id s' = Students.id s ∧
         Z.abs (Students.score s' - Students.score s) ≤ 1) →
  ∃ s', foldl (Matches.revertOther trim studentId students) data toDelete !! i
          = Some s' ∧
        Students.id s' = Students.id s ∧
        Z.abs (Students.score s' - Students.score s) ≤ 1.
Proof.
  intros Hsafe Hids Hs. revert data Hids.
  induction toDelete as [|m l IH]; intros data Hids Hsame; [done|].
  cbn [foldl]. apply IH.
  { unfold Matches.revertOther. repeat case_match; try done;
      by rewrite updateStudent_ids. }
  clear IH. unfold Matches.revertOther.
  set (other := if bool_decide (Matches.playerA m = studentId)
                then Matches.playerB m else Matches.playerA m).
  rewrite findStudent_list_find.
  destruct (list_find (λ x, Students.id x = other) students) as [[i0 op]|] eqn:Hop;
    simpl; [|done].
  destruct (list_find_same_ids students data other i0 op Hids Hop) as [x' Hx'].
  pose proof Hop as (Hi0 & Hid0 & _)%list_find_Some.
  assert (Hstep : ∀ newScore,
            Z.abs (newScore - Students.score op) ≤ 1 →
            ∃ s', (Students.updateStudent trim data other (Students.name op)
                     newScore).2 !! i = Some s' ∧
                  Students.id s' = Students.id s ∧
                  Z.abs (Students.score s' - Students.score s) ≤ 1).
  { intros newScore Hnear.
    rewrite (updateStudent_found _ _ _ _ _ _ _ Hx'). simpl.
    destruct (decide (i0 = i)) as [->|Hne].
    - eexists. split.
      + apply list_lookup_insert_eq.
        apply list_find_Some in Hx' as (Hx' & _). by eapply lookup_lt_Some.
      + simpl. rewrite Hs in Hi0. injection Hi0 as <-. done.
    - by rewrite list_lookup_insert_ne. }
  pose proof (scoresWithin_lookup _ _ _ _ Hsafe Hi0) as Hbound.
  case_bool_decide; apply Hstep;
    [rewrite js_sub_one by done|rewrite js_add_one by done]; lia.
Qed.

(** X27. [deleteMatchesByStudent] computes every new score from the
    scores fetched before its loop: when these are safe integers
    ([Number.isSafeInteger]), however many records it deletes, each student
    keeps their place and their id, and ends with a score that differs from
    the one they had by at most 1. *)
Theorem deleteMatchesByStudent_scores (trim : string → string)
    (responseOk : bool) (t : Matches.Tournament) (studentId : string)
    (i : nat) (s : Students.Student) :
  Notions.scoresWithin MAX_SAFE_INTEGER (Matches.studentsData t) →
  Matches.studentsData t !! i = Some s →
  ∃ s',
    Matches.studentsData
      (Matches.deleteMatchesByStudent trim responseOk t studentId).2 !! i
      = Some s' ∧
    Students.id s' = Students.id s ∧
    Z.abs (Students.score s' - Students.score s) ≤ 1.
Proof.
  intros Hsafe Hs.
  assert (Hsame : ∃ s', Matches.studentsData t !! i = Some s' ∧
            Students.id s' = Students.id s ∧
            Z.abs (Students.score s' - Students.score s) ≤ 1).
  { exists s. split; [done|]. split; [done|lia]. }
  unfold Matches.deleteMatchesByStudent.
  case_bool_decide; [done|]. destruct responseOk; simpl; [|done].
  by apply foldl_revertOther_near.
Qed.

Lemma deleteMatchesByStudent_scores_witness :
  ∃ s',
    Matches.studentsData
      (Matches.deleteMatchesByStudent (λ s, s) true
         (Matches.mkTournament Sample.threeNil Sample.pool) "2").2 !! 0%nat
      = Some s' ∧
    Students.id s' = "1" ∧
    Z.abs (Students.score s' - 0) ≤ 1.
Proof.
  apply (deleteMatchesByStudent_scores (λ s, s) true
           (Matches.mkTournament Sample.threeNil Sample.pool) "2" 0
           Sample.alice).
  - repeat constructor; vm_compute; discriminate.
  - reflexivity.
Defined.

(** Three deleted wins give the opponent one point back, not three: every
    update starts from the score fetched before the loop. *)
Example deleteMatchesByStudent_reverts_once :
  Notions.idScores
    (Matches.studentsData
       (Matches.deleteMatchesByStudent (λ s, s) true
          (Matches.mkTournament Sample.threeNil Sample.pool) "1").2)
  = [("1", 0); ("2", 2); ("3", 5)].
Proof. reflexivity. Qed.

(** Beyond the safe integers the reverted score lands two away. *)
Example revertOther_rounds_beyond_safe_integers :
  Notions.idScores
    (Matches.studentsData
       (Matches.deleteMatchesByStudent (λ s, s) true
          (Matches.mkTournament [Sample.won "1" "2" 10]
             [Students.mkStudent "1" "Alice" 0;
              Students.mkStudent "2" "Bob" 9007199254740994]) "1").2)
  = [("1", 0); ("2", 9007199254740996)].
Proof. reflexivity. Qed.

(** X28. The DELETE handler of the matches API: a non-empty [studentId]
    takes precedence and removes every record listing that student; else a
    non-empty [id] removes the records bearing it, or answers 404 and
    changes nothing when there is none; with neither field, or with empty
    strings, the answer is 400 and nothing changes. *)
Theorem matches_DELETE_effect (matches : list Matches.Match)
    (reqId reqStudentId : option string) :
  let r := Matches.Api.DELETE matches reqId reqStudentId in
  (∀ sid, reqStudentId = Some sid → sid ≠ "" →
     r.1 = Students.Api.Json true ∧
     Matches.getMatchHistory r.2 sid = [] ∧
     ∀ m, m ∈ matches → Matches.playerA m ≠ sid → Matches.playerB m ≠ sid →
          m ∈ r.2) ∧
  (Matches.Api.truthy reqStudentId = false →
   ∀ mid, reqId = Some mid → mid ≠ "" →
     (mid ∉ Matches.id <$> matches →
      r = (Students.Api.Failure 404 "Match not found", matches)) ∧
     (mid ∈ Matches.id <$> matches →
      r = (Students.Api.Json true, filter (λ m, Matches.id m ≠ mid) matches))) ∧
  (Matches.Api.truthy reqStudentId = false →
   Matches.Api.truthy reqId = false →
   r = (Students.Api.Failure 400 "Either id or studentId must be provided",
        matches)).
Proof.
  intros r. subst r. unfold Matches.Api.DELETE. split; [|split].
  - intros sid -> Hne. simpl. rewrite bool_decide_eq_false_2 by done. simpl.
    split; [done|]. split.
    + unfold Matches.getMatchHistory. apply elem_of_nil_inv.
      intros m [Hm [[Ha Hb] _]%list_elem_of_filter]%list_elem_of_filter.
      naive_solver.
    + intros m Hm Ha Hb. apply list_elem_of_filter. split; [|done].
      split; congruence.
  - intros -> mid -> Hne. simpl. rewrite bool_decide_eq_false_2 by done. simpl.
    rewrite (list_filter_iff (λ m, Some (Matches.id m) ≠ Some mid)
               (λ m, Matches.id m ≠ mid))
      by (intros m; split; congruence).
    split.
    + intros Hnot. by rewrite filter_other_match_id_all, bool_decide_eq_true_2.
    + intros (m & -> & Hm)%list_elem_of_fmap.
      rewrite bool_decide_eq_false_2; [done|]. intros Heq.
      pose proof (length_filter_lt (λ x, Matches.id x ≠ Matches.id m)
                    matches m Hm) as Hlt.
      rewrite Heq in Hlt. by destruct (Nat.lt_irrefl _ (Hlt ltac:(tauto))).
  - by intros -> ->.
Qed.

Lemma matches_DELETE_effect_witness :
  Matches.getMatchHistory
    (Matches.Api.DELETE Sample.twoOne (Some "m") (Some "1")).2 "1" = [] ∧
  Matches.Api.DELETE Sample.twoOne (Some "") (Some "")
  = (Students.Api.Failure 400 "Either id or studentId must be provided",
     Sample.twoOne).
Proof.
  destruct (matches_DELETE_effect Sample.twoOne (Some "m") (Some "1"))
    as (Hsid & _).
  destruct (matches_DELETE_effect Sample.twoOne (Some "") (Some ""))
    as (_ & _ & Hnone).
  split.
  - by apply (Hsid "1").
  - by apply Hnone.
Defined.

(** ** Across the modules *)

Lemma round_member_canPlay (random : nat → nat)
    (roster : list Students.Student) (matches : list Matches.Match)
    (students : list Students.Student) (margin : Z)
    (r : MatchRecommendations.MatchRecommendation) :
  r ∈ MatchRecommendations.getMatchRecommendations random roster matches
        students margin ∨
  r ∈ MatchRecommendations.getOptimizedMatchRecommendations roster matches
        students margin →
  Matches.canPlay matches (Students.id (MatchRecommendations.playerA r))
    (Students.id (MatchRecommendations.playerB r)) = true.
Proof.
  intros Hr.
  destruct (decide (length students < 2)%nat) as [Hsmall|Hlen].
  { unfold MatchRecommendations.getMatchRecommendations,
      MatchRecommendations.getOptimizedMatchRecommendations in Hr.
    rewrite !bool_decide_eq_true_2 in Hr by done.
    destruct Hr as [Hr|Hr]; by apply elem_of_nil in Hr. }
  destruct Hr as [Hr|Hr].
  - destruct (recommendations_progress random roster matches students margin Hlen)
      as (st & Heq & (_ & _ & Hrecs)).
    rewrite Heq in Hr. apply list_elem_of_split in Hr as (pre & post & Hr).
    destruct (Hrecs pre r post Hr) as (_ & HB & _). by eapply eligible_canPlay.
  - destruct (optimized_progress roster matches students margin Hlen)
      as (st & Heq & (_ & _ & Hrecs)).
    rewrite Heq in Hr. apply list_elem_of_split in Hr as (pre & post & Hr).
    destruct (Hrecs pre r post Hr) as (_ & HB & _). by eapply eligible_canPlay.
Qed.

(** X29. Every pairing of a round can be recorded: on the history the
    round was computed from, [recordMatch] accepts the match whichever of
    the two students is given as the winner. *)
Theorem recommended_pairing_recordable (trim : string → string) (now : Z)
    (random : nat → nat) (t : Matches.Tournament)
    (students : list Students.Student) (margin : Z)
    (r : MatchRecommendations.MatchRecommendation) :
  r ∈ MatchRecommendations.getMatchRecommendations random
        (Matches.studentsData t) (Matches.matchHistory t) students margin ∨
  r ∈ MatchRecommendations.getOptimizedMatchRecommendations
        (Matches.studentsData t) (Matches.matchHistory t) students margin →
  (Matches.recordMatch trim now t
     (Students.id (MatchRecommendations.playerA r))
     (Students.id (MatchRecommendations.playerB r))).1 = true ∧
  (Matches.recordMatch trim now t
     (Students.id (MatchRecommendations.playerB r))
     (Students.id (MatchRecommendations.playerA r))).1 = true.
Proof.
  intros Hr. apply round_member_canPlay in Hr.
  rewrite !recordMatch_result. split; [done|]. by rewrite canPlay_swap.
Qed.

Lemma recommended_pairing_recordable_witness :
  (Matches.recordMatch (λ s, s) 40
     (Matches.mkTournament Sample.twoOne Sample.pool) "2" "1").1 = true.
Proof.
  apply (recommended_pairing_recordable (λ s, s) 40 (λ i, i)
           (Matches.mkTournament Sample.twoOne Sample.pool) Sample.pool 1
           (MatchRecommendations.mkRecommendation Sample.alice Sample.bob 1)).
  left. vm_compute. by left.
Defined.

(** X30. A student is among the top N of the leaderboard exactly when
    their rank is between 1 and N. *)
Theorem rank_within_top (localeCompare : string → string → Z)
    (studentId : string) (students : list Students.Student)
    (matches : list Matches.Match) (limit : Z) :
  0 ≤ limit →
  (∃ e, e ∈ Leaderboard.getTopStudents localeCompare students matches limit ∧
        Students.id (Leaderboard.student e) = studentId) ↔
  1 ≤ Leaderboard.getStudentRank localeCompare studentId students matches
    ≤ limit.
Proof.
  intros Hl. unfold Leaderboard.getTopStudents, Leaderboard.getStudentRank,
    array_slice0.
  rewrite bool_decide_eq_false_2 by lia. simpl.
  set (board := Leaderboard.getLeaderboard localeCompare students matches).
  destruct (list_find _ board) as [[i e]|] eqn:Hfind.
  - apply list_find_Some in Hfind as (Hi & He & Hfirst). split.
    + intros (e' & [j Hj]%list_elem_of_lookup & He').
      apply lookup_take_Some in Hj as [Hj Hlt].
      destruct (decide (j < i)%nat) as [Hji|Hji]; [|lia].
      by destruct (Hfirst j e' Hj Hji).
    + intros Hrank. exists e. split; [|done].
      apply list_elem_of_lookup. exists i. apply lookup_take_Some.
      split; [done|lia].
  - apply list_find_None in Hfind. rewrite Forall_forall in Hfind. split.
    + intros (e' & He'%elem_of_take & Hid). destruct He' as (j & Hj & _).
      apply list_elem_of_lookup_2 in Hj. by destruct (Hfind e' Hj).
    + lia.
Qed.

Lemma rank_within_top_witness :
  ∃ e, e ∈ Leaderboard.getTopStudents Sample.compareNames Sample.pool
             Sample.twoOne 1 ∧
       Students.id (Leaderboard.student e) = "3".
Proof.
  apply (rank_within_top Sample.compareNames "3" Sample.pool Sample.twoOne 1).
  - lia.
  - vm_compute. split; discriminate.
Defined.
